(** * Sentence segmentation of narrated audio: a shallow embedding of
      [src/segmenter/gencat_segmenter.py] and the properties of its
      transcript cleaner, sentence boundary detector, manifest writer and
      corpus walker. *)

From Stdlib Require Import ZArith NArith List Ascii String PrimFloat FloatOps SpecFloat.
From Stdlib Require Import DecimalString DecimalNat.
From stdpp Require Import base option list gmap strings.

Local Open Scope N_scope.

(** ** Python strings

    A Python [str] is a sequence of Unicode code points. *)

Abbreviation codepoint := N (only parsing).
Abbreviation pystr := (list N) (only parsing).

(** An ASCII literal as a [str]. *)
Definition py (s : string) : pystr :=
  map N_of_ascii (list_ascii_of_string s).

Definition NL : codepoint := 10.       (* line feed *)
Definition SP : codepoint := 32.       (* space *)
Definition DOT : codepoint := 46.      (* . *)
Definition BANG : codepoint := 33.     (* ! *)
Definition QUERY : codepoint := 63.    (* ? *)
Definition SLASH : codepoint := 47.    (* / *)
Definition UNDERSCORE : codepoint := 95.

(** [str.isspace] on one code point; also the class [\s] of [re] on [str]
    patterns and the characters removed by [str.strip()]. *)
Definition isspace (c : codepoint) : bool :=
  ((9 <=? c) && (c <=? 13)) || ((28 <=? c) && (c <=? 32))
  || (c =? 133) || (c =? 160) || (c =? 5760)
  || ((8192 <=? c) && (c <=? 8202))
  || (c =? 8232) || (c =? 8233) || (c =? 8239) || (c =? 8287) || (c =? 12288).

Fixpoint lstrip (s : pystr) : pystr :=
  match s with
  | c :: r => if isspace c then lstrip r else s
  | [] => []
  end.

Definition rstrip (s : pystr) : pystr := rev (lstrip (rev s)).

(** [s.strip()] *)
Definition strip (s : pystr) : pystr := rstrip (lstrip s).

(** [s.startswith(p)] *)
Fixpoint startswith (s p : pystr) : bool :=
  match p, s with
  | [], _ => true
  | a :: p', b :: s' => (a =? b) && startswith s' p'
  | _ :: _, [] => false
  end.

(** [s.endswith(p)] *)
Definition endswith (s p : pystr) : bool := startswith (rev s) (rev p).

(** [p in s] for strings *)
Fixpoint str_contains (s p : pystr) : bool :=
  startswith s p ||
  match s with
  | [] => false
  | _ :: r => str_contains r p
  end.

(** Lowercasing of the 26 ASCII capitals.  Outside them [str.lower()] yields
    an ASCII letter only for U+212A (k) and for U+0130 (i followed by
    U+0307); neither can take part in an occurrence of the word the walker
    looks for, so its substring test sees the same answer. *)
Definition ascii_lower (c : codepoint) : codepoint :=
  if (65 <=? c) && (c <=? 90) then c + 32 else c.

(** [str(n)] for a non-negative [int] *)
Definition str_of_nat (n : nat) : pystr :=
  py (NilEmpty.string_of_uint (Nat.to_uint n)).

(** ** [posixpath] *)

(** [os.path.join(a, b)] *)
Definition path_join (a b : pystr) : pystr :=
  if startswith b [SLASH] then b
  else if bool_decide (a = []) || endswith a [SLASH] then a ++ b
  else a ++ SLASH :: b.

(** Splitting at the last slash: the part up to and including it, and the
    part after it ([p[:i]], [p[i:]] with [i = p.rfind('/') + 1]). *)
Fixpoint rsplit_slash (p : pystr) : pystr * pystr :=
  match p with
  | [] => ([], [])
  | c :: r =>
      let '(h, t) := rsplit_slash r in
      if str_contains r [SLASH] then (c :: h, t)
      else if c =? SLASH then ([c], r)
      else ([], c :: r)
  end.

Fixpoint rstrip_slash_rev (r : pystr) : pystr :=
  match r with
  | c :: r' => if c =? SLASH then rstrip_slash_rev r' else r
  | [] => []
  end.

(** [posixpath.split] *)
Definition path_split (p : pystr) : pystr * pystr :=
  let '(h, t) := rsplit_slash p in
  if forallb (N.eqb SLASH) h then (h, t)
  else (rev (rstrip_slash_rev (rev h)), t).

Definition dirname (p : pystr) : pystr := fst (path_split p).
Definition basename (p : pystr) : pystr := snd (path_split p).

(** ** Values decoded from JSON, as Python objects *)

#[warnings="-register-all"]
Inductive pyval : Type :=
| PyNone
| PyBool (b : bool)
| PyInt (z : Z)
| PyFloat (f : float)
| PyStr (s : pystr)
| PyList (l : list pyval)
| PyDict (d : gmap string pyval).

(** [float(z)] for an [int]: nearest double, ties to even;
    [OverflowError] when it is out of range. *)
Definition float_of_Z (z : Z) : option float :=
  let f := SF2Prim (binary_normalize prec emax z 0 false) in
  if PrimFloat.is_infinity f then None else Some f.

(** ** [clean_transcript]

    The three substitutions have the shape [\n\s*LABEL.*$] (the first one
    without [\s*] and without [re.IGNORECASE]).  [.] matches anything but a
    line feed and, [re.MULTILINE] being absent, [$] matches at the end of the
    text or just before a line feed that is its last character. *)

(** [.*$] from the start of [r]: what the match leaves of the text, or
    [None] when a line feed of [r] is followed by more text. *)
Fixpoint dot_star_eol (r : pystr) : option pystr :=
  match r with
  | [] => Some []
  | c :: r' =>
      if c =? NL then match r' with [] => Some [NL] | _ :: _ => None end
      else dot_star_eol r'
  end.

(** One ASCII letter [a] of a pattern against [c] under [re.IGNORECASE]:
    the simple lowercase of [c] is the lowercase of [a], or [c] is one of
    the two extra case variants [sre] lists for [i] and [s]. *)
Definition sre_lower (c : codepoint) : codepoint :=
  if c =? 8490 then 107            (* KELVIN SIGN *)
  else if c =? 304 then 105        (* I WITH DOT ABOVE *)
  else ascii_lower c.

Definition ignorecase_match (a c : codepoint) : bool :=
  let lo := ascii_lower a in
  (sre_lower c =? lo) || ((lo =? 115) && (c =? 383)) || ((lo =? 105) && (c =? 305)).

Definition char_match (ci : bool) (a c : codepoint) : bool :=
  if ci then ignorecase_match a c else a =? c.

(** A literal of the pattern at the start of [s]: the text after it. *)
Fixpoint match_literal (ci : bool) (p s : pystr) : option pystr :=
  match p, s with
  | [], _ => Some s
  | a :: p', c :: s' => if char_match ci a c then match_literal ci p' s' else None
  | _ :: _, [] => None
  end.

(** Greedy [\s*] followed by the continuation [k], with backtracking. *)
Fixpoint match_ws_then (k : pystr -> option pystr) (s : pystr) : option pystr :=
  match s with
  | c :: r =>
      if isspace c then
        match match_ws_then k r with
        | Some x => Some x
        | None => k s
        end
      else k s
  | [] => k []
  end.

(** The pattern after its leading [\n]. *)
Definition match_after_newline (ws ci : bool) (label : pystr) (s : pystr) : option pystr :=
  let k := fun s1 => r ← match_literal ci label s1; dot_star_eol r in
  if ws then match_ws_then k s else k s.

(** [re.sub(pattern, '', t)]: the leftmost match is removed; it runs to the
    end of the text (or to its final line feed), so no second match exists. *)
Fixpoint sub_label (ws ci : bool) (label : pystr) (t : pystr) : pystr :=
  match t with
  | [] => []
  | c :: r =>
      if c =? NL then
        match match_after_newline ws ci label r with
        | Some tail => tail
        | None => c :: sub_label ws ci label r
        end
      else c :: sub_label ws ci label r
  end.

(** [t.replace('\n', ' ')] *)
Definition replace_newlines (t : pystr) : pystr :=
  map (fun c => if c =? NL then SP else c) t.

(** [re.sub(r'\s+', ' ', t)]; [in_run] tells that the previous character
    was white space. *)
Fixpoint collapse_from (in_run : bool) (t : pystr) : pystr :=
  match t with
  | [] => []
  | c :: r =>
      if isspace c then
        if in_run then collapse_from true r else SP :: collapse_from true r
      else c :: collapse_from false r
  end.

Definition collapse_ws (t : pystr) : pystr := collapse_from false t.

Definition sub_text : pystr -> pystr := sub_label false false (py "Text:").
Definition sub_author : pystr -> pystr := sub_label true true (py "Author:").
Definition sub_source : pystr -> pystr := sub_label true true (py "Source:").

(** The steps after the substitutions. *)
Definition normalize_ws (t : pystr) : pystr :=
  strip (collapse_ws (replace_newlines t)).

Definition clean_transcript (transcript : pystr) : pystr :=
  normalize_ws (sub_source (sub_author (sub_text transcript))).

(** ** The world outside the program *)

(** The ffmpeg argument vector
    [['ffmpeg','-i',input,'-ss',str(start),'-t',str(duration),'-c:a','copy','-y',output]],
    by its four varying arguments. *)
Record ffmpeg_cmd := {
  ff_input : pystr;
  ff_start : float;
  ff_duration : float;
  ff_output : pystr;
}.

(** What [replicate.run] hands back: a JSON-like object, or something else. *)
Inductive response :=
| RespJson (v : pyval)
| RespOther.

(** Writing the alignment dump: [open(.., 'w')] may raise, and [json.dump]
    may raise once the file has been created. *)
Inductive dump_outcome := DumpOk | DumpOpenRaises | DumpWriteRaises.

(** What the program did to the outside, in order. *)
Inductive event :=
| EvReplicate (audio_path alignment_text : pystr)
| EvDump (alignment_file : pystr) (o : dump_outcome)
| EvFfmpeg (cmd : ffmpeg_cmd) (returncode : option Z)
| EvWriteRow (row : pystr * pystr).

(** The behaviour of the platform and of the external collaborators.  Each
    answer may depend on everything that happened before. *)
Record Env := {
  (** [str.isalnum] on one code point (the Unicode data base), for [\w] *)
  isalnum : codepoint -> bool;
  (** [float(s)] on a [str]; [None] is [ValueError] *)
  float_of_str : pystr -> option float;
  (** the file a path names, by its canonical path ([os.path.realpath]): two
      paths name the same file when their canonical paths are equal *)
  realpath : pystr -> pystr;
  (** [subprocess.run(cmd, ...)]: the exit code; [None] when it raises *)
  subprocess_run : list event -> ffmpeg_cmd -> option Z;
  (** a run of ffmpeg that exited with another code than 0 has left a file
      at its output path *)
  ffmpeg_left_output : list event -> ffmpeg_cmd -> bool;
  (** [open(path, 'rb')] on a file that exists does not raise *)
  open_rb_ok : list event -> pystr -> bool;
  (** [replicate.run(model, input={audio_file: .., transcript: ..})] on the
      opened audio file; [None] when the call raises *)
  replicate_run : list event -> pystr -> pystr -> option response;
  (** writing the response to the alignment file *)
  json_dump : list event -> pystr -> dump_outcome;
  (** [open(csv_output_file, 'a')] does not raise *)
  csv_open_ok : list event -> bool;
  (** [writer.writerow(row)] does not raise *)
  csv_writerow_ok : list event -> pystr * pystr -> bool;
  (** [open(path).read()]; [None] when it raises *)
  read_text : list event -> pystr -> option pystr;
  (** [os.listdir(path)]; [None] when it raises *)
  listdir : pystr -> option (list pystr);
  (** [os.path.isdir(path)] *)
  isdir : pystr -> bool;
}.

(** What the program changes: the files and directories that exist, each
    by its canonical path; the rows of the manifest after its header (none
    while the file is absent); the history of events. *)
Record state := {
  present : gset (list N);
  manifest : list (pystr * pystr);
  trace : list event;
}.

Definition log_event (e : event) (st : state) : state :=
  {| present := present st; manifest := manifest st; trace := trace st ++ [e] |}.

(** The file that [p] names is created, or written over. *)
Definition create_file (E : Env) (p : pystr) (st : state) : state :=
  {| present := {[ realpath E p ]} ∪ present st; manifest := manifest st;
     trace := trace st |}.

Definition append_row (r : pystr * pystr) (st : state) : state :=
  {| present := present st; manifest := manifest st ++ [r]; trace := trace st |}.

(** [os.path.exists(p)] *)
Definition path_exists (E : Env) (p : pystr) (st : state) : bool :=
  bool_decide (realpath E p ∈ present st).

(** Computations that change the state and may raise: [None] is a raised
    exception; the state reached before it is kept. *)
Definition M (A : Type) : Type := state -> option A * state.

Definition ret {A} (a : A) : M A := fun st => (Some a, st).
Definition raise {A} : M A := fun st => (None, st).
Definition bind {A B} (m : M A) (k : A -> M B) : M B :=
  fun st => match m st with
            | (Some a, st') => k a st'
            | (None, st') => (None, st')
            end.
(** [try: m  except Exception: h] *)
Definition try_except {A} (m : M A) (h : M A) : M A :=
  fun st => match m st with
            | (Some a, st') => (Some a, st')
            | (None, st') => h st'
            end.
(** An operation that raises or yields a value without touching the state. *)
Definition lift {A} (o : option A) : M A := fun st => (o, st).
Definition get_trace : M (list event) := fun st => (Some (trace st), st).
Definition modify (f : state -> state) : M unit := fun st => (Some tt, f st).

Declare Scope py_scope.
Delimit Scope py_scope with py.
Notation "x <- m ;; k" := (bind m (fun x => k))
  (at level 100, m at next level, right associativity) : py_scope.
Notation "m ;;; k" := (bind m (fun _ => k))
  (at level 100, right associativity) : py_scope.
Local Open Scope py_scope.

(** ** The segmenter *)

(** The attributes of a [GencatSegmenter] that the methods read. *)
Record segmenter := {
  data_dir : pystr;
  audio_output_dir : pystr;
  csv_output_file : pystr;
}.

(** The entries of [sentences]. *)
Record sentence := {
  filename : pystr;
  filepath : pystr;
  transcript : pystr;
  start_time : float;
  end_time : float;
}.

(** [d.get(key, default)]; [AttributeError] on what is not a [dict]. *)
Definition py_get (v : pyval) (key : string) (dflt : pyval) : option pyval :=
  match v with
  | PyDict d => Some (default dflt (d !! key))
  | _ => None
  end.

(** [v == s] for a [str] literal [s] *)
Definition py_eq_str (v : pyval) (s : pystr) : bool :=
  match v with
  | PyStr s' => bool_decide (s' = s)
  | _ => false
  end.

(** [float(v)]; [TypeError], [ValueError] and [OverflowError] are [None]. *)
Definition py_float (E : Env) (v : pyval) : option float :=
  match v with
  | PyFloat f => Some f
  | PyInt z => float_of_Z z
  | PyBool b => Some (if b then 1%float else 0%float)
  | PyStr s => float_of_str E s
  | PyNone | PyList _ | PyDict _ => None
  end.

(** [re.sub(r'[^\w]', '_', topic)] *)
Definition sanitize_topic (E : Env) (topic : pystr) : pystr :=
  map (fun c => if isalnum E c || (c =? UNDERSCORE) then c else UNDERSCORE) topic.

(** [subprocess.run(cmd, ...)] for a cut: ffmpeg runs, and its output file
    is there afterwards when it exited with 0 ([-y]: an earlier file is
    written over), or when it failed and left one.  The value is the exit
    code; an exception when the process could not be started. *)
Definition run_ffmpeg (E : Env) (cmd : ffmpeg_cmd) : M Z :=
  tr <- get_trace ;;
  let rc := subprocess_run E tr cmd in
  modify (log_event (EvFfmpeg cmd rc)) ;;;
  returncode <- lift rc ;;
  (if (returncode =? 0)%Z || ffmpeg_left_output E tr cmd
   then modify (create_file E (ff_output cmd)) else ret tt) ;;;
  ret returncode.

Definition _extract_audio_segment (E : Env) (input_file output_file : pystr)
    (start_time duration : float) : M bool :=
  let cmd := {| ff_input := input_file; ff_start := start_time;
                ff_duration := duration; ff_output := output_file |} in
  try_except
    (returncode <- run_ffmpeg E cmd ;;
     if negb (returncode =? 0)%Z then ret false else ret true)
    (ret false).

(** The scan for the first "Generalitat" followed by "de", "Catalunya";
    [i] is the index of the head of [l].  The outer [None] is an
    [AttributeError] of [.get] on a record that is not a [dict]. *)
Fixpoint find_generalitat (i : nat) (l : list pyval) : option (option nat) :=
  match l with
  | [] => Some None
  | word_data :: rest =>
      w ← py_get word_data "word" PyNone;
      if py_eq_str w (py "Generalitat") then
        match rest with
        | w1 :: w2 :: _ =>
            v1 ← py_get w1 "word" PyNone;
            if py_eq_str v1 (py "de") then
              v2 ← py_get w2 "word" PyNone;
              if py_eq_str v2 (py "Catalunya") then Some (Some i)
              else find_generalitat (S i) rest
            else find_generalitat (S i) rest
        | _ => find_generalitat (S i) rest
        end
      else find_generalitat (S i) rest
  end.

Section Sentences.
Variable E : Env.
Variable self : segmenter.
Variables audio_file_path level topic : pystr.

(** The block that both the loop and the final flush run: the times of
    the buffered words, the clip's name, the cut, the new entry. *)
Definition emit_sentence (sentences : list sentence)
    (current_sentence : list pyval) (current_text : pystr) : M (list sentence) :=
  first_word <- lift (head current_sentence) ;;
  last_word <- lift (last current_sentence) ;;
  sv <- lift (py_get first_word "start" (PyInt 0)) ;;
  sentence_start <- lift (py_float E sv) ;;
  ev <- lift (py_get last_word "end" (PyInt 0)) ;;
  sentence_end <- lift (py_float E ev) ;;
  let sentence_duration := (sentence_end - sentence_start)%float in
  let topic_sanitized := sanitize_topic E topic in
  let sentence_index := (length sentences + 1)%nat in
  let filename := level ++ py "_" ++ topic_sanitized ++ py "_sentence"
                    ++ str_of_nat sentence_index ++ py ".mp3" in
  let filepath := path_join (audio_output_dir self) filename in
  _extract_audio_segment E audio_file_path filepath sentence_start sentence_duration ;;;
  let current_text := strip current_text in
  ret (sentences ++ [ {| filename := filename; filepath := filepath;
                         transcript := current_text;
                         start_time := sentence_start;
                         end_time := sentence_end |} ]).

(** A word ends a sentence. *)
Definition ends_sentence (word : pystr) : bool :=
  endswith word [DOT] || endswith word [BANG] || endswith word [QUERY].

(** [word + " "]: [TypeError] unless [word] is a [str]. *)
Definition str_of_word (wv : pyval) : option pystr :=
  match wv with
  | PyStr w => Some w
  | _ => None
  end.

(** One turn of the loop over the words, on
    [(sentences, current_sentence, current_text)]. *)
Definition segment_step (acc : list sentence * list pyval * pystr) (word_data : pyval)
    : M (list sentence * list pyval * pystr) :=
  let '(sentences, current_sentence, current_text) := acc in
  wv <- lift (py_get word_data "word" (PyStr [])) ;;
  let current_sentence := current_sentence ++ [word_data] in
  word <- lift (str_of_word wv) ;;
  let current_text := current_text ++ word ++ [SP] in
  if ends_sentence word then
    sentences' <- emit_sentence sentences current_sentence current_text ;;
    ret (sentences', [], [])
  else ret (sentences, current_sentence, current_text).

Fixpoint segment_loop (acc : list sentence * list pyval * pystr) (l : list pyval)
    : M (list sentence * list pyval * pystr) :=
  match l with
  | [] => ret acc
  | word_data :: rest => acc' <- segment_step acc word_data ;; segment_loop acc' rest
  end.

(** The loop over the words and the flush of the words that remain. *)
Definition segment_words (l : list pyval) : M (list sentence) :=
  acc <- segment_loop ([], [], []) l ;;
  let '(sentences, current_sentence, current_text) := acc in
  match current_sentence with
  | _ :: _ => emit_sentence sentences current_sentence current_text
  | [] => ret sentences
  end.

(** The body of the [try] of [_extract_sentences_ffmpeg]. *)
Definition extract_body (alignment_result : pyval) : M (list sentence) :=
  match alignment_result with
  | PyList l =>
      generalitat_index <- lift (find_generalitat 0 l) ;;
      let max_index := match generalitat_index with
                       | Some i => i
                       | None => length l
                       end in
      segment_words (take max_index l)
  | _ => ret []
  end.

Definition _extract_sentences_ffmpeg (alignment_result : pyval) : M (list sentence) :=
  try_except (extract_body alignment_result) (ret []).
End Sentences.

(** The rows go to the manifest one by one; a failing write leaves the
    earlier ones. *)
Fixpoint write_rows (E : Env) (sentences : list sentence) : M unit :=
  match sentences with
  | [] => ret tt
  | s :: rest =>
      let row := (filename s, transcript s) in
      tr <- get_trace ;;
      if csv_writerow_ok E tr row then
        modify (append_row row) ;;;
        modify (log_event (EvWriteRow row)) ;;;
        write_rows E rest
      else raise
  end.

(** [open(.., 'a')] creates the manifest when it is absent. *)
Definition _save_segments_to_csv (E : Env) (self : segmenter) (sentences : list sentence)
    : M bool :=
  try_except
    (tr <- get_trace ;;
     if csv_open_ok E tr then
       modify (create_file E (csv_output_file self)) ;;;
       write_rows E sentences ;;;
       ret true
     else raise)
    (ret false).

(** [len(v)]; [TypeError] on what has no length. *)
Definition py_len (v : pyval) : option nat :=
  match v with
  | PyStr s => Some (length s)
  | PyList l => Some (length l)
  | PyDict d => Some (size d)
  | PyNone | PyBool _ | PyInt _ | PyFloat _ => None
  end.

Section Segmenting.
Variable E : Env.
Variable self : segmenter.

(** The transcript of [segment_audio_file]: the given text when it is not
    empty, else the file at the given path when it exists; [None] when
    there is neither. *)
Definition get_transcript (transcript_text transcript_path : option pystr)
    : M (option pystr) :=
  match transcript_text with
  | Some (c :: t) => ret (Some (clean_transcript (c :: t)))
  | _ =>
      match transcript_path with
      | Some (c :: p) =>
          fun st =>
            if path_exists E (c :: p) st then
              (tr <- get_trace ;;
               transcript <- lift (read_text E tr (c :: p)) ;;
               ret (Some (clean_transcript transcript))) st
            else ret None st
      | _ => ret None
      end
  end.

(** The wordstamps of a response; [None] in the outer option is the
    [TypeError] of [len] in the log line of the first branch, [None] in
    the inner one the shape that cannot be processed. *)
Definition wordstamps_of (alignment_response : response) : option (option pyval) :=
  match alignment_response with
  | RespJson (PyDict d) =>
      match d !! "wordstamps" with
      | Some alignment_result => _ ← py_len alignment_result; Some (Some alignment_result)
      | None => Some None
      end
  | RespJson (PyList l) => Some (Some (PyList l))
  | _ => Some None
  end.

(** [open(path, 'rb')]: [FileNotFoundError] when no file is there. *)
Definition open_rb (path : pystr) : M unit :=
  fun st =>
    if path_exists E path st && open_rb_ok E (trace st) path then (Some tt, st)
    else (None, st).

(** The inner [try] of [segment_audio_file]: the audio file is opened, the
    aligner is called, the shape of the response is looked at, the response
    is dumped next to the audio file.  [Some None] is its [return False]. *)
Definition run_alignment (audio_path alignment_text : pystr) : M (option pyval) :=
  let topic_dir := dirname audio_path in
  try_except
    (open_rb audio_path ;;;
     tr <- get_trace ;;
     let r := replicate_run E tr audio_path alignment_text in
     modify (log_event (EvReplicate audio_path alignment_text)) ;;;
     alignment_response <- lift r ;;
     shape <- lift (wordstamps_of alignment_response) ;;
     match shape with
     | None => ret None
     | Some alignment_result =>
         let audio_filename := basename audio_path in
         let alignment_file :=
           path_join topic_dir (audio_filename ++ py "_alignment.json") in
         tr <- get_trace ;;
         let o := json_dump E tr alignment_file in
         modify (log_event (EvDump alignment_file o)) ;;;
         match o with
         | DumpOk => modify (create_file E alignment_file) ;;; ret (Some alignment_result)
         | DumpOpenRaises => raise
         | DumpWriteRaises => modify (create_file E alignment_file) ;;; raise
         end
     end)
    (ret None).

Definition segment_audio_file (audio_path : pystr)
    (transcript_text transcript_path : option pystr) (level topic_name : pystr) : M bool :=
  try_except
    (clean <- get_transcript transcript_text transcript_path ;;
     match clean with
     | None => ret false
     | Some clean_text =>
         let alignment_text := clean_text ++ py " Generalitat de Catalunya" in
         aligned <- run_alignment audio_path alignment_text ;;
         match aligned with
         | None => ret false
         | Some alignment_result =>
             sentences <- _extract_sentences_ffmpeg E self audio_path level topic_name
                            alignment_result ;;
             _save_segments_to_csv E self sentences ;;;
             ret true
         end
     end)
    (ret false).

(** *** The walker over the directory tree *)

(** [f.lower()] contains "rapid". *)
Definition is_rapid (f : pystr) : bool :=
  str_contains (map ascii_lower f) (py "rapid").

(** The audio files of a topic directory, from its listing: the rapid
    ones when there are any, else the others. *)
Definition scan_audio_files (listing : list pystr) : list pystr :=
  let all_files := filter (fun f => endswith f (py ".mp3") = true) listing in
  let rapid_files := filter (fun f => is_rapid f = true) all_files in
  let other_files := filter (fun f => is_rapid f = false) all_files in
  match rapid_files with
  | _ :: _ => rapid_files
  | [] => other_files
  end.

(** The path the walker tests before it processes an audio file. *)
Definition marker_of (audio_path : pystr) : pystr :=
  audio_path ++ py "_alignment.json".

(** The body of the loop over the topics of a level.  The flag of the
    result tells that the function returned from inside the loop. *)
Definition scan_topic (limit_to_one : bool) (level level_dir topic : pystr)
    (processed_count : nat) : M (nat * bool) :=
  let topic_dir := path_join level_dir topic in
  if negb (isdir E topic_dir) || startswith topic (py ".") then ret (processed_count, false)
  else
    listing <- lift (listdir E topic_dir) ;;
    let transcript_files := filter (fun f => endswith f (py ".txt") = true) listing in
    match transcript_files with
    | [] => ret (processed_count, false)
    | transcript_file :: _ =>
        let transcript_path := path_join topic_dir transcript_file in
        listing <- lift (listdir E topic_dir) ;;
        match scan_audio_files listing with
        | [] => ret (processed_count, false)
        | audio_file :: _ =>
            let audio_path := path_join topic_dir audio_file in
            let alignment_file := marker_of audio_path in
            fun st =>
              if path_exists E alignment_file st then ret (processed_count, false) st
              else
                (success <- segment_audio_file audio_path None (Some transcript_path)
                              level topic ;;
                 if success then
                   let processed_count := (processed_count + 1)%nat in
                   if limit_to_one && bool_decide (1 ≤ processed_count)%nat
                   then ret (processed_count, true)
                   else ret (processed_count, false)
                 else ret (processed_count, false)) st
        end
    end.

Fixpoint scan_topics (limit_to_one : bool) (level level_dir : pystr)
    (topics : list pystr) (processed_count : nat) : M (nat * bool) :=
  match topics with
  | [] => ret (processed_count, false)
  | topic :: rest =>
      r <- scan_topic limit_to_one level level_dir topic processed_count ;;
      let '(processed_count, returned) := r in
      if returned then ret (processed_count, true)
      else scan_topics limit_to_one level level_dir rest processed_count
  end.

Definition scan_level (limit_to_one : bool) (level : pystr) (processed_count : nat)
    : M (nat * bool) :=
  let level_dir := path_join (data_dir self) level in
  if negb (isdir E level_dir) || startswith level (py ".") then ret (processed_count, false)
  else
    topics <- lift (listdir E level_dir) ;;
    scan_topics limit_to_one level level_dir topics processed_count.

Fixpoint scan_levels (limit_to_one : bool) (levels : list pystr) (processed_count : nat)
    : M (nat * bool) :=
  match levels with
  | [] => ret (processed_count, false)
  | level :: rest =>
      r <- scan_level limit_to_one level processed_count ;;
      let '(processed_count, returned) := r in
      if returned then ret (processed_count, true)
      else scan_levels limit_to_one rest processed_count
  end.

Definition _process_directory_scan (limit_to_one : bool) : M nat :=
  levels <- lift (listdir E (data_dir self)) ;;
  r <- scan_levels limit_to_one levels 0%nat ;;
  ret (fst r).

(** *** The walker over the index, for one topic

    The part of [_process_from_master_data] that follows the resolution
    of the topic's directory and transcript. *)

(** An entry of [topic_data["audio_files"]]: a [dict] with a [str] under
    "path", or something the loop passes over. *)
Inductive audio_entry :=
| AudioPath (path : pystr)
| AudioSkipped.

(** The loop over the entries: the existing paths, rapid and other. *)
Fixpoint classify_entries (entries : list audio_entry) (st : state)
    : list pystr * list pystr :=
  match entries with
  | [] => ([], [])
  | AudioSkipped :: rest => classify_entries rest st
  | AudioPath audio_path :: rest =>
      let '(rapid_files, other_files) := classify_entries rest st in
      if negb (path_exists E audio_path st) then (rapid_files, other_files)
      else if is_rapid audio_path then (audio_path :: rapid_files, other_files)
      else (rapid_files, audio_path :: other_files)
  end.

(** The audio files of a topic of the index; [audio_files_field] is
    [None] when the key is absent or its value is not a list. *)
Definition master_audio_files (audio_files_field : option (list audio_entry))
    (topic_dir : pystr) : M (list pystr) :=
  fun st =>
    let audio_files :=
      match audio_files_field with
      | Some entries =>
          let '(rapid_files, other_files) := classify_entries entries st in
          match rapid_files with
          | _ :: _ => rapid_files
          | [] => other_files
          end
      | None => []
      end in
    match audio_files with
    | _ :: _ => ret audio_files st
    | [] =>
        (listing <- lift (listdir E topic_dir) ;;
         let all_files := filter (fun f => endswith f (py ".mp3") = true) listing in
         let rapid_files :=
           map (path_join topic_dir) (filter (fun f => is_rapid f = true) all_files) in
         let other_files :=
           map (path_join topic_dir) (filter (fun f => is_rapid f = false) all_files) in
         match rapid_files with
         | _ :: _ => ret rapid_files
         | [] => ret other_files
         end) st
    end.

(** The loop over the audio files of a topic; it stops at the first
    file that is processed successfully. *)
Fixpoint master_audio_loop (limit_to_one : bool)
    (transcript_text transcript_path : option pystr) (level_code topic_name : pystr)
    (audio_files : list pystr) (processed_count : nat) : M (nat * bool) :=
  match audio_files with
  | [] => ret (processed_count, false)
  | audio_path :: rest =>
      let alignment_file := marker_of audio_path in
      fun st =>
        if path_exists E alignment_file st then
          master_audio_loop limit_to_one transcript_text transcript_path
            level_code topic_name rest processed_count st
        else
          (success <- segment_audio_file audio_path transcript_text transcript_path
                        level_code topic_name ;;
           if success then
             let processed_count := (processed_count + 1)%nat in
             if limit_to_one && bool_decide (1 ≤ processed_count)%nat
             then ret (processed_count, true)
             else ret (processed_count, false)
           else
             master_audio_loop limit_to_one transcript_text transcript_path
               level_code topic_name rest processed_count) st
  end.
End Segmenting.

(** ** Timed words *)

Record timed_word := {
  text : pystr;
  start_seconds : float;
  end_seconds : float;
}.

(** A timed word as the aligner's record. *)
Definition word_record (w : timed_word) : pyval :=
  PyDict (<["word" := PyStr (text w)]>
          (<["start" := PyFloat (start_seconds w)]>
           (<["end" := PyFloat (end_seconds w)]> ∅))).

(** ** A sample platform, for the examples *)

Definition ascii_isalnum (c : codepoint) : bool :=
  ((48 <=? c) && (c <=? 57)) || ((65 <=? c) && (c <=? 90)) || ((97 <=? c) && (c <=? 122)).

(** Every ffmpeg run exits with [rc]; nothing else fails.  The examples
    give their times as floats, so [float] of a string is left undefined. *)
Definition sample_env (rc : Z) (resp : option response) : Env := {|
  isalnum := ascii_isalnum;
  float_of_str := fun _ => None;
  realpath := fun p => p;
  subprocess_run := fun _ _ => Some rc;
  ffmpeg_left_output := fun _ _ => false;
  open_rb_ok := fun _ _ => true;
  replicate_run := fun _ _ _ => resp;
  json_dump := fun _ _ => DumpOk;
  csv_open_ok := fun _ => true;
  csv_writerow_ok := fun _ _ => true;
  read_text := fun _ _ => None;
  listdir := fun _ => None;
  isdir := fun _ => false;
|}.

Definition sample_segmenter : segmenter := {|
  data_dir := py "data/downloaded_audio";
  audio_output_dir := py "data/corpus/audio";
  csv_output_file := py "data/corpus/segments.csv";
|}.

Definition empty_state : state :=
  {| present := ∅; manifest := []; trace := [] |}.

Definition tw (s : pystr) (a b : float) : timed_word :=
  {| text := s; start_seconds := a; end_seconds := b |}.

(** A record with only its text and a record with only its times. *)
Definition sample_partial : list pyval :=
  [ PyDict {[ "word" := PyStr (py "Hola.") ]};
    PyDict (<["start" := PyFloat 1%float]> {[ "end" := PyFloat 2%float ]}) ].

Definition bon_dia : list timed_word :=
  [ tw (py "Bon") 0%float 0.5%float; tw (py "dia.") 0.5%float 1%float;
    tw (py "Ad" ++ 233 :: py "u") 1%float 1.5%float; tw (py "amic.") 1.5%float 2%float ].

(** ** Notions used to state the properties *)

(** A text without its white space. *)
Definition remove_ws (s : pystr) : pystr :=
  filter (fun c => isspace c = false) s.

(** The marker triple starts the sequence. *)
Definition marker_here (ws : list timed_word) : bool :=
  match ws with
  | a :: b :: c :: _ =>
      bool_decide (text a = py "Generalitat") && bool_decide (text b = py "de")
      && bool_decide (text c = py "Catalunya")
  | _ => false
  end.

(** The words before the first occurrence of the marker triple; all of
    them when it does not occur. *)
Fixpoint before_marker (ws : list timed_word) : list timed_word :=
  if marker_here ws then []
  else match ws with
       | [] => []
       | w :: rest => w :: before_marker rest
       end.

(** [s.split()]: the runs of [s] between white space; [cur] is the run
    being read. *)
Fixpoint split_from (cur : pystr) (s : pystr) : list pystr :=
  match s with
  | [] => match cur with [] => [] | _ :: _ => [cur] end
  | c :: r =>
      if isspace c then
        match cur with
        | [] => split_from [] r
        | _ :: _ => cur :: split_from [] r
        end
      else split_from (cur ++ [c]) r
  end.

Definition split_ws (s : pystr) : list pystr := split_from [] s.

(** [" ".join(l)] *)
Fixpoint join_sp (l : list pystr) : pystr :=
  match l with
  | [] => []
  | a :: rest =>
      match rest with
      | [] => a
      | _ :: _ => a ++ SP :: join_sp rest
      end
  end.

(** A word text that is not empty and holds no white space. *)
Definition plain_text (s : pystr) : Prop :=
  s ≠ [] /\ Forall (fun c => isspace c = false) s.

(** The index of the first occurrence of the marker triple. *)
Fixpoint marker_index (ws : list timed_word) : option nat :=
  if marker_here ws then Some 0%nat
  else match ws with
       | [] => None
       | _ :: rest => S <$> marker_index rest
       end.

(** The text of a record ([""] when it has none) and its times ([0] when
    it has none). *)
Definition word_text (v : pyval) : pystr :=
  default [] (py_get v "word" (PyStr []) ≫= str_of_word).

Definition word_time (E : Env) (key : string) (v : pyval) : float :=
  default 0%float (py_get v key (PyInt 0) ≫= py_float E).

(** A record of the aligner, possibly without some of its fields: a
    mapping whose "word", when present, is a [str] and whose "start" and
    "end", when present, convert to [float]. *)
Definition partial_record (E : Env) (v : pyval) : Prop :=
  is_Some (py_get v "word" (PyStr []) ≫= str_of_word)
  ∧ is_Some (py_get v "start" (PyInt 0) ≫= py_float E)
  ∧ is_Some (py_get v "end" (PyInt 0) ≫= py_float E).

(** The words buffered by the loop, each followed by a space. *)
Definition texts_of (cs : list pyval) : pystr :=
  concat (map (fun v => word_text v ++ [SP]) cs).

(** The loop in closed form: the completed groups of records and the
    records left in the buffer. *)
Fixpoint split_words (cur : list pyval) (l : list pyval) : list (list pyval) * list pyval :=
  match l with
  | [] => ([], cur)
  | w :: rest =>
      if ends_sentence (word_text w) then
        let '(gs, rem) := split_words [] rest in ((cur ++ [w]) :: gs, rem)
      else split_words (cur ++ [w]) rest
  end.

Definition groups_of (l : list pyval) : list (list pyval) :=
  let '(gs, rem) := split_words [] l in
  match rem with
  | [] => gs
  | _ :: _ => gs ++ [rem]
  end.

(** ffmpeg has written its output file: it exited with 0, or failed and
    left one. *)
Definition cut_writes (E : Env) (tr : list event) (cmd : ffmpeg_cmd) : bool :=
  match subprocess_run E tr cmd with
  | Some returncode => (returncode =? 0)%Z || ffmpeg_left_output E tr cmd
  | None => false
  end.

(** The state after one run of ffmpeg: its event, and the output file when
    ffmpeg wrote it. *)
Definition after_cut (E : Env) (cmd : ffmpeg_cmd) (st : state) : state :=
  let st1 := log_event (EvFfmpeg cmd (subprocess_run E (trace st) cmd)) st in
  if cut_writes E (trace st) cmd then create_file E (ff_output cmd) st1 else st1.

Section ClosedForm.
Variable E : Env.
Variable self : segmenter.
Variables audio_file_path level topic : pystr.

(** The entry made for the group [g] when [n] entries precede it. *)
Definition sentence_of (n : nat) (g : list pyval) : sentence :=
  let name := level ++ py "_" ++ sanitize_topic E topic ++ py "_sentence"
                ++ str_of_nat (n + 1) ++ py ".mp3" in
  {| filename := name;
     filepath := path_join (audio_output_dir self) name;
     transcript := strip (texts_of g);
     start_time := word_time E "start" (default PyNone (head g));
     end_time := word_time E "end" (default PyNone (last g)) |}.

Fixpoint sentences_from (n : nat) (gs : list (list pyval)) : list sentence :=
  match gs with
  | [] => []
  | g :: rest => sentence_of n g :: sentences_from (S n) rest
  end.

(** The cut requested for an entry. *)
Definition cut_of (s : sentence) : ffmpeg_cmd :=
  {| ff_input := audio_file_path; ff_start := start_time s;
     ff_duration := (end_time s - start_time s)%float; ff_output := filepath s |}.

(** The state after the cuts of the entries [out]. *)
Fixpoint cut_all (out : list sentence) (st : state) : state :=
  match out with
  | [] => st
  | s :: rest => cut_all rest (after_cut E (cut_of s) st)
  end.
End ClosedForm.

(** The flag [_extract_audio_segment] hands back for an exit code. *)
Definition cut_succeeded (rc : option Z) : bool :=
  match rc with
  | Some 0%Z => true
  | _ => false
  end.

(** The test the scan makes on one record. *)
Definition word_is (v : pyval) (s : pystr) : option bool :=
  w ← py_get v "word" PyNone; Some (py_eq_str w s).

(** The platform [E] with another behaviour of ffmpeg. *)
Definition with_ffmpeg (f : list event -> ffmpeg_cmd -> option Z) (E : Env) : Env := {|
  isalnum := isalnum E;
  float_of_str := float_of_str E;
  realpath := realpath E;
  subprocess_run := f;
  ffmpeg_left_output := ffmpeg_left_output E;
  open_rb_ok := open_rb_ok E;
  replicate_run := replicate_run E;
  json_dump := json_dump E;
  csv_open_ok := csv_open_ok E;
  csv_writerow_ok := csv_writerow_ok E;
  read_text := read_text E;
  listdir := listdir E;
  isdir := isdir E;
|}.

Definition is_cut (e : event) : Prop :=
  match e with EvFfmpeg _ _ => True | _ => False end.

Definition is_row (e : event) : Prop :=
  match e with EvWriteRow _ => True | _ => False end.

(** The rows written by a run of events. *)
Fixpoint rows_of (evs : list event) : list (pystr * pystr) :=
  match evs with
  | [] => []
  | EvWriteRow r :: rest => r :: rows_of rest
  | _ :: rest => rows_of rest
  end.

(** [st'] comes after [st] by events that satisfy [Q]: no path was lost,
    and the manifest grew by the rows written. *)
Definition extends (Q : event -> Prop) (st st' : state) : Prop :=
  present st ⊆ present st'
  /\ exists evs, trace st' = trace st ++ evs /\ Forall Q evs
                /\ manifest st' = manifest st ++ rows_of evs.

(** [st'] comes after [st] by events, and every path that appeared is the
    output file of a run of ffmpeg among them. *)
Definition cuts_leave (E : Env) (st st' : state) : Prop :=
  exists evs, trace st' = trace st ++ evs
    /\ forall p, p ∈ present st' ->
         p ∈ present st
         \/ exists cmd rc, EvFfmpeg cmd rc ∈ evs /\ p = realpath E (ff_output cmd).

(** Every run of [m] relates its final state to its initial one by [R]. *)
Definition run_rel {A} (R : state -> state -> Prop) (m : M A) : Prop :=
  forall st, R st (snd (m st)).

(** [m] never raises. *)
Definition never_raises {A} (m : M A) : Prop :=
  forall st, is_Some (fst (m st)).

(** [m] and [m'] yield the same value (or both raise), whatever the states
    they start from. *)
Definition same_value {A} (m m' : M A) : Prop :=
  forall st st', fst (m st) = fst (m' st').

(** The row of an entry. *)
Definition row_of (s : sentence) : pystr * pystr := (filename s, transcript s).

Definition cut_or_row (e : event) : Prop := is_cut e \/ is_row e.

(** The path [segment_audio_file] writes the response to. *)
Definition alignment_file_of (audio_path : pystr) : pystr :=
  path_join (dirname audio_path) (basename audio_path ++ py "_alignment.json").

(** ffmpeg exits with 1 and the manifest cannot be opened. *)
Definition broken_env (resp : option response) : Env := {|
  isalnum := ascii_isalnum;
  float_of_str := fun _ => None;
  realpath := fun p => p;
  subprocess_run := fun _ _ => Some 1%Z;
  ffmpeg_left_output := fun _ _ => false;
  open_rb_ok := fun _ _ => true;
  replicate_run := fun _ _ _ => resp;
  json_dump := fun _ _ => DumpOk;
  csv_open_ok := fun _ => false;
  csv_writerow_ok := fun _ _ => true;
  read_text := fun _ _ => None;
  listdir := fun _ => None;
  isdir := fun _ => false;
|}.

(** The response of the aligner for the one word "Hola." and the marker. *)
Definition hola_response : response :=
  RespJson (PyDict {[ "wordstamps" :=
    PyList (map word_record
      [ tw (py "Hola.") 0%float 1%float; tw (py "Generalitat") 1%float 2%float;
        tw (py "de") 2%float 3%float; tw (py "Catalunya") 3%float 4%float ]) ]}).

(** The transcript of a call, as the caller gives it: the text, when there
    is one and it is not empty; else the content of the file at the path,
    when the path is given, is not empty and names a file that exists and
    can be read. *)
Inductive transcript_given (E : Env) (transcript_text transcript_path : option pystr)
    (st : state) (raw : pystr) : Prop :=
| GivenText :
    transcript_text = Some raw -> raw <> [] ->
    transcript_given E transcript_text transcript_path st raw
| GivenFile p :
    transcript_text = None \/ transcript_text = Some [] ->
    transcript_path = Some p -> p <> [] ->
    path_exists E p st = true -> read_text E (trace st) p = Some raw ->
    transcript_given E transcript_text transcript_path st raw.

(** No transcript: no text, and no path of a file that exists. *)
Definition transcript_missing (E : Env) (transcript_text transcript_path : option pystr)
    (st : state) : Prop :=
  (transcript_text = None \/ transcript_text = Some [])
  /\ (transcript_path = None \/ transcript_path = Some []
      \/ exists p, transcript_path = Some p /\ path_exists E p st = false).

(** No text, and a transcript file that is there and cannot be read. *)
Definition transcript_unreadable (E : Env) (transcript_text transcript_path : option pystr)
    (st : state) : Prop :=
  (transcript_text = None \/ transcript_text = Some [])
  /\ exists p, transcript_path = Some p /\ p <> [] /\ path_exists E p st = true
               /\ read_text E (trace st) p = None.

(** The audio file is there and can be opened. *)
Definition audio_opens (E : Env) (audio_path : pystr) (st : state) : Prop :=
  path_exists E audio_path st = true /\ open_rb_ok E (trace st) audio_path = true.

(** The text sent to the aligner for a raw transcript. *)
Definition aligned_text (raw : pystr) : pystr :=
  clean_transcript raw ++ py " Generalitat de Catalunya".

(** A value that has a length: a string, a list, a mapping. *)
Definition has_len (v : pyval) : Prop :=
  match v with
  | PyStr _ | PyList _ | PyDict _ => True
  | PyNone | PyBool _ | PyInt _ | PyFloat _ => False
  end.

(** The shapes of a response that are accepted, with the word stamps each
    holds: a mapping with a value that has a length under "wordstamps", or
    a list. *)
Inductive accepted_shape : response -> pyval -> Prop :=
| ShapeWrapped d words :
    d !! "wordstamps" = Some words -> has_len words ->
    accepted_shape (RespJson (PyDict d)) words
| ShapeBare l : accepted_shape (RespJson (PyList l)) (PyList l).

(** The ways an item fails: no transcript; a transcript file that cannot
    be read; an audio file that cannot be opened; a call of the aligner
    that raises; a response of a shape that is not accepted; a dump of the
    response that raises. *)
Inductive item_failure (E : Env) (audio_path : pystr)
    (transcript_text transcript_path : option pystr) (st : state) : Prop :=
| MissingTranscript :
    transcript_missing E transcript_text transcript_path st ->
    item_failure E audio_path transcript_text transcript_path st
| UnreadableTranscript :
    transcript_unreadable E transcript_text transcript_path st ->
    item_failure E audio_path transcript_text transcript_path st
| AudioUnreadable raw :
    transcript_given E transcript_text transcript_path st raw ->
    path_exists E audio_path st = false \/ open_rb_ok E (trace st) audio_path = false ->
    item_failure E audio_path transcript_text transcript_path st
| ServiceError raw :
    transcript_given E transcript_text transcript_path st raw ->
    audio_opens E audio_path st ->
    replicate_run E (trace st) audio_path (aligned_text raw) = None ->
    item_failure E audio_path transcript_text transcript_path st
| FormatError raw resp :
    transcript_given E transcript_text transcript_path st raw ->
    audio_opens E audio_path st ->
    replicate_run E (trace st) audio_path (aligned_text raw) = Some resp ->
    (forall words, ~ accepted_shape resp words) ->
    item_failure E audio_path transcript_text transcript_path st
| DumpError raw resp words :
    transcript_given E transcript_text transcript_path st raw ->
    audio_opens E audio_path st ->
    replicate_run E (trace st) audio_path (aligned_text raw) = Some resp ->
    accepted_shape resp words ->
    json_dump E (trace st ++ [EvReplicate audio_path (aligned_text raw)])
      (alignment_file_of audio_path) <> DumpOk ->
    item_failure E audio_path transcript_text transcript_path st.

(** A corpus with one level and two topics, each with a transcript, a slow
    and a rapid audio file; the aligner raises on the audio of the first
    topic and answers on the other. *)
Definition walk_listdir (p : pystr) : option (list pystr) :=
  if bool_decide (p = py "data") then Some [py "b1"]
  else if bool_decide (p = py "data/b1") then Some [py "t1"; py "t2"]
  else if bool_decide (p = py "data/b1/t1")
       then Some [py "t1.txt"; py "t1_lent.mp3"; py "t1_rapid.mp3"]
  else if bool_decide (p = py "data/b1/t2")
       then Some [py "t2.txt"; py "t2_lent.mp3"; py "t2_rapid.mp3"]
  else None.

Definition walk_env : Env := {|
  isalnum := ascii_isalnum;
  float_of_str := fun _ => None;
  realpath := fun p => p;
  subprocess_run := fun _ _ => Some 0%Z;
  ffmpeg_left_output := fun _ _ => false;
  open_rb_ok := fun _ _ => true;
  replicate_run := fun _ audio_path _ =>
    if bool_decide (audio_path = py "data/b1/t1/t1_rapid.mp3") then None
    else Some hola_response;
  json_dump := fun _ _ => DumpOk;
  csv_open_ok := fun _ => true;
  csv_writerow_ok := fun _ _ => true;
  read_text := fun _ _ => Some (py "Hola.");
  listdir := walk_listdir;
  isdir := fun p => bool_decide (is_Some (walk_listdir p));
|}.

Definition walk_segmenter : segmenter := {|
  data_dir := py "data";
  audio_output_dir := py "corpus/audio";
  csv_output_file := py "corpus/segments.csv";
|}.

(** The files of the corpus of [walk_env]. *)
Definition walk_state : state := {|
  present := {[ py "data/b1/t1/t1.txt" ]} ∪ {[ py "data/b1/t1/t1_lent.mp3" ]}
             ∪ {[ py "data/b1/t1/t1_rapid.mp3" ]}
             ∪ {[ py "data/b1/t2/t2.txt" ]} ∪ {[ py "data/b1/t2/t2_lent.mp3" ]}
             ∪ {[ py "data/b1/t2/t2_rapid.mp3" ]};
  manifest := [];
  trace := [];
|}.

(** One audio file and nothing else. *)
Definition topic_state : state := {|
  present := {[ py "data/b1/t/topic_rapid.mp3" ]};
  manifest := [];
  trace := [];
|}.

(** A topic of the index under a directory whose name holds "rapid": both
    audio files exist. *)
Definition rapid_dir_entries : list audio_entry :=
  [ AudioPath (py "data/rapid_course/b1/t1/t1_lent.mp3");
    AudioPath (py "data/rapid_course/b1/t1/t1_rapid.mp3") ].

Definition rapid_dir_state : state := {|
  present := {[ py "data/rapid_course/b1/t1/t1_lent.mp3" ]}
             ∪ {[ py "data/rapid_course/b1/t1/t1_rapid.mp3" ]};
  manifest := [];
  trace := [];
|}.

(** A text that does not end with white space. *)
Definition ends_plain (body : pystr) : Prop :=
  match last body with
  | Some c => isspace c = false
  | None => True
  end.

(** Every white space of [l] is a space, and none follows white space;
    [prev] tells that white space precedes [l]. *)
Fixpoint spaced (prev : bool) (l : pystr) : Prop :=
  match l with
  | [] => True
  | c :: r => (isspace c = true -> c = SP /\ prev = false) /\ spaced (isspace c) r
  end.


(** ** The index [master_data.json] and the entry point

    The index is read as far as the walker looks into it.  Its texts and
    paths are strings, or [None] for a JSON null or a missing key. *)

(** The "transcript" of a topic: a mapping with "content"; a mapping
    without "content" and with "path"; anything else (no such key, a value
    that is no mapping, a mapping with neither key). *)
Inductive transcript_entry :=
| TranscriptContent (content : option pystr)
| TranscriptPath (path : option pystr)
| TranscriptAbsent.

(** An element of the list of topics: a mapping, by what [.get("path")]
    and [.get("topic")] yield, its "transcript" and its "audio_files" when
    these are a list; or a value that is no mapping. *)
Inductive topic_entry :=
| TopicDict (path topic : option pystr) (transcript : transcript_entry)
    (audio_files : option (list audio_entry))
| TopicOther.

(** The value of a level: a mapping with a list under "topics", or a
    list; a value the walker passes over (a mapping without a list under
    "topics", a string without "topics" in it); or a value on which the
    test for "topics" or the subscript that follows it raises (null, a
    boolean, a number; a list that holds the string "topics", a string
    that contains it). *)
Inductive level_entry :=
| LevelTopics (topics_list : list topic_entry)
| LevelUnexpected
| LevelInvalid.

(** The value under "levels": a mapping, by its items in their order, or
    a value that is no mapping. *)
Inductive levels_entry :=
| LevelsDict (items : list (pystr * level_entry))
| LevelsOther.

(** The document: a mapping, by its value under "levels" when it has the
    key and by whether it has other keys; a value that is false (null,
    false, 0, an empty string or list); any other value. *)
Inductive master_entry :=
| MasterDict (levels : option levels_entry) (other_keys : bool)
| MasterFalsy
| MasterOther.

(** [bool(v)] for a string or [None] *)
Definition str_truthy (v : option pystr) : bool :=
  match v with
  | Some (_ :: _) => true
  | _ => false
  end.

(** What the entry point and the script ask of the platform besides
    [Env]. *)
Record Host := {
  (** [json.load] of the file at a path; [None] when opening or decoding
      raises *)
  json_load : list event -> pystr -> option master_entry;
  (** the exit code of [ffmpeg -version]; [None] when [subprocess.run]
      raises *)
  ffmpeg_version : option Z;
  (** "REPLICATE_API_TOKEN" is in the environment *)
  has_api_token : bool;
  (** [os.makedirs(path, exist_ok=True)] does not raise *)
  makedirs_ok : list event -> pystr -> bool;
  (** creating the manifest and writing its header *)
  manifest_create : list event -> pystr -> dump_outcome;
  (** [logging.FileHandler(path)] does not raise *)
  log_handler_ok : list event -> pystr -> bool;
}.

(** [bool(master_data)] *)
Definition master_truthy (master_data : master_entry) : bool :=
  match master_data with
  | MasterDict levels other_keys => bool_decide (is_Some levels) || other_keys
  | MasterFalsy => false
  | MasterOther => true
  end.

(** [open(path, 'w')]: the file is there and empty. *)
Definition truncate_manifest (E : Env) (p : pystr) (st : state) : state :=
  {| present := {[ realpath E p ]} ∪ present st; manifest := []; trace := trace st |}.

Section Index.
Variable H : Host.
Variable E : Env.
Variable self : segmenter.

Definition _load_master_data : M (option master_entry) :=
  let master_data_path := path_join (data_dir self) (py "master_data.json") in
  fun st =>
    if path_exists E master_data_path st then
      try_except
        (tr <- get_trace ;;
         master_data <- lift (json_load H tr master_data_path) ;;
         ret (Some master_data))
        (ret None) st
    else ret None st.

(** [not transcript_text and (not transcript_path or not os.path.exists(transcript_path))] *)
Definition lacks_transcript (transcript_text transcript_path : option pystr)
    (st : state) : bool :=
  negb (str_truthy transcript_text)
  && (negb (str_truthy transcript_path)
      || negb (path_exists E (default [] transcript_path) st)).

(** The body of the loop over the topics of a level of the index. *)
Definition master_topic (limit_to_one : bool) (level_code : pystr)
    (topic_data : topic_entry) (processed_count : nat) : M (nat * bool) :=
  match topic_data with
  | TopicOther => ret (processed_count, false)
  | TopicDict topic_dir topic_name transcript_field audio_files_field =>
      if negb (str_truthy topic_dir) || negb (str_truthy topic_name)
      then ret (processed_count, false)
      else
        let topic_dir := default [] topic_dir in
        let topic_name := default [] topic_name in
        fun st =>
          if negb (path_exists E topic_dir st) then ret (processed_count, false) st
          else
            let transcript_text :=
              match transcript_field with
              | TranscriptContent content => content
              | _ => None
              end in
            let transcript_path :=
              match transcript_field with
              | TranscriptPath path => path
              | _ => None
              end in
            (transcript_path <-
               (fun st =>
                  if lacks_transcript transcript_text transcript_path st then
                    (listing <- lift (listdir E topic_dir) ;;
                     let transcript_files :=
                       filter (fun f => endswith f (py ".txt") = true) listing in
                     match transcript_files with
                     | f :: _ => ret (Some (path_join topic_dir f))
                     | [] => ret transcript_path
                     end) st
                  else ret transcript_path st) ;;
             fun st =>
               if lacks_transcript transcript_text transcript_path st
               then ret (processed_count, false) st
               else
                 (audio_files <- master_audio_files E audio_files_field topic_dir ;;
                  match audio_files with
                  | [] => ret (processed_count, false)
                  | _ :: _ =>
                      master_audio_loop E self limit_to_one transcript_text transcript_path
                        level_code topic_name audio_files processed_count
                  end) st) st
  end.

Fixpoint master_topics (limit_to_one : bool) (level_code : pystr)
    (topics_list : list topic_entry) (processed_count : nat) : M (nat * bool) :=
  match topics_list with
  | [] => ret (processed_count, false)
  | topic_data :: rest =>
      r <- master_topic limit_to_one level_code topic_data processed_count ;;
      let '(processed_count, returned) := r in
      if returned then ret (processed_count, true)
      else master_topics limit_to_one level_code rest processed_count
  end.

Definition master_level (limit_to_one : bool) (level_code : pystr)
    (level_data : level_entry) (processed_count : nat) : M (nat * bool) :=
  match level_data with
  | LevelTopics topics_list =>
      master_topics limit_to_one level_code topics_list processed_count
  | LevelUnexpected => ret (processed_count, false)
  | LevelInvalid => raise
  end.

Fixpoint master_levels (limit_to_one : bool) (items : list (pystr * level_entry))
    (processed_count : nat) : M (nat * bool) :=
  match items with
  | [] => ret (processed_count, false)
  | (level_code, level_data) :: rest =>
      r <- master_level limit_to_one level_code level_data processed_count ;;
      let '(processed_count, returned) := r in
      if returned then ret (processed_count, true)
      else master_levels limit_to_one rest processed_count
  end.

(** [_process_from_master_data] on a mapping, by its value under
    "levels". *)
Definition _process_from_master_data (levels : option levels_entry)
    (limit_to_one : bool) : M nat :=
  match levels with
  | None => _process_directory_scan E self limit_to_one
  | Some LevelsOther => raise
  | Some (LevelsDict items) =>
      r <- master_levels limit_to_one items 0%nat ;;
      ret (fst r)
  end.

Definition process_directory (limit_to_one : bool) : M nat :=
  try_except
    (master_data <- _load_master_data ;;
     if match master_data with
        | Some md => master_truthy md
        | None => false
        end
     then
       match master_data with
       | Some (MasterDict levels _) =>
           match levels with
           | Some LevelsOther => raise
           | _ => _process_from_master_data levels limit_to_one
           end
       | _ => raise
       end
     else _process_directory_scan E self limit_to_one)
    (ret 0%nat).
End Index.

(** ** The script [segmenter_main.py] *)

(** The parsed command line. *)
Record arguments := {
  arg_data_dir : pystr;
  arg_output_dir : pystr;
  arg_process_one : bool;
  arg_specific_file : option pystr;
  arg_transcript_file : option pystr;
  arg_level : option pystr;
  arg_topic : option pystr;
}.

(** What [parser.parse_args()] makes of the command line: the arguments;
    the exit of the process with status 2 after an error of usage; its exit
    with status 0 after [--help]. *)
Inductive parse_outcome :=
| Parsed (args : arguments)
| UsageError
| HelpShown.

Section Script.
Variable H : Host.
Variable E : Env.

Definition check_ffmpeg : bool :=
  match ffmpeg_version H with
  | Some returncode => (returncode =? 0)%Z
  | None => false
  end.

Definition check_replicate_api : bool := has_api_token H.

Definition makedirs (p : pystr) : M unit :=
  tr <- get_trace ;;
  if makedirs_ok H tr p then modify (create_file E p) else raise.

(** [GencatSegmenter.__init__] *)
Definition init_segmenter (data_dir output_dir : pystr) : M segmenter :=
  let self := {| data_dir := data_dir;
                 audio_output_dir := path_join output_dir (py "audio");
                 csv_output_file := path_join output_dir (py "segments.csv") |} in
  let log_file := path_join output_dir (py "segmentation.log") in
  makedirs output_dir ;;;
  makedirs (audio_output_dir self) ;;;
  (fun st =>
     if negb (path_exists E (csv_output_file self) st) then
       (tr <- get_trace ;;
        match manifest_create H tr (csv_output_file self) with
        | DumpOk => modify (truncate_manifest E (csv_output_file self))
        | DumpOpenRaises => raise
        | DumpWriteRaises => modify (truncate_manifest E (csv_output_file self)) ;;; raise
        end) st
     else ret tt st) ;;;
  (tr <- get_trace ;;
   if log_handler_ok H tr log_file then modify (create_file E log_file) else raise) ;;;
  ret self.

(** [sys.exit(main())]: the exit status of the script, in a run that no
    interrupt from the keyboard reaches.  The exit of [parse_args] ends the
    script with its status. *)
Definition main (parsed : parse_outcome) : M Z :=
  match parsed with
  | UsageError => ret 2%Z
  | HelpShown => ret 0%Z
  | Parsed args =>
  if negb check_ffmpeg then ret 1%Z
  else if negb check_replicate_api then ret 1%Z
  else
    try_except
      (segmenter <- init_segmenter (arg_data_dir args) (arg_output_dir args) ;;
       if str_truthy (arg_specific_file args) then
         let specific_file := default [] (arg_specific_file args) in
         fun st =>
           if negb (path_exists E specific_file st) then ret 1%Z st
           else if negb (str_truthy (arg_transcript_file args))
                   || negb (path_exists E (default [] (arg_transcript_file args)) st)
           then ret 1%Z st
           else if negb (str_truthy (arg_level args)) then ret 1%Z st
           else if negb (str_truthy (arg_topic args)) then ret 1%Z st
           else
             (success <- segment_audio_file E segmenter specific_file
                           (arg_transcript_file args) (arg_level args)
                           (default [] (arg_topic args)) (py "unknown") ;;
              if success then ret 0%Z else ret 1%Z) st
       else
         processed_count <- process_directory H E segmenter (arg_process_one args) ;;
         if (0 <? processed_count)%nat then ret 0%Z else ret 1%Z)
      (ret 1%Z)
  end.
End Script.

(** ** Notions used to state the further properties *)

(** The alignment dumps that succeeded, counted. *)
Fixpoint count_ok (evs : list event) : nat :=
  match evs with
  | [] => 0
  | EvDump _ DumpOk :: rest => S (count_ok rest)
  | _ :: rest => count_ok rest
  end.

(** The audio files handed to the aligner, in order. *)
Fixpoint replicated (evs : list event) : list pystr :=
  match evs with
  | [] => []
  | EvReplicate audio_path _ :: rest => audio_path :: replicated rest
  | _ :: rest => replicated rest
  end.

(** No call of the aligner follows a dump that succeeded. *)
Definition quiet_after_ok (evs : list event) : Prop :=
  forall l1 f l2, evs = l1 ++ EvDump f DumpOk :: l2 -> replicated l2 = [].

(** The files that the events of a run may have created: the alignment
    file of an audio file handed to the aligner, the output file of a cut,
    and, in a run with a dump that succeeded, the manifest. *)
Definition created (E : Env) (self : segmenter) (evs : list event) (p : pystr) : Prop :=
  (exists a, a ∈ replicated evs /\ p = realpath E (alignment_file_of a))
  \/ (exists cmd rc, EvFfmpeg cmd rc ∈ evs /\ p = realpath E (ff_output cmd))
  \/ ((0 < count_ok evs)%nat /\ p = realpath E (csv_output_file self)).

(** What a walk from [st] with the count [n] may leave: events [evs]
    after the earlier ones, every earlier file, the rows of [evs] after the
    earlier rows; the aligner was called only on audio files without a
    marker in [st]; the files that appeared were created by the events; the
    result, when there is one, is the count raised by the dumps that
    succeeded, and the flag tells that the walk stopped after one of them
    at the caller's request. *)
Definition walk_post (E : Env) (self : segmenter) (limit_to_one : bool) (n : nat)
    (st : state) (res : option (nat * bool)) (st' : state) (evs : list event) : Prop :=
  trace st' = trace st ++ evs
  /\ present st ⊆ present st'
  /\ manifest st' = manifest st ++ rows_of evs
  /\ Forall (fun a => path_exists E (marker_of a) st = false) (replicated evs)
  /\ (forall p, p ∈ present st' -> p ∈ present st \/ created E self evs p)
  /\ (limit_to_one = true ->
      quiet_after_ok evs /\ (res = None -> count_ok evs = 0%nat))
  /\ forall n' r, res = Some (n', r) ->
       n' = (n + count_ok evs)%nat
       /\ (r = true -> limit_to_one = true /\ count_ok evs = 1%nat)
       /\ (r = false -> limit_to_one = true -> count_ok evs = 0%nat).

(** Every run of [m] is such a walk. *)
Definition walks (E : Env) (self : segmenter) (limit_to_one : bool) (n : nat)
    (m : M (nat * bool)) : Prop :=
  forall st, exists evs, walk_post E self limit_to_one n st (fst (m st)) (snd (m st)) evs.

(** What a run that hands back a count may leave. *)
Definition run_post (E : Env) (self : segmenter) (limit_to_one : bool) (st : state)
    (res : option nat) (st' : state) (evs : list event) : Prop :=
  trace st' = trace st ++ evs
  /\ present st ⊆ present st'
  /\ manifest st' = manifest st ++ rows_of evs
  /\ Forall (fun a => path_exists E (marker_of a) st = false) (replicated evs)
  /\ (forall p, p ∈ present st' -> p ∈ present st \/ created E self evs p)
  /\ (limit_to_one = true -> (count_ok evs <= 1)%nat /\ quiet_after_ok evs)
  /\ forall n, res = Some n -> n = count_ok evs.

(** The name of the clip of the [k]-th entry (from 1) of an audio file. *)
Definition clip_name (E : Env) (level topic : pystr) (k : nat) : pystr :=
  level ++ py "_" ++ sanitize_topic E topic ++ py "_sentence" ++ str_of_nat k ++ py ".mp3".

(** A text that ends with a full stop, an exclamation mark or a question
    mark. *)
Definition ends_with_mark (s : pystr) : Prop :=
  exists body c, s = body ++ [c] /\ (c = DOT \/ c = BANG \/ c = QUERY).

(** An entry made from the text [ct] when [n] entries precede it. *)
Definition entry_at (E : Env) (self : segmenter) (level topic : pystr)
    (n : nat) (ct : pystr) (e : sentence) : Prop :=
  filename e = clip_name E level topic (n + 1)
  /\ filepath e = path_join (audio_output_dir self) (filename e)
  /\ transcript e = strip ct.

(** The entries [extra] follow [n] earlier ones: their names, their paths,
    their trimmed texts. *)
Definition entries_from (E : Env) (self : segmenter) (level topic : pystr)
    (n : nat) (extra : list sentence) : Prop :=
  forall k e, extra !! k = Some e ->
    filename e = clip_name E level topic (n + k + 1)
    /\ filepath e = path_join (audio_output_dir self) (filename e)
    /\ strip (transcript e) = transcript e.

(** A record whose word is a number, after one sentence. *)
Definition hola_then_number : list pyval :=
  [ PyDict {[ "word" := PyStr (py "Hola.") ]}; PyDict {[ "word" := PyInt 5 ]} ].

(** ** A sample index *)

(** The corpus of [walk_env] with its index file and the directory of its
    second topic. *)
Definition index_state : state := {|
  present := {[ py "data/master_data.json" ]} ∪ {[ py "data/b1/t2" ]}
             ∪ {[ py "data/b1/t2/t2.txt" ]} ∪ {[ py "data/b1/t2/t2_lent.mp3" ]}
             ∪ {[ py "data/b1/t2/t2_rapid.mp3" ]};
  manifest := [];
  trace := [];
|}.

(** An index whose first level holds the second topic of the corpus and
    whose second level is null. *)
Definition broken_index : master_entry :=
  MasterDict
    (Some (LevelsDict
       [ (py "b1", LevelTopics [TopicDict (Some (py "data/b1/t2")) (Some (py "t2"))
                                  TranscriptAbsent None]);
         (py "b2", LevelInvalid) ]))
    true.

(** ffmpeg and the token are there, and nothing fails; the index is
    [index]. *)
Definition sample_host (index : option master_entry) : Host := {|
  json_load := fun _ _ => index;
  ffmpeg_version := Some 0%Z;
  has_api_token := true;
  makedirs_ok := fun _ _ => true;
  manifest_create := fun _ _ => DumpOk;
  log_handler_ok := fun _ _ => true;
|}.

(** The command line
    [--specific-file a.mp3 --transcript-file a.txt --level b1 --topic salut]. *)
Definition specific_arguments : arguments := {|
  arg_data_dir := py "data";
  arg_output_dir := py "corpus";
  arg_process_one := false;
  arg_specific_file := Some (py "a.mp3");
  arg_transcript_file := Some (py "a.txt");
  arg_level := Some (py "b1");
  arg_topic := Some (py "salut");
|}.

Definition specific_state : state := {|
  present := {[ py "a.mp3" ]} ∪ {[ py "a.txt" ]};
  manifest := [];
  trace := [];
|}.

(** A topic of the index with its transcript under "content" and, beside
    it, a transcript file that holds another text. *)
Definition content_topic : topic_entry :=
  TopicDict (Some (py "data/b1/t2")) (Some (py "t2"))
    (TranscriptContent (Some (py "Bon dia."))) None.

(** A response whose second record holds a number as its word. *)
Definition number_response : response := RespJson (PyList hola_then_number).

(** The corpus of [walk_env] when the directory of its first topic cannot
    be listed; the aligner answers on every audio file. *)
Definition locked_env : Env := {|
  isalnum := ascii_isalnum;
  float_of_str := fun _ => None;
  realpath := fun p => p;
  subprocess_run := fun _ _ => Some 0%Z;
  ffmpeg_left_output := fun _ _ => false;
  open_rb_ok := fun _ _ => true;
  replicate_run := fun _ _ _ => Some hola_response;
  json_dump := fun _ _ => DumpOk;
  csv_open_ok := fun _ => true;
  csv_writerow_ok := fun _ _ => true;
  read_text := fun _ _ => Some (py "Hola.");
  listdir := fun p => if bool_decide (p = py "data/b1/t1") then None else walk_listdir p;
  isdir := fun p => bool_decide (is_Some (walk_listdir p));
|}.

(** ** Notions used to state what the substitutions remove *)

(** A label of a pattern read in a text: the characters match one by one
    (under [re.IGNORECASE] when [ci]). *)
Definition spells (ci : bool) (label l : pystr) : Prop :=
  Forall2 (fun a c => char_match ci a c = true) label l.

(** The text [t] ends with a label line: it is [a], a line feed, white
    space [w] (none unless [ws]), the label, the rest [u] of the line, and
    [e], which is empty or one last line feed.  When white space may
    precede the label, [a] does not end with a line feed followed by white
    space only: the line feed after [a] is the first of the white space
    before the label. *)
Definition ends_with_label_line (ws ci : bool) (label t a e : pystr) : Prop :=
  exists w l u,
    t = a ++ NL :: w ++ l ++ u ++ e
    /\ Forall (fun c => isspace c = true) w /\ (ws = false -> w = [])
    /\ spells ci label l
    /\ (NL ∉ u)
    /\ (e = [] \/ e = [NL])
    /\ forall a' w',
         a = a' ++ NL :: w' -> Forall (fun c => isspace c = true) w' -> ws = false.

(** [t'] is [t] without the label line it ends with, or [t] itself when it
    ends with none. *)
Definition removes_label_line (ws ci : bool) (label t t' : pystr) : Prop :=
  (exists a e, ends_with_label_line ws ci label t a e /\ t' = a ++ e)
  \/ ((forall a e, ~ ends_with_label_line ws ci label t a e) /\ t' = t).

(** ** Segmentation as the specification describes it *)

Record span := {
  span_text : pystr;
  span_start : float;
  span_end : float;
}.

(** The last character is a full stop, an exclamation mark or a question
    mark. *)
Definition ends_mark (s : pystr) : bool :=
  match last s with
  | Some c => (c =? DOT) || (c =? BANG) || (c =? QUERY)
  | None => false
  end.

(** The words in runs, each run closed by a word that ends with a mark;
    the words left at the end make a last run.  [cur] is the run being
    read. *)
Fixpoint runs_of (cur : list timed_word) (ws : list timed_word)
    : list (list timed_word) :=
  match ws with
  | [] => match cur with [] => [] | _ :: _ => [cur] end
  | w :: rest =>
      if ends_mark (text w) then (cur ++ [w]) :: runs_of [] rest
      else runs_of (cur ++ [w]) rest
  end.

(** The span of a run: from the start of its first word to the end of its
    last, with the texts of its words, each followed by a space,
    concatenated and trimmed. *)
Definition span_of_run (g : list timed_word) : span :=
  {| span_text := strip (concat (map (fun w => text w ++ [SP]) g));
     span_start := match head g with Some w => start_seconds w | None => 0%float end;
     span_end := match last g with Some w => end_seconds w | None => 0%float end |}.

(** [segment] of the specification: the spans of the words before the
    marker triple. *)
Definition spec_segment (ws : list timed_word) : list span :=
  map span_of_run (runs_of [] (before_marker ws)).



(** The timed word a record stands for when the empty text is taken for
    a missing "word" and 0 for a missing "start" or "end". *)
Definition word_of_record (E : Env) (v : pyval) : timed_word :=
  match v with
  | PyDict d =>
      {| text := match d !! "word" with Some (PyStr s) => s | _ => [] end;
         start_seconds := match d !! "start" with
                          | Some x => default 0%float (py_float E x)
                          | None => 0%float
                          end;
         end_seconds := match d !! "end" with
                        | Some x => default 0%float (py_float E x)
                        | None => 0%float
                        end |}
  | _ => {| text := []; start_seconds := 0%float; end_seconds := 0%float |}
  end.


(** * Properties *)

Arguments py : simpl never.
Arguments str_of_nat : simpl never.
Arguments path_join : simpl never.
Arguments strip : simpl never.
Arguments sanitize_topic : simpl never.
Arguments PrimFloat.sub : simpl never.

(** ** The monad *)

Ltac unfold_m :=
  unfold bind, lift, ret, raise, modify, get_trace, try_except in *.

Lemma bind_some {A B} (m : M A) (k : A -> M B) st a st' :
  m st = (Some a, st') -> bind m k st = k a st'.
Proof. intros H. unfold bind. by rewrite H. Qed.

Lemma bind_none {A B} (m : M A) (k : A -> M B) st st' :
  m st = (None, st') -> bind m k st = (None, st').
Proof. intros H. unfold bind. by rewrite H. Qed.

(** ** The cut *)


(** The cut never raises; it hands back a flag and leaves its event and,
    when ffmpeg wrote it, the output file. *)
Lemma extract_audio_segment_run E i o s d st :
  let cmd := {| ff_input := i; ff_start := s; ff_duration := d; ff_output := o |} in
  _extract_audio_segment E i o s d st =
    (Some (cut_succeeded (subprocess_run E (trace st) cmd)), after_cut E cmd st).
Proof.
  intros cmd. unfold _extract_audio_segment, run_ffmpeg, after_cut, cut_writes.
  unfold_m. simpl. fold cmd.
  destruct (subprocess_run E (trace st) cmd) as [rc|]; simpl; [|done].
  destruct (rc =? 0)%Z eqn:Hrc; simpl.
  - apply Z.eqb_eq in Hrc. by subst rc.
  - destruct (ffmpeg_left_output E (trace st) cmd); simpl; by destruct rc.
Qed.

Lemma after_cut_trace E cmd st :
  trace (after_cut E cmd st)
  = trace st ++ [EvFfmpeg cmd (subprocess_run E (trace st) cmd)].
Proof. unfold after_cut. by destruct (cut_writes E (trace st) cmd). Qed.

Lemma after_cut_manifest E cmd st : manifest (after_cut E cmd st) = manifest st.
Proof. unfold after_cut. by destruct (cut_writes E (trace st) cmd). Qed.

Lemma after_cut_present E cmd st :
  present st ⊆ present (after_cut E cmd st)
  /\ present (after_cut E cmd st) ⊆ {[ realpath E (ff_output cmd) ]} ∪ present st.
Proof.
  unfold after_cut. destruct (cut_writes E (trace st) cmd); cbn.
  - split; [apply union_subseteq_r|done].
  - split; [done|apply union_subseteq_r].
Qed.

(** ** The loop in closed form *)

Section LoopFacts.
Variable E : Env.
Variable self : segmenter.
Variables audio_file_path level topic : pystr.

Local Abbreviation emit := (emit_sentence E self audio_file_path level topic).
Local Abbreviation step := (segment_step E self audio_file_path level topic).
Local Abbreviation loop := (segment_loop E self audio_file_path level topic).
Local Abbreviation sent := (sentence_of E self level topic).
Local Abbreviation sents := (sentences_from E self level topic).
Local Abbreviation cuts := (cut_all E audio_file_path).

Lemma partial_record_text v :
  partial_record E v -> py_get v "word" (PyStr []) ≫= str_of_word = Some (word_text v).
Proof. intros [[s Hs] _]. unfold word_text. by rewrite Hs. Qed.

Lemma partial_record_time v key :
  is_Some (py_get v key (PyInt 0) ≫= py_float E) ->
  py_get v key (PyInt 0) ≫= py_float E = Some (word_time E key v).
Proof. intros [f Hf]. unfold word_time. by rewrite Hf. Qed.

Lemma emit_partial s cs st :
  cs ≠ [] -> Forall (partial_record E) cs ->
  emit s cs (texts_of cs) st =
    (Some (s ++ [sent (length s) cs]), cuts [sent (length s) cs] st).
Proof.
  intros Hne Hall.
  destruct (head cs) as [first|] eqn:Hfirst; [|by destruct cs].
  destruct (last cs) as [lastw|] eqn:Hlast;
    [|by apply last_None in Hlast].
  assert (Hf : partial_record E first).
  { rewrite Forall_forall in Hall. apply Hall.
    destruct cs; simplify_eq/=. apply list_elem_of_here. }
  assert (Hl : partial_record E lastw).
  { rewrite Forall_forall in Hall. apply Hall.
    apply last_Some in Hlast as [l' ->]. apply elem_of_app. right. apply list_elem_of_here. }
  unfold partial_record in Hf, Hl. destruct Hf as (_ & Hfs & _). destruct Hl as (_ & _ & Hle).
  apply partial_record_time in Hfs, Hle.
  destruct (py_get first "start" (PyInt 0)) as [sv|] eqn:Hsv; [|done].
  destruct (py_get lastw "end" (PyInt 0)) as [ev|] eqn:Hev; [|done].
  cbn in Hfs, Hle.
  unfold emit_sentence.
  rewrite Hfirst, Hlast. unfold_m. cbn.
  rewrite Hsv, Hfs, Hev, Hle.
  rewrite extract_audio_segment_run. cbn.
  unfold sentence_of, cut_of. cbn.
  rewrite Hfirst, Hlast. cbn.
  done.
Qed.

Lemma texts_of_snoc cs w : texts_of (cs ++ [w]) = texts_of cs ++ word_text w ++ [SP].
Proof.
  unfold texts_of. rewrite map_app, concat_app. cbn. by rewrite app_nil_r.
Qed.

(** The loop on records that are well formed. *)
Lemma segment_loop_partial l : forall s cs st,
  Forall (partial_record E) l -> Forall (partial_record E) cs ->
  loop (s, cs, texts_of cs) l st =
    (Some (s ++ sents (length s) (split_words cs l).1,
           (split_words cs l).2, texts_of (split_words cs l).2),
     cuts (sents (length s) (split_words cs l).1) st).
Proof.
  induction l as [|w l IH]; intros s cs st Hl Hcs.
  - cbn. by rewrite app_nil_r.
  - apply Forall_cons in Hl as [Hw Hl].
    pose proof (partial_record_text w Hw) as Htext.
    cbn [segment_loop segment_step split_words].
    destruct (py_get w "word" (PyStr [])) as [wv|] eqn:Hwv; [|done].
    cbn in Htext.
    assert (Hcs' : Forall (partial_record E) (cs ++ [w])).
    { apply Forall_app. split; [done|]. by apply Forall_cons. }
    unfold bind at 1. unfold bind at 1. unfold lift at 1. unfold bind at 1.
    unfold lift at 1. rewrite Htext.
    rewrite <- texts_of_snoc.
    destruct (ends_sentence (word_text w)) eqn:Hend.
    + unfold bind at 1.
      rewrite emit_partial; [|by destruct cs|done].
      unfold ret at 1.
      change (@nil N) with (texts_of []).
      rewrite IH; [|done|constructor].
      destruct (split_words [] l) as [gs rem] eqn:Hsplit. cbn.
      rewrite length_app. cbn. rewrite Nat.add_1_r.
      by rewrite <- app_assoc.
    + unfold ret at 1. by rewrite IH.
Qed.

Lemma sentences_from_app n gs1 gs2 :
  sents n (gs1 ++ gs2) = sents n gs1 ++ sents (n + length gs1) gs2.
Proof.
  revert n. induction gs1 as [|g gs1 IH]; intros n; cbn.
  - by rewrite Nat.add_0_r.
  - rewrite IH. do 3 f_equal. lia.
Qed.

Lemma sentences_from_length n gs : length (sents n gs) = length gs.
Proof. revert n. induction gs as [|g gs IH]; intros n; cbn; [done|by rewrite IH]. Qed.

Lemma cut_all_app out1 out2 st : cuts (out1 ++ out2) st = cuts out2 (cuts out1 st).
Proof. revert st. induction out1 as [|s out1 IH]; intros st; cbn; [done|by rewrite IH]. Qed.

Lemma split_words_rem (P : pyval -> Prop) l : forall cs,
  Forall P l -> Forall P cs -> Forall P (split_words cs l).2.
Proof.
  induction l as [|w l IH]; intros cs Hl Hcs; cbn; [done|].
  apply Forall_cons in Hl as [Hw Hl].
  destruct (ends_sentence (word_text w)).
  - specialize (IH [] Hl (Forall_nil_2 _)).
    by destruct (split_words [] l).
  - apply IH; [done|]. apply Forall_app. split; [done|]. by apply Forall_cons.
Qed.

(** The loop and the flush on records that are well formed: no
    exception, the entries of the groups, one cut for each. *)
Lemma segment_words_partial l st :
  Forall (partial_record E) l ->
  segment_words E self audio_file_path level topic l st =
    (Some (sents 0 (groups_of l)), cuts (sents 0 (groups_of l)) st).
Proof.
  intros Hl. unfold segment_words.
  pose proof (segment_loop_partial l [] [] st Hl (Forall_nil_2 _)) as Hloop.
  change (texts_of []) with (@nil N) in Hloop.
  erewrite bind_some by exact Hloop.
  pose proof (split_words_rem (partial_record E) l [] Hl (Forall_nil_2 _)) as Hrem.
  unfold groups_of. destruct (split_words [] l) as [gs rem]. cbn in *.
  destruct rem as [|r rem]; [done|].
  rewrite emit_partial; [|done|done].
  rewrite sentences_from_length, sentences_from_app, cut_all_app. done.
Qed.
End LoopFacts.

(** ** Timed words as records *)

Lemma word_record_get_word w dflt :
  py_get (word_record w) "word" dflt = Some (PyStr (text w)).
Proof. unfold word_record, py_get. by rewrite lookup_insert_eq. Qed.

Lemma word_record_get_start w dflt :
  py_get (word_record w) "start" dflt = Some (PyFloat (start_seconds w)).
Proof.
  unfold word_record, py_get.
  rewrite lookup_insert_ne by done. by rewrite lookup_insert_eq.
Qed.

Lemma word_record_get_end w dflt :
  py_get (word_record w) "end" dflt = Some (PyFloat (end_seconds w)).
Proof.
  unfold word_record, py_get.
  do 2 (rewrite lookup_insert_ne by done). by rewrite lookup_insert_eq.
Qed.

Lemma word_record_partial E w : partial_record E (word_record w).
Proof.
  unfold partial_record.
  rewrite word_record_get_word, word_record_get_start, word_record_get_end.
  cbn. eauto.
Qed.

Lemma word_text_record w : word_text (word_record w) = text w.
Proof. unfold word_text. by rewrite word_record_get_word. Qed.

Lemma word_time_start E w : word_time E "start" (word_record w) = start_seconds w.
Proof. unfold word_time. by rewrite word_record_get_start. Qed.

Lemma word_time_end E w : word_time E "end" (word_record w) = end_seconds w.
Proof. unfold word_time. by rewrite word_record_get_end. Qed.

Lemma records_partial E ws : Forall (partial_record E) (map word_record ws).
Proof. apply Forall_map, Forall_forall. intros w _. apply word_record_partial. Qed.

(** The scan of the code finds the first occurrence of the triple. *)
Lemma find_generalitat_records ws : forall k,
  find_generalitat k (map word_record ws) = Some ((fun i => k + i)%nat <$> marker_index ws).
Proof.
  induction ws as [|w ws IH]; intros k; [done|].
  cbn [map find_generalitat].
  rewrite word_record_get_word. cbn [mbind option_bind py_eq_str].
  assert (Hrec : find_generalitat (S k) (map word_record ws)
                 = Some ((fun i => k + i)%nat <$> (S <$> marker_index ws))).
  { rewrite IH. f_equal. destruct (marker_index ws); cbn; [|done]. f_equal. lia. }
  cbn [marker_index].
  destruct ws as [|w1 [|w2 ws]].
  - cbn [marker_here]. cbn [map] in *. by destruct (bool_decide _).
  - cbn [marker_here]. cbn [map] in *. by destruct (bool_decide _).
  - cbn [marker_here]. cbn [map] in Hrec |- *.
    rewrite !word_record_get_word. cbn [mbind option_bind py_eq_str].
    destruct (bool_decide (text w = py "Generalitat")); cbn [andb]; [|done].
    destruct (bool_decide (text w1 = py "de")); cbn [andb]; [|done].
    destruct (bool_decide (text w2 = py "Catalunya")); [|done].
    cbn. do 2 f_equal. lia.
Qed.

Lemma before_marker_take ws :
  before_marker ws = take (default (length ws) (marker_index ws)) ws.
Proof.
  induction ws as [|w ws IH]; [done|].
  cbn [before_marker marker_index].
  destruct (marker_here (w :: ws)); [done|].
  rewrite IH. by destruct (marker_index ws).
Qed.

(** On timed words the function is the loop and the flush over the words
    before the marker. *)
Lemma extract_body_records E self a lv tp ws st :
  extract_body E self a lv tp (PyList (map word_record ws)) st =
    segment_words E self a lv tp (map word_record (before_marker ws)) st.
Proof.
  unfold extract_body.
  erewrite bind_some; last first.
  { unfold lift. by rewrite (find_generalitat_records ws 0). }
  rewrite before_marker_take, length_map.
  replace ((fun i => 0 + i)%nat <$> marker_index ws) with (marker_index ws)
    by (by destruct (marker_index ws)).
  rewrite <- firstn_map.
  by destruct (marker_index ws).
Qed.

Lemma extract_records E self a lv tp ws st :
  _extract_sentences_ffmpeg E self a lv tp (PyList (map word_record ws)) st =
    let out := sentences_from E self lv tp 0
                 (groups_of (map word_record (before_marker ws))) in
    (Some out, cut_all E a out st).
Proof.
  unfold _extract_sentences_ffmpeg, try_except.
  rewrite extract_body_records, segment_words_partial by apply records_partial.
  done.
Qed.

(** ** Boundary splitting and marker exclusion *)

(** C6: on the four timed words Bon (0.0-0.5), dia. (0.5-1.0), Adéu
    (1.0-1.5), amic. (1.5-2.0) the function returns exactly two entries,
    "Bon dia." from 0.0 to 1.0 and "Adéu amic." from 1.0 to 2.0: a
    boundary follows each word that ends with a full stop. *)
Theorem boundary_splitting :
  forall E self audio_file_path level topic st,
  exists s1 s2,
    fst (_extract_sentences_ffmpeg E self audio_file_path level topic
           (PyList (map word_record bon_dia)) st) = Some [s1; s2]
    /\ transcript s1 = py "Bon dia."
    /\ start_time s1 = 0%float /\ end_time s1 = 1%float
    /\ transcript s2 = py "Ad" ++ 233 :: py "u amic."
    /\ start_time s2 = 1%float /\ end_time s2 = 2%float.
Proof.
  intros. rewrite extract_records. cbn [fst].
  do 2 eexists. split; [reflexivity|].
  repeat split; vm_compute; reflexivity.
Qed.

Lemma marker_index_first ws : forall i,
  marker_index ws = Some i <->
  marker_here (drop i ws) = true /\ forall j, (j < i)%nat -> marker_here (drop j ws) = false.
Proof.
  induction ws as [|w ws IH]; intros i.
  - cbn. rewrite drop_nil. cbn. split; [done|]. by intros [? _].
  - cbn [marker_index]. destruct (marker_here (w :: ws)) eqn:Hm.
    + split.
      * intros [= <-]. split; [done|]. lia.
      * intros [Hi Hj]. destruct i as [|i]; [done|].
        specialize (Hj 0%nat ltac:(lia)). cbn [drop] in Hj. congruence.
    + destruct i as [|i].
      * split; [by destruct (marker_index ws)|]. cbn [drop]. intros [? _]. congruence.
      * rewrite fmap_Some. split.
        -- intros (i' & Hi' & [= ->]). apply IH in Hi' as [H1 H2].
           split; [done|]. intros [|j] Hj; [done|]. apply H2. lia.
        -- intros [H1 H2]. exists i. split; [|done]. apply IH. split; [done|].
           intros j Hj. apply (H2 (S j)). lia.
Qed.

Lemma marker_index_absent ws :
  marker_index ws = None <-> forall j, marker_here (drop j ws) = false.
Proof.
  induction ws as [|w ws IH].
  - cbn. split; [|done]. intros _ j. by rewrite drop_nil.
  - cbn [marker_index]. destruct (marker_here (w :: ws)) eqn:Hm.
    + split; [done|]. intros H. specialize (H 0%nat). cbn [drop] in H. congruence.
    + rewrite fmap_None, IH. split.
      * intros H [|j]; [done|]. apply H.
      * intros H j. apply (H (S j)).
Qed.

(** C7: on Hola, Generalitat, de, Catalunya the scan finds the marker at
    index 1 and the function returns one entry whose text is "Hola"; in
    general the function is the loop and the flush run over the words
    before the first occurrence of the marker triple, which are the words
    before its index when it occurs and all the words when it does not. *)
Theorem marker_exclusion :
  (forall t0 t1 t2 t3 t4 t5 t6 t7 E self audio_file_path level topic st,
     let ws := [ tw (py "Hola") t0 t1; tw (py "Generalitat") t2 t3;
                 tw (py "de") t4 t5; tw (py "Catalunya") t6 t7 ] in
     find_generalitat 0 (map word_record ws) = Some (Some 1%nat)
     /\ before_marker ws = [ tw (py "Hola") t0 t1 ]
     /\ exists s,
          fst (_extract_sentences_ffmpeg E self audio_file_path level topic
                 (PyList (map word_record ws)) st) = Some [s]
          /\ transcript s = py "Hola" /\ start_time s = t0 /\ end_time s = t1)
  /\ (forall E self audio_file_path level topic ws st,
        _extract_sentences_ffmpeg E self audio_file_path level topic
          (PyList (map word_record ws)) st
        = try_except
            (segment_words E self audio_file_path level topic
               (map word_record (before_marker ws)))
            (ret []) st)
  /\ (forall ws i,
        marker_here (drop i ws) = true ->
        (forall j, (j < i)%nat -> marker_here (drop j ws) = false) ->
        find_generalitat 0 (map word_record ws) = Some (Some i)
        /\ before_marker ws = take i ws)
  /\ (forall ws,
        (forall j, marker_here (drop j ws) = false) ->
        find_generalitat 0 (map word_record ws) = Some None
        /\ before_marker ws = ws).
Proof.
  repeat apply conj.
  - intros. subst ws. split; [|split].
    + rewrite find_generalitat_records. vm_compute. reflexivity.
    + vm_compute. reflexivity.
    + rewrite extract_records. cbn [fst]. eexists. split; [reflexivity|].
      repeat split; vm_compute; reflexivity.
  - intros. unfold _extract_sentences_ffmpeg, try_except.
    by rewrite extract_body_records.
  - intros ws i Hi Hj.
    assert (Hidx : marker_index ws = Some i) by (by apply marker_index_first).
    rewrite find_generalitat_records, before_marker_take, Hidx. done.
  - intros ws Hj.
    assert (Hidx : marker_index ws = None) by (by apply marker_index_absent).
    rewrite find_generalitat_records, before_marker_take, Hidx. cbn.
    by rewrite firstn_all.
Qed.

(** The hypotheses of the general parts of [marker_exclusion] at a
    sequence with the marker and at one without it. *)
Lemma marker_exclusion_witness :
  (find_generalitat 0 (map word_record
     [ tw (py "Hola") 0%float 1%float; tw (py "Generalitat") 1%float 2%float;
       tw (py "de") 2%float 3%float; tw (py "Catalunya") 3%float 4%float ]) = Some (Some 1%nat)
   /\ before_marker
        [ tw (py "Hola") 0%float 1%float; tw (py "Generalitat") 1%float 2%float;
          tw (py "de") 2%float 3%float; tw (py "Catalunya") 3%float 4%float ]
      = take 1 [ tw (py "Hola") 0%float 1%float; tw (py "Generalitat") 1%float 2%float;
                 tw (py "de") 2%float 3%float; tw (py "Catalunya") 3%float 4%float ])
  /\ (find_generalitat 0 (map word_record [ tw (py "Hola") 0%float 1%float ]) = Some None
      /\ before_marker [ tw (py "Hola") 0%float 1%float ] = [ tw (py "Hola") 0%float 1%float ]).
Proof.
  split.
  - apply (proj1 (proj2 (proj2 marker_exclusion))).
    + vm_compute. reflexivity.
    + intros j Hj. assert (j = 0%nat) as -> by lia. vm_compute. reflexivity.
  - apply (proj2 (proj2 (proj2 marker_exclusion))).
    intros [|[|j]]; vm_compute; reflexivity.
Defined.

(** ** White space *)

Lemma isspace_SP : isspace SP = true.
Proof. reflexivity. Qed.

Lemma remove_ws_app s1 s2 : remove_ws (s1 ++ s2) = remove_ws s1 ++ remove_ws s2.
Proof. apply filter_app. Qed.

Lemma remove_ws_lstrip s : remove_ws (lstrip s) = remove_ws s.
Proof.
  induction s as [|c s IH]; [done|]. cbn [lstrip].
  destruct (isspace c) eqn:Hc; [|done].
  rewrite IH. unfold remove_ws. rewrite filter_cons_False; [done|]. congruence.
Qed.

Lemma remove_ws_rev s : remove_ws (rev s) = rev (remove_ws s).
Proof.
  induction s as [|c s IH]; [done|]. cbn [rev].
  rewrite remove_ws_app, IH. unfold remove_ws at 2 3.
  destruct (isspace c) eqn:Hc.
  - rewrite !filter_cons_False, filter_nil by congruence. by rewrite app_nil_r.
  - rewrite !filter_cons_True, filter_nil by done. done.
Qed.

Lemma remove_ws_strip s : remove_ws (strip s) = remove_ws s.
Proof.
  unfold strip, rstrip.
  by rewrite remove_ws_rev, remove_ws_lstrip, remove_ws_rev, rev_involutive, remove_ws_lstrip.
Qed.

Lemma lstrip_plain c s : isspace c = false -> lstrip (c :: s) = c :: s.
Proof. intros H. cbn. by rewrite H. Qed.

(** Trimming a text that neither starts nor ends with white space, after
    one space was put behind it. *)
Lemma strip_snoc_space s c1 c2 s1 s2 :
  s = c1 :: s1 -> s = s2 ++ [c2] -> isspace c1 = false -> isspace c2 = false ->
  strip (s ++ [SP]) = s.
Proof.
  intros H1 H2 Hc1 Hc2. unfold strip, rstrip.
  assert (Hl : lstrip (s ++ [SP]) = s ++ [SP]).
  { rewrite H1. cbn. by rewrite Hc1. }
  rewrite Hl, rev_app_distr. cbn [rev app lstrip]. rewrite isspace_SP.
  assert (Hr : lstrip (rev s) = rev s).
  { rewrite H2, rev_app_distr. cbn. by rewrite Hc2. }
  by rewrite Hr, rev_involutive.
Qed.

Lemma texts_join (l : list pystr) :
  l ≠ [] -> concat (map (fun w => w ++ [SP]) l) = join_sp l ++ [SP].
Proof.
  induction l as [|a l IH]; [done|]. intros _.
  destruct l as [|b l]; cbn [map concat join_sp].
  - by rewrite app_nil_r.
  - cbn [map concat] in IH. rewrite IH by done.
    rewrite <- !app_assoc. done.
Qed.

Lemma join_plain_ends (l : list pystr) :
  l ≠ [] -> Forall plain_text l ->
  exists c1 s1 c2 s2,
    join_sp l = c1 :: s1 /\ join_sp l = s2 ++ [c2]
    /\ isspace c1 = false /\ isspace c2 = false.
Proof.
  induction l as [|a l IH]; [done|]. intros _ Hall.
  apply Forall_cons in Hall as [[Hne Ha] Hl].
  destruct a as [|c1 a1]; [done|].
  assert (Hc1 : isspace c1 = false) by (by apply Forall_cons in Ha as [? _]).
  destruct l as [|b l].
  - cbn [join_sp].
    destruct (last (c1 :: a1)) as [c2|] eqn:Hlast; [|by apply last_None in Hlast].
    pose proof Hlast as Hin. apply last_Some in Hlast as [s2 Hs2].
    exists c1, a1, c2, s2. split; [done|]. split; [done|]. split; [done|].
    rewrite Forall_forall in Ha. apply Ha. rewrite Hs2.
    apply elem_of_app. right. apply list_elem_of_here.
  - destruct (IH ltac:(done) Hl) as (_ & _ & c2 & s2 & _ & Hs2 & _ & Hc2).
    cbn [join_sp] in *. rewrite Hs2.
    exists c1, (a1 ++ SP :: s2 ++ [c2]), c2, ((c1 :: a1) ++ SP :: s2).
    split; [done|]. split; [|done].
    by rewrite <- app_assoc.
Qed.

(** The words, each followed by a space, concatenated and trimmed, are the
    words joined by single spaces when each is a plain text. *)
Lemma strip_texts_plain (l : list pystr) :
  l ≠ [] -> Forall plain_text l ->
  strip (concat (map (fun w => w ++ [SP]) l)) = join_sp l.
Proof.
  intros Hne Hall. rewrite texts_join by done.
  destruct (join_plain_ends l Hne Hall) as (c1 & s1 & c2 & s2 & H1 & H2 & Hc1 & Hc2).
  by eapply strip_snoc_space.
Qed.

Lemma split_words_unterminated l : forall cur,
  Forall (fun v => ends_sentence (word_text v) = false) l ->
  split_words cur l = ([], cur ++ l).
Proof.
  induction l as [|w l IH]; intros cur Hl; cbn.
  - by rewrite app_nil_r.
  - apply Forall_cons in Hl as [Hw Hl]. rewrite Hw, IH by done.
    by rewrite <- app_assoc.
Qed.

Lemma groups_of_unterminated l :
  Forall (fun v => ends_sentence (word_text v) = false) l ->
  groups_of l = match l with [] => [] | _ :: _ => [l] end.
Proof.
  intros Hl. unfold groups_of. rewrite split_words_unterminated by done.
  by destruct l.
Qed.

Lemma texts_of_records ws :
  texts_of (map word_record ws) = concat (map (fun w => text w ++ [SP]) ws).
Proof.
  unfold texts_of. induction ws as [|w ws IH]; [done|].
  cbn [map concat]. by rewrite IH, word_text_record.
Qed.

Lemma before_marker_Forall (P : timed_word -> Prop) ws :
  Forall P ws -> Forall P (before_marker ws).
Proof. intros H. rewrite before_marker_take. by apply Forall_take. Qed.

(** C3, as the code has it: when no word ends with '.', '!' or '?', the
    function returns no entry if no word precedes the marker triple (the
    empty input is such a case), and else exactly one entry that covers the
    words before the marker (all the words when there is no marker): it
    starts with the first of them, ends with the last, and its text is
    their texts, each followed by a space, concatenated and trimmed, which
    is the texts joined by single spaces when each is a plain text. *)
Theorem unterminated_words_one_span :
  forall E self audio_file_path level topic ws st,
    Forall (fun w => ends_sentence (text w) = false) ws ->
    match before_marker ws with
    | [] =>
        fst (_extract_sentences_ffmpeg E self audio_file_path level topic
               (PyList (map word_record ws)) st) = Some []
    | first :: rest =>
        exists s,
          fst (_extract_sentences_ffmpeg E self audio_file_path level topic
                 (PyList (map word_record ws)) st) = Some [s]
          /\ start_time s = start_seconds first
          /\ end_time s = end_seconds (default first (last (first :: rest)))
          /\ transcript s
             = strip (concat (map (fun w => text w ++ [SP]) (first :: rest)))
          /\ (Forall plain_text (map text (first :: rest)) ->
              transcript s = join_sp (map text (first :: rest)))
    end.
Proof.
  intros E self a lv tp ws st Hws.
  rewrite extract_records. cbn [fst].
  apply before_marker_Forall in Hws.
  rewrite groups_of_unterminated; last first.
  { apply Forall_map. eapply Forall_impl; [exact Hws|].
    intros w Hw. cbv beta. by rewrite word_text_record. }
  destruct (before_marker ws) as [|first rest]; [done|].
  cbn [map sentences_from]. eexists. split; [reflexivity|].
  unfold sentence_of. cbn [start_time end_time transcript head].
  change (word_record first :: map word_record rest)
    with (map word_record (first :: rest)).
  rewrite texts_of_records.
  assert (Hlast : default PyNone (last (map word_record (first :: rest)))
                  = word_record (default first (last (first :: rest)))).
  { change (map word_record (first :: rest)) with (word_record <$> (first :: rest)).
    rewrite fmap_last.
    destruct (last (first :: rest)) eqn:Hl; [done|]. by apply last_None in Hl. }
  rewrite Hlast.
  change (default PyNone (Some (word_record first))) with (word_record first).
  rewrite word_time_start, word_time_end.
  split; [done|]. split; [done|]. split; [done|].
  intros Hplain.
  change (text first :: map text rest) with (map text (first :: rest)) in *.
  rewrite <- (strip_texts_plain (map text (first :: rest))); [|done|done].
  by rewrite map_map.
Qed.

(** [unterminated_words_one_span] at the single word Hola. *)
Lemma unterminated_words_one_span_witness :
  exists s,
    fst (_extract_sentences_ffmpeg (sample_env 0 None) sample_segmenter (py "a/b.mp3")
           (py "b1") (py "t")
           (PyList (map word_record [tw (py "Hola") 0%float 1%float])) empty_state)
      = Some [s]
    /\ start_time s = 0%float
    /\ end_time s = 1%float
    /\ transcript s = strip (py "Hola" ++ [SP] ++ [])
    /\ (Forall plain_text [py "Hola"] -> transcript s = py "Hola").
Proof.
  apply (unterminated_words_one_span (sample_env 0 None) sample_segmenter (py "a/b.mp3")
           (py "b1") (py "t") [tw (py "Hola") 0%float 1%float] empty_state).
  repeat constructor.
Defined.

(** C3 as stated fails: the empty sequence has no word that ends a
    sentence and yields no entry; and with the marker in the input the one
    entry does not reach the end of the input. *)
Lemma unterminated_words_counterexample :
  ~ (exists s,
       fst (_extract_sentences_ffmpeg (sample_env 0 None) sample_segmenter (py "a/b.mp3")
              (py "b1") (py "t") (PyList (map word_record [])) empty_state) = Some [s])
  /\ (exists s,
        fst (_extract_sentences_ffmpeg (sample_env 0 None) sample_segmenter (py "a/b.mp3")
               (py "b1") (py "t")
               (PyList (map word_record
                  [ tw (py "Hola") 0%float 1%float; tw (py "Generalitat") 1%float 2%float;
                    tw (py "de") 2%float 3%float; tw (py "Catalunya") 3%float 4%float ]))
               empty_state) = Some [s]
        /\ transcript s = py "Hola" /\ end_time s = 1%float).
Proof.
  split.
  - intros [s Hs]. vm_compute in Hs. discriminate.
  - eexists. split; [vm_compute; reflexivity|]. split; reflexivity.
Qed.

(** ** Coverage of the words by the entries *)

Lemma split_words_concat l : forall cur,
  concat (split_words cur l).1 ++ (split_words cur l).2 = cur ++ l.
Proof.
  induction l as [|w l IH]; intros cur; cbn.
  - by rewrite app_nil_r.
  - destruct (ends_sentence (word_text w)).
    + specialize (IH []). destruct (split_words [] l) as [gs rem]. cbn in *.
      rewrite <- !app_assoc. cbn. by rewrite IH.
    + rewrite IH. by rewrite <- app_assoc.
Qed.

Lemma concat_groups_of l : concat (groups_of l) = l.
Proof.
  pose proof (split_words_concat l []) as H. unfold groups_of.
  destruct (split_words [] l) as [gs rem]. cbn in H.
  destruct rem as [|r rem].
  - by rewrite app_nil_r in H.
  - rewrite concat_app. cbn. by rewrite app_nil_r.
Qed.

Lemma remove_ws_texts_of g :
  remove_ws (texts_of g) = remove_ws (concat (map word_text g)).
Proof.
  unfold texts_of. induction g as [|v g IH]; [done|].
  cbn [map concat]. rewrite !remove_ws_app, IH.
  change (remove_ws [SP]) with (@nil N). by rewrite app_nil_r.
Qed.

Lemma remove_ws_sentences E self lv tp gs : forall n,
  remove_ws (concat (map transcript (sentences_from E self lv tp n gs)))
  = remove_ws (concat (map word_text (concat gs))).
Proof.
  induction gs as [|g gs IH]; intros n; [done|].
  cbn [sentences_from map concat transcript sentence_of].
  rewrite map_app, concat_app, !remove_ws_app, IH.
  by rewrite remove_ws_strip, remove_ws_texts_of.
Qed.

Lemma split_from_space x : forall cur y c,
  isspace c = true ->
  split_from cur (x ++ c :: y) = split_from cur x ++ split_ws y.
Proof.
  induction x as [|d x IH]; intros cur y c Hc.
  - cbn [app split_from]. rewrite Hc. by destruct cur.
  - cbn [app split_from]. destruct (isspace d).
    + rewrite (IH [] y c Hc). by destruct cur.
    + by apply IH.
Qed.

Lemma split_from_trailing l2 : forall cur x,
  Forall (fun c => isspace c = true) l2 -> split_from cur (x ++ l2) = split_from cur x.
Proof.
  induction l2 as [|c l2 IH]; intros cur x Hl2; [by rewrite app_nil_r|].
  apply Forall_cons in Hl2 as [Hc Hl2].
  rewrite split_from_space by done.
  assert (Hempty : split_ws l2 = []).
  { specialize (IH [] [] Hl2). cbn [app] in IH. unfold split_ws. by rewrite IH. }
  by rewrite Hempty, app_nil_r.
Qed.

Lemma split_ws_lstrip s : split_ws (lstrip s) = split_ws s.
Proof.
  unfold split_ws. induction s as [|c s IH]; [done|].
  cbn [lstrip]. destruct (isspace c) eqn:Hc; [|done].
  cbn [split_from]. by rewrite Hc.
Qed.

Lemma lstrip_dropped s : exists l1, s = l1 ++ lstrip s /\ Forall (fun c => isspace c = true) l1.
Proof.
  induction s as [|c s (l1 & IH & Hl1)]; [by exists []|].
  cbn [lstrip]. destruct (isspace c) eqn:Hc; [|by exists []].
  exists (c :: l1). split; [cbn; by rewrite <- IH|by constructor].
Qed.

Lemma rstrip_dropped s : exists l2, s = rstrip s ++ l2 /\ Forall (fun c => isspace c = true) l2.
Proof.
  unfold rstrip. destruct (lstrip_dropped (rev s)) as (l1 & H & Hl1).
  exists (rev l1). split.
  - rewrite <- rev_app_distr, <- H. by rewrite rev_involutive.
  - rewrite Forall_forall in Hl1 |- *. intros c Hc. apply Hl1.
    by apply list_elem_of_In, in_rev, list_elem_of_In.
Qed.

Lemma split_ws_strip s : split_ws (strip s) = split_ws s.
Proof.
  unfold strip. destruct (rstrip_dropped (lstrip s)) as (l2 & H & Hl2).
  rewrite <- (split_ws_lstrip s). rewrite H at 2.
  unfold split_ws. by rewrite split_from_trailing.
Qed.

Lemma split_ws_join l : split_ws (join_sp l) = concat (map split_ws l).
Proof.
  induction l as [|x l IH]; [done|].
  destruct l as [|y l].
  - cbn. by rewrite app_nil_r.
  - change (join_sp (x :: y :: l)) with (x ++ SP :: join_sp (y :: l)).
    unfold split_ws at 1. rewrite split_from_space by done. by rewrite IH.
Qed.

Lemma split_ws_texts_of g : split_ws (texts_of g) = concat (map split_ws (map word_text g)).
Proof.
  unfold texts_of. induction g as [|v g IH]; [done|].
  cbn [map concat]. rewrite <- app_assoc. cbn [app].
  unfold split_ws at 1. rewrite split_from_space by done. by rewrite IH.
Qed.

Lemma split_ws_sentences E self lv tp gs : forall n,
  concat (map split_ws (map transcript (sentences_from E self lv tp n gs)))
  = concat (map split_ws (map word_text (concat gs))).
Proof.
  induction gs as [|g gs IH]; intros n; [done|].
  cbn [sentences_from map concat transcript sentence_of].
  by rewrite !map_app, concat_app, IH, split_ws_strip, split_ws_texts_of.
Qed.

(** C5: the texts of the entries, concatenated in order, and the texts of
    the words before the first occurrence of the marker triple,
    concatenated in order, are the same once white space is left out; and
    joined by spaces they split at white space into the same words. *)
Theorem span_texts_cover_words :
  forall E self audio_file_path level topic ws st,
  exists out,
    fst (_extract_sentences_ffmpeg E self audio_file_path level topic
           (PyList (map word_record ws)) st) = Some out
    /\ remove_ws (concat (map transcript out))
       = remove_ws (concat (map text (before_marker ws)))
    /\ split_ws (join_sp (map transcript out))
       = split_ws (join_sp (map text (before_marker ws))).
Proof.
  intros. rewrite extract_records. cbn [fst]. eexists. split; [reflexivity|].
  assert (Htexts : map word_text (map word_record (before_marker ws))
                   = map text (before_marker ws)).
  { rewrite map_map. apply map_ext. intros w. apply word_text_record. }
  split.
  - by rewrite remove_ws_sentences, concat_groups_of, Htexts.
  - by rewrite !split_ws_join, split_ws_sentences, concat_groups_of, Htexts.
Qed.

(** ** Records without some of their fields *)


Lemma find_generalitat_unfold k v rest :
  find_generalitat k (v :: rest) =
    match word_is v (py "Generalitat") with
    | None => None
    | Some false => find_generalitat (S k) rest
    | Some true =>
        match rest with
        | w1 :: w2 :: _ =>
            match word_is w1 (py "de") with
            | None => None
            | Some false => find_generalitat (S k) rest
            | Some true =>
                match word_is w2 (py "Catalunya") with
                | None => None
                | Some false => find_generalitat (S k) rest
                | Some true => Some (Some k)
                end
            end
        | _ => find_generalitat (S k) rest
        end
    end.
Proof.
  cbn [find_generalitat]. unfold word_is.
  destruct (py_get v "word" PyNone) as [w|]; [|done]. cbn [mbind option_bind].
  destruct (py_eq_str w (py "Generalitat")); [|done].
  destruct rest as [|w1 [|w2 rest]]; [done|done|].
  destruct (py_get w1 "word" PyNone) as [v1|]; [|done]. cbn [mbind option_bind].
  destruct (py_eq_str v1 (py "de")); [|done].
  destruct (py_get w2 "word" PyNone) as [v2|]; [|done]. cbn [mbind option_bind].
  by destruct (py_eq_str v2 (py "Catalunya")).
Qed.


Lemma startswith_nil s : startswith s [] = true.
Proof. by destruct s. Qed.


Section TypedRecords.
Variable E : Env.

Local Abbreviation W := (word_of_record E).











End TypedRecords.



(** The record without times gives an entry from 0 to 0, the record
    without text an entry with the empty text; so says the segmentation of
    the specification. *)
Example partial_records_example :
  spec_segment (map (word_of_record (sample_env 0 None)) sample_partial)
  = [ {| span_text := py "Hola."; span_start := 0%float; span_end := 0%float |};
      {| span_text := []; span_start := 1%float; span_end := 2%float |} ]
  /\ exists s1 s2,
    fst (_extract_sentences_ffmpeg (sample_env 0 None) sample_segmenter (py "a/b.mp3")
           (py "b1") (py "t") (PyList sample_partial) empty_state) = Some [s1; s2]
    /\ transcript s1 = py "Hola." /\ start_time s1 = 0%float /\ end_time s1 = 0%float
    /\ transcript s2 = [] /\ start_time s2 = 1%float /\ end_time s2 = 2%float.
Proof.
  split; [vm_compute; reflexivity|].
  do 2 eexists. split; [vm_compute; reflexivity|]. repeat split.
Qed.


(** ** Runs and their traces *)

Section RunFacts.
Context {A B : Type}.
Variable R : state -> state -> Prop.
Context `{!PreOrder R}.

Lemma run_rel_ret (a : A) : run_rel R (ret a).
Proof. intros st. reflexivity. Qed.

Lemma run_rel_raise : run_rel R (@raise A).
Proof. intros st. reflexivity. Qed.

Lemma run_rel_lift (o : option A) : run_rel R (lift o).
Proof. intros st. reflexivity. Qed.

Lemma run_rel_get_trace : run_rel R get_trace.
Proof. intros st. reflexivity. Qed.

Lemma run_rel_bind (m : M A) (k : A -> M B) :
  run_rel R m -> (forall a, run_rel R (k a)) -> run_rel R (bind m k).
Proof.
  intros Hm Hk st. unfold bind. specialize (Hm st).
  destruct (m st) as [[a|] st1]; cbn in *; [|done].
  etransitivity; [exact Hm|apply Hk].
Qed.

Lemma run_rel_try (m h : M A) :
  run_rel R m -> run_rel R h -> run_rel R (try_except m h).
Proof.
  intros Hm Hh st. unfold try_except. specialize (Hm st).
  destruct (m st) as [[a|] st1]; cbn in *; [done|].
  etransitivity; [exact Hm|apply Hh].
Qed.
End RunFacts.

Section ValueFacts.
Context {A B : Type}.

Lemma never_raises_ret (a : A) : never_raises (ret a).
Proof. intros st. by eexists. Qed.

Lemma never_raises_try (m h : M A) : never_raises h -> never_raises (try_except m h).
Proof.
  intros Hh st. unfold try_except. destruct (m st) as [[a|] st1]; [by eexists|apply Hh].
Qed.

Lemma same_value_ret (a : A) : same_value (ret a) (ret a).
Proof. by intros st st'. Qed.

Lemma same_value_raise : same_value (@raise A) (@raise A).
Proof. by intros st st'. Qed.

Lemma same_value_lift (o : option A) : same_value (lift o) (lift o).
Proof. by intros st st'. Qed.

Lemma same_value_bind (m m' : M A) (k k' : A -> M B) :
  same_value m m' -> (forall a, same_value (k a) (k' a)) ->
  same_value (bind m k) (bind m' k').
Proof.
  intros Hm Hk st st'. unfold bind. specialize (Hm st st').
  destruct (m st) as [[a|] st1], (m' st') as [[a'|] st1']; cbn in Hm; simplify_eq; [|done].
  apply Hk.
Qed.

(** A step whose value is dropped only has to end well on both sides. *)
Lemma same_value_seq {C} (m m' : M C) (k k' : M B) :
  never_raises m -> never_raises m' -> same_value k k' ->
  same_value (bind m (fun _ => k)) (bind m' (fun _ => k')).
Proof.
  intros Hm Hm' Hk st st'. unfold bind.
  destruct (Hm st) as [a Ha], (Hm' st') as [a' Ha'].
  destruct (m st) as [[?|] st1], (m' st') as [[?|] st1']; cbn in *; simplify_eq.
  apply Hk.
Qed.

Lemma same_value_try (m m' h h' : M A) :
  same_value m m' -> same_value h h' ->
  same_value (try_except m h) (try_except m' h').
Proof.
  intros Hm Hh st st'. unfold try_except. specialize (Hm st st').
  destruct (m st) as [[a|] st1], (m' st') as [[a'|] st1']; cbn in Hm; simplify_eq; [done|].
  apply Hh.
Qed.
End ValueFacts.

Global Instance extends_preorder Q : PreOrder (extends Q).
Proof.
  split.
  - intros st. split; [done|]. exists []. by rewrite !app_nil_r.
  - intros st1 st2 st3 (Hp1 & evs1 & Ht1 & Hq1 & Hm1) (Hp2 & evs2 & Ht2 & Hq2 & Hm2).
    split; [by etransitivity|]. exists (evs1 ++ evs2).
    split; [by rewrite Ht2, Ht1, app_assoc|].
    split; [by apply Forall_app|].
    rewrite Hm2, Hm1, <- app_assoc. f_equal.
    clear. induction evs1 as [|[] evs1 IH]; cbn; by rewrite ?IH.
Qed.

Lemma extends_weaken (Q Q' : event -> Prop) st st' :
  (forall e, Q e -> Q' e) -> extends Q st st' -> extends Q' st st'.
Proof.
  intros HQ (Hp & evs & Ht & Hq & Hm). split; [done|]. exists evs.
  repeat split; [done| |done]. eapply Forall_impl; [exact Hq|done].
Qed.

Lemma rows_of_cuts evs : Forall is_cut evs -> rows_of evs = [].
Proof. induction 1 as [|[] evs He _ IH]; cbn; done. Qed.

Section ExtendsFacts.
Context {A B : Type}.
Variable Q : event -> Prop.

Lemma ext_ret (a : A) : run_rel (extends Q) (ret a).
Proof. apply run_rel_ret, _. Qed.
Lemma ext_raise : run_rel (extends Q) (@raise A).
Proof. apply run_rel_raise, _. Qed.
Lemma ext_lift (o : option A) : run_rel (extends Q) (lift o).
Proof. apply run_rel_lift, _. Qed.
Lemma ext_get_trace : run_rel (extends Q) get_trace.
Proof. apply run_rel_get_trace, _. Qed.
Lemma ext_bind (m : M A) (k : A -> M B) :
  run_rel (extends Q) m -> (forall a, run_rel (extends Q) (k a)) ->
  run_rel (extends Q) (bind m k).
Proof. apply run_rel_bind, _. Qed.
Lemma ext_try (m h : M A) :
  run_rel (extends Q) m -> run_rel (extends Q) h -> run_rel (extends Q) (try_except m h).
Proof. apply run_rel_try, _. Qed.
End ExtendsFacts.

(** ** The entries do not depend on ffmpeg *)

Lemma extract_audio_segment_never_raises E i o s d :
  never_raises (_extract_audio_segment E i o s d).
Proof. intros st. rewrite extract_audio_segment_run. by eexists. Qed.

Lemma extract_audio_segment_extends E i o s d :
  run_rel (extends is_cut) (_extract_audio_segment E i o s d).
Proof.
  intros st. rewrite extract_audio_segment_run. cbn [snd].
  split; [apply after_cut_present|]. eexists [_].
  rewrite after_cut_trace, after_cut_manifest. cbn.
  split; [done|]. split; [|by rewrite app_nil_r].
  by repeat constructor.
Qed.

Lemma py_float_with_ffmpeg f E v : py_float (with_ffmpeg f E) v = py_float E v.
Proof. by destruct v. Qed.

Section Independence.
Variable E : Env.
Variable f : list event -> ffmpeg_cmd -> option Z.
Variable self : segmenter.
Variables audio_file_path level topic : pystr.

Lemma emit_sentence_same s cs ct :
  same_value (emit_sentence E self audio_file_path level topic s cs ct)
             (emit_sentence (with_ffmpeg f E) self audio_file_path level topic s cs ct).
Proof.
  unfold emit_sentence.
  apply same_value_bind; [apply same_value_lift|]. intros first.
  apply same_value_bind; [apply same_value_lift|]. intros lastw.
  apply same_value_bind; [apply same_value_lift|]. intros sv.
  rewrite py_float_with_ffmpeg.
  apply same_value_bind; [apply same_value_lift|]. intros ss.
  apply same_value_bind; [apply same_value_lift|]. intros ev.
  rewrite py_float_with_ffmpeg.
  apply same_value_bind; [apply same_value_lift|]. intros se.
  apply same_value_seq; [apply extract_audio_segment_never_raises..|].
  apply same_value_ret.
Qed.

Lemma segment_step_same acc w :
  same_value (segment_step E self audio_file_path level topic acc w)
             (segment_step (with_ffmpeg f E) self audio_file_path level topic acc w).
Proof.
  destruct acc as [[s cs] ct]. unfold segment_step.
  apply same_value_bind; [apply same_value_lift|]. intros wv.
  apply same_value_bind; [apply same_value_lift|]. intros word.
  destruct (ends_sentence word); [|apply same_value_ret].
  apply same_value_bind; [apply emit_sentence_same|]. intros s'.
  apply same_value_ret.
Qed.

Lemma segment_loop_same l : forall acc,
  same_value (segment_loop E self audio_file_path level topic acc l)
             (segment_loop (with_ffmpeg f E) self audio_file_path level topic acc l).
Proof.
  induction l as [|w l IH]; intros acc; cbn [segment_loop]; [apply same_value_ret|].
  apply same_value_bind; [apply segment_step_same|]. apply IH.
Qed.

Lemma extract_sentences_same alignment_result :
  same_value (_extract_sentences_ffmpeg E self audio_file_path level topic alignment_result)
             (_extract_sentences_ffmpeg (with_ffmpeg f E) self audio_file_path level topic
                alignment_result).
Proof.
  unfold _extract_sentences_ffmpeg.
  apply same_value_try; [|apply same_value_ret].
  unfold extract_body. destruct alignment_result; try apply same_value_ret.
  apply same_value_bind; [apply same_value_lift|]. intros idx.
  unfold segment_words.
  apply same_value_bind; [apply segment_loop_same|]. intros [[s cs] ct].
  destruct cs; [apply same_value_ret|apply emit_sentence_same].
Qed.

Lemma emit_sentence_extends s cs ct :
  run_rel (extends is_cut) (emit_sentence E self audio_file_path level topic s cs ct).
Proof.
  unfold emit_sentence.
  repeat (apply ext_bind; [apply ext_lift|intros ?]).
  apply ext_bind; [apply extract_audio_segment_extends|intros ?].
  apply ext_ret.
Qed.

Lemma segment_loop_extends l : forall acc,
  run_rel (extends is_cut) (segment_loop E self audio_file_path level topic acc l).
Proof.
  induction l as [|w l IH]; intros acc; cbn [segment_loop]; [apply ext_ret|].
  apply ext_bind; [|apply IH].
  destruct acc as [[s cs] ct]. unfold segment_step.
  repeat (apply ext_bind; [apply ext_lift|intros ?]).
  destruct (ends_sentence _); [|apply ext_ret].
  apply ext_bind; [apply emit_sentence_extends|intros ?].
  apply ext_ret.
Qed.

(** The function only cuts: no path is lost, no row is written. *)
Lemma extract_sentences_extends alignment_result :
  run_rel (extends is_cut)
    (_extract_sentences_ffmpeg E self audio_file_path level topic alignment_result).
Proof.
  unfold _extract_sentences_ffmpeg.
  apply ext_try; [|apply ext_ret].
  unfold extract_body. destruct alignment_result; try apply ext_ret.
  apply ext_bind; [apply ext_lift|intros idx].
  unfold segment_words.
  apply ext_bind; [apply segment_loop_extends|intros [[s cs] ct]].
  destruct cs; [apply ext_ret|apply emit_sentence_extends].
Qed.

Lemma extract_sentences_never_raises alignment_result :
  never_raises
    (_extract_sentences_ffmpeg E self audio_file_path level topic alignment_result).
Proof. apply never_raises_try, never_raises_ret. Qed.
End Independence.

(** ** The manifest *)

Lemma write_rows_extends E sentences : run_rel (extends is_row) (write_rows E sentences).
Proof.
  induction sentences as [|s rest IH]; cbn [write_rows]; [apply ext_ret|].
  apply ext_bind; [apply ext_get_trace|]. intros tr.
  destruct (csv_writerow_ok E tr (filename s, transcript s)); [|apply ext_raise].
  intros st. unfold bind at 1 2, modify. cbn.
  etransitivity; [|apply IH].
  split; [done|]. exists [EvWriteRow (filename s, transcript s)]. cbn.
  split; [done|]. split; [|done]. by repeat constructor.
Qed.

Lemma create_file_extends Q E p : run_rel (extends Q) (modify (create_file E p)).
Proof.
  intros st. cbn. split; [apply union_subseteq_r|]. exists []. by rewrite !app_nil_r.
Qed.

Lemma save_segments_extends E self sentences :
  run_rel (extends is_row) (_save_segments_to_csv E self sentences).
Proof.
  unfold _save_segments_to_csv. apply ext_try; [|apply ext_ret].
  apply ext_bind; [apply ext_get_trace|]. intros tr.
  destruct (csv_open_ok E tr); [|apply ext_raise].
  apply ext_bind; [apply create_file_extends|]. intros _.
  apply ext_bind; [apply write_rows_extends|]. intros _. apply ext_ret.
Qed.

Lemma write_rows_ok E sentences : forall st,
  (forall tr row, csv_writerow_ok E tr row = true) ->
  exists st', write_rows E sentences st = (Some tt, st')
    /\ manifest st' = manifest st ++ map row_of sentences.
Proof.
  induction sentences as [|s rest IH]; intros st Hok; cbn [write_rows].
  - eexists. split; [done|]. cbn. by rewrite app_nil_r.
  - unfold bind at 1, get_trace. rewrite Hok.
    unfold bind at 1 2, modify.
    destruct (IH (log_event (EvWriteRow (filename s, transcript s))
                    (append_row (filename s, transcript s) st)) Hok) as (st' & Hrun & Hman).
    exists st'. split; [done|]. rewrite Hman. cbn. by rewrite <- app_assoc.
Qed.

Lemma save_segments_ok E self sentences st :
  (forall tr, csv_open_ok E tr = true) ->
  (forall tr row, csv_writerow_ok E tr row = true) ->
  exists st', _save_segments_to_csv E self sentences st = (Some true, st')
    /\ manifest st' = manifest st ++ map row_of sentences.
Proof.
  intros Hopen Hrow. unfold _save_segments_to_csv, try_except.
  unfold bind at 1, get_trace. rewrite Hopen.
  unfold bind at 1, modify at 1.
  destruct (write_rows_ok E sentences (create_file E (csv_output_file self) st) Hrow)
    as (st' & Hrun & Hman).
  unfold bind, ret. rewrite Hrun. by exists st'.
Qed.

(** C1, as the code has it: the flag of the cut is dropped.  Whatever the
    exit codes of ffmpeg, the function returns the same entries, and when
    the manifest can be written every entry gets its row (clip filename,
    transcript), in order, the entries of failed cuts included. *)
Theorem cut_failure_keeps_row :
  forall E self audio_file_path level topic alignment_result st,
    (forall tr, csv_open_ok E tr = true) ->
    (forall tr row, csv_writerow_ok E tr row = true) ->
    exists sentences st1 st2,
      _extract_sentences_ffmpeg E self audio_file_path level topic alignment_result st
        = (Some sentences, st1)
      /\ _save_segments_to_csv E self sentences st1 = (Some true, st2)
      /\ manifest st2 = manifest st ++ map row_of sentences
      /\ forall f,
           fst (_extract_sentences_ffmpeg (with_ffmpeg f E) self audio_file_path level topic
                  alignment_result st) = Some sentences.
Proof.
  intros E self a lv tp alignment_result st Hopen Hrow.
  destruct (extract_sentences_never_raises E self a lv tp alignment_result st)
    as [sentences Hsome].
  pose proof (extract_sentences_extends E self a lv tp alignment_result st) as Hext.
  destruct (_extract_sentences_ffmpeg E self a lv tp alignment_result st)
    as [o st1] eqn:Hrun.
  cbn in Hsome, Hext. subst o.
  destruct (save_segments_ok E self sentences st1 Hopen Hrow) as (st2 & Hsave & Hman).
  exists sentences, st1, st2. split; [done|]. split; [done|]. split.
  - rewrite Hman. destruct Hext as (_ & evs & _ & Hcuts & ->).
    by rewrite (rows_of_cuts evs Hcuts), app_nil_r.
  - intros f.
    rewrite <- (extract_sentences_same E f self a lv tp alignment_result st st).
    by rewrite Hrun.
Qed.

(** [cut_failure_keeps_row] where every cut fails with exit code 1. *)
Lemma cut_failure_keeps_row_witness :
  exists sentences st1 st2,
    _extract_sentences_ffmpeg (sample_env 1 None) sample_segmenter (py "a/b.mp3")
      (py "b1") (py "t") (PyList (map word_record bon_dia)) empty_state
      = (Some sentences, st1)
    /\ _save_segments_to_csv (sample_env 1 None) sample_segmenter sentences st1
       = (Some true, st2)
    /\ manifest st2 = manifest empty_state ++ map row_of sentences
    /\ forall f,
         fst (_extract_sentences_ffmpeg (with_ffmpeg f (sample_env 1 None)) sample_segmenter
                (py "a/b.mp3") (py "b1") (py "t") (PyList (map word_record bon_dia))
                empty_state) = Some sentences.
Proof.
  apply (cut_failure_keeps_row (sample_env 1 None) sample_segmenter (py "a/b.mp3")
           (py "b1") (py "t") (PyList (map word_record bon_dia)) empty_state).
  - intros tr. reflexivity.
  - intros tr row. reflexivity.
Defined.

(** C1 as stated fails: the cut of the only sentence exits with code 1,
    and the row of its clip is in the manifest. *)
Lemma cut_failure_counterexample :
  exists s cmd st1 st2,
    _extract_sentences_ffmpeg (sample_env 1 None) sample_segmenter (py "a/b.mp3")
      (py "b1") (py "t") (PyList (map word_record [tw (py "Hola.") 0%float 1%float]))
      empty_state = (Some [s], st1)
    /\ trace st1 = [EvFfmpeg cmd (Some 1%Z)]
    /\ ff_output cmd = filepath s
    /\ _extract_audio_segment (sample_env 1 None) (ff_input cmd) (ff_output cmd)
         (ff_start cmd) (ff_duration cmd) empty_state
       = (Some false, st1)
    /\ _save_segments_to_csv (sample_env 1 None) sample_segmenter [s] st1 = (Some true, st2)
    /\ filename s = py "b1_t_sentence1.mp3"
    /\ manifest st2 = [(py "b1_t_sentence1.mp3", py "Hola.")].
Proof.
  do 4 eexists. split; [vm_compute; reflexivity|].
  split; [reflexivity|]. split; [reflexivity|].
  split; [vm_compute; reflexivity|].
  split; [vm_compute; reflexivity|]. split; vm_compute; reflexivity.
Qed.

(** ** The alignment file is the walker's marker *)

Lemma str_contains_slash s : str_contains s [SLASH] = true <-> SLASH ∈ s.
Proof.
  induction s as [|c s IH].
  - split; [done|]. intros H. by apply elem_of_nil in H.
  - cbn [str_contains startswith]. rewrite startswith_nil.
    rewrite andb_true_r, orb_true_iff, IH, elem_of_cons, N.eqb_eq. clear. naive_solver.
Qed.

Lemma rsplit_slash_last a f :
  SLASH ∉ f -> rsplit_slash (a ++ SLASH :: f) = (a ++ [SLASH], f).
Proof.
  intros Hf. induction a as [|c a IH]; cbn [app rsplit_slash].
  - destruct (rsplit_slash f) as [h t].
    destruct (str_contains f [SLASH]) eqn:Hc; [by apply str_contains_slash in Hc|].
    by rewrite N.eqb_refl.
  - rewrite IH.
    destruct (str_contains (a ++ SLASH :: f) [SLASH]) eqn:Hc; [done|].
    assert (SLASH ∈ a ++ SLASH :: f) as Hin%str_contains_slash
      by (apply elem_of_app; right; apply list_elem_of_here).
    congruence.
Qed.

Lemma path_split_join d c f :
  c <> SLASH -> SLASH ∉ f ->
  path_split ((d ++ [c]) ++ SLASH :: f) = (d ++ [c], f).
Proof.
  intros Hc Hf. unfold path_split. rewrite rsplit_slash_last by done.
  assert (Hall : forallb (N.eqb SLASH) ((d ++ [c]) ++ [SLASH]) = false).
  { rewrite !forallb_app. cbn -[N.eqb]. apply N.eqb_neq in Hc.
    rewrite (N.eqb_sym SLASH c), Hc. cbn. by rewrite andb_false_r. }
  rewrite Hall, !rev_app_distr. cbn [rev app rstrip_slash_rev].
  rewrite N.eqb_refl. cbn [rstrip_slash_rev].
  apply N.eqb_neq in Hc. rewrite Hc. cbn [rev].
  by rewrite rev_involutive.
Qed.

Lemma path_join_plain d c c' f :
  c <> SLASH -> c' <> SLASH ->
  path_join (d ++ [c]) (c' :: f) = (d ++ [c]) ++ SLASH :: c' :: f.
Proof.
  intros Hc Hc'. unfold path_join. cbn [startswith].
  apply N.eqb_neq in Hc, Hc'. rewrite (N.eqb_sym SLASH c'), Hc'. cbn [andb].
  rewrite bool_decide_eq_false_2 by (by destruct d).
  unfold endswith. rewrite rev_app_distr. cbn -[N.eqb]. rewrite (N.eqb_sym SLASH c), Hc. done.
Qed.

(** For an audio file [f] of a directory [d] (a name without slash in a
    path that does not end with one) the file written by
    [segment_audio_file] is the one the walker tests. *)
Lemma alignment_file_is_marker d c f :
  c <> SLASH -> f <> [] -> SLASH ∉ f ->
  alignment_file_of (path_join (d ++ [c]) f) = marker_of (path_join (d ++ [c]) f).
Proof.
  intros Hc Hne Hf. destruct f as [|c' f]; [done|].
  assert (Hc' : c' <> SLASH).
  { intros ->. apply Hf, list_elem_of_here. }
  rewrite path_join_plain by done.
  unfold alignment_file_of, dirname, basename, marker_of.
  rewrite path_split_join by done. cbn [fst snd].
  change ((c' :: f) ++ py "_alignment.json") with (c' :: (f ++ py "_alignment.json")).
  rewrite path_join_plain by done. by rewrite <- !app_assoc.
Qed.

(** ** The order of the writes of [segment_audio_file] *)

Lemma run_rel_weaken {A} (Q Q' : event -> Prop) (m : M A) :
  (forall e, Q e -> Q' e) -> run_rel (extends Q) m -> run_rel (extends Q') m.
Proof. intros HQ Hm st. eapply extends_weaken; [exact HQ|apply Hm]. Qed.

Lemma get_transcript_state E tt tp st : snd (get_transcript E tt tp st) = st.
Proof.
  unfold get_transcript.
  destruct tt as [[|c t]|]; try done;
    (destruct tp as [[|c' p]|]; try done;
     destruct (path_exists E (c' :: p) st); [|done];
     unfold bind, get_trace, lift, ret;
     by destruct (read_text E (trace st) (c' :: p))).
Qed.

(** *** The transcript, by what the caller gives *)

Lemma get_transcript_given E tt tp st raw :
  transcript_given E tt tp st raw ->
  get_transcript E tt tp st = (Some (Some (clean_transcript raw)), st).
Proof.
  intros [-> Hne|p Htt -> Hp Hex Hread].
  - by destruct raw.
  - destruct p as [|c p]; [done|]. unfold get_transcript.
    assert (Hrun : (if path_exists E (c :: p) st
                    then (tr <- get_trace ;;
                          transcript <- lift (read_text E tr (c :: p)) ;;
                          ret (Some (clean_transcript transcript))) st
                    else ret None st)
                   = (Some (Some (clean_transcript raw)), st)).
    { rewrite Hex. unfold bind, get_trace, lift, ret. by rewrite Hread. }
    by destruct Htt as [-> | ->].
Qed.

Lemma get_transcript_missing E tt tp st :
  transcript_missing E tt tp st -> get_transcript E tt tp st = (Some None, st).
Proof.
  intros [Htt Htp]. unfold get_transcript.
  assert (Hrun : match tp with
                 | Some (c :: p) =>
                     fun st =>
                       if path_exists E (c :: p) st
                       then (tr <- get_trace ;;
                             transcript <- lift (read_text E tr (c :: p)) ;;
                             ret (Some (clean_transcript transcript))) st
                       else ret None st
                 | _ => ret None
                 end st = (Some None, st)).
  { destruct Htp as [-> | [-> | (p & -> & Hex)]]; [done|done|].
    destruct p as [|c p]; [done|]. by rewrite Hex. }
  by destruct Htt as [-> | ->].
Qed.

Lemma get_transcript_unreadable E tt tp st :
  transcript_unreadable E tt tp st -> get_transcript E tt tp st = (None, st).
Proof.
  intros (Htt & p & -> & Hp & Hex & Hread). destruct p as [|c p]; [done|].
  unfold get_transcript.
  assert (Hrun : (if path_exists E (c :: p) st
                  then (tr <- get_trace ;;
                        transcript <- lift (read_text E tr (c :: p)) ;;
                        ret (Some (clean_transcript transcript))) st
                  else ret None st) = (None, st)).
  { rewrite Hex. unfold bind, get_trace, lift. by rewrite Hread. }
  by destruct Htt as [-> | ->].
Qed.

(** A call has a transcript, or lacks one, or cannot read it. *)
Lemma transcript_cases E tt tp st :
  (exists raw, transcript_given E tt tp st raw)
  \/ transcript_missing E tt tp st
  \/ transcript_unreadable E tt tp st.
Proof.
  destruct tt as [[|c t]|].
  2: { left. exists (c :: t). by apply GivenText. }
  all: destruct tp as [[|c p]|];
    [right; left; split; auto|
     |right; left; split; auto].
  all: destruct (path_exists E (c :: p) st) eqn:Hex;
    [|right; left; split; [auto|]; right; right; by exists (c :: p)].
  all: destruct (read_text E (trace st) (c :: p)) as [raw|] eqn:Hread;
    [left; exists raw; by eapply GivenFile; [auto| | | |]
    |right; right; split; [auto|]; by exists (c :: p)].
Qed.

Lemma transcript_given_inj E tt tp st raw raw' :
  transcript_given E tt tp st raw -> transcript_given E tt tp st raw' -> raw = raw'.
Proof.
  intros [Ht Hne|p Htt Hp _ _ Hread] [Ht' Hne'|p' Htt' Hp' _ _ Hread'].
  - congruence.
  - destruct Htt' as [?|?]; congruence.
  - destruct Htt as [?|?]; congruence.
  - congruence.
Qed.

(** *** The shape of the response *)

Lemma py_len_has_len v : is_Some (py_len v) <-> has_len v.
Proof. destruct v; cbn; split; try done; try (by intros []); by eexists. Qed.

Lemma wordstamps_of_accepted resp words :
  accepted_shape resp words -> wordstamps_of resp = Some (Some words).
Proof.
  intros [d w Hd Hlen|l]; [|done]. cbn. rewrite Hd.
  apply py_len_has_len in Hlen as [n ->]. done.
Qed.

Lemma wordstamps_of_refused resp :
  (forall words, ~ accepted_shape resp words) ->
  wordstamps_of resp = Some None \/ wordstamps_of resp = None.
Proof.
  intros Hno. destruct resp as [[| | | | |l|d]|]; cbn; auto.
  - destruct (Hno (PyList l)). constructor.
  - destruct (d !! "wordstamps") as [w|] eqn:Hd; [|auto].
    destruct (py_len w) as [n|] eqn:Hlen; [|auto].
    destruct (Hno w). constructor; [done|]. apply py_len_has_len. by eexists.
Qed.

Lemma accepted_shape_cases resp :
  (exists words, accepted_shape resp words) \/ (forall words, ~ accepted_shape resp words).
Proof.
  destruct resp as [[| | | | |l|d]|]; try (right; intros w Hw; by inversion Hw).
  - left. eexists. constructor.
  - destruct (d !! "wordstamps") as [w|] eqn:Hd.
    + destruct w; try (left; eexists; by constructor);
        right; intros w' Hw'; inversion Hw'; by simplify_eq.
    + right. intros w' Hw'. inversion Hw'. by simplify_eq.
Qed.

Lemma accepted_shape_inj resp words words' :
  accepted_shape resp words -> accepted_shape resp words' -> words = words'.
Proof. intros H1 H2. inversion H1; inversion H2; by simplify_eq. Qed.

(** *** The inner [try] *)

Lemma open_rb_opens E a st : audio_opens E a st -> open_rb E a st = (Some tt, st).
Proof. intros [Hex Hok]. unfold open_rb. by rewrite Hex, Hok. Qed.

Lemma open_rb_fails E a st :
  path_exists E a st = false \/ open_rb_ok E (trace st) a = false ->
  open_rb E a st = (None, st).
Proof.
  intros Hno. unfold open_rb.
  destruct (path_exists E a st), (open_rb_ok E (trace st) a); try done.
  by destruct Hno.
Qed.

Lemma audio_opens_cases E a st :
  audio_opens E a st
  \/ (path_exists E a st = false \/ open_rb_ok E (trace st) a = false).
Proof.
  unfold audio_opens.
  destruct (path_exists E a st), (open_rb_ok E (trace st) a); auto.
Qed.

Lemma run_alignment_no_audio E a t st :
  path_exists E a st = false \/ open_rb_ok E (trace st) a = false ->
  run_alignment E a t st = (Some None, st).
Proof.
  intros Hno. unfold run_alignment, try_except, bind.
  by rewrite open_rb_fails.
Qed.

(** The call raises, or the shape of the response is not accepted:
    nothing but the call is left. *)
Lemma run_alignment_refused E a t st :
  audio_opens E a st ->
  replicate_run E (trace st) a t = None
  \/ (exists resp, replicate_run E (trace st) a t = Some resp
                   /\ forall words, ~ accepted_shape resp words) ->
  run_alignment E a t st = (Some None, log_event (EvReplicate a t) st).
Proof.
  intros Hopen Hwhy. unfold run_alignment, try_except.
  unfold bind at 1. rewrite open_rb_opens by done.
  unfold bind at 1, get_trace. unfold bind at 1, modify. unfold bind at 1, lift.
  destruct Hwhy as [-> | (resp & -> & Hno)]; [done|].
  unfold bind at 1.
  by destruct (wordstamps_of_refused resp Hno) as [-> | ->].
Qed.

(** The response has an accepted shape: the dump follows the call. *)
Lemma run_alignment_accepted E a t st resp words :
  audio_opens E a st ->
  replicate_run E (trace st) a t = Some resp ->
  accepted_shape resp words ->
  let st0 := log_event (EvReplicate a t) st in
  let o := json_dump E (trace st0) (alignment_file_of a) in
  let st1 := log_event (EvDump (alignment_file_of a) o) st0 in
  run_alignment E a t st =
    match o with
    | DumpOk => (Some (Some words), create_file E (alignment_file_of a) st1)
    | DumpOpenRaises => (Some None, st1)
    | DumpWriteRaises => (Some None, create_file E (alignment_file_of a) st1)
    end.
Proof.
  intros Hopen Hresp Hshape. cbv zeta. unfold run_alignment, try_except.
  unfold bind at 1. rewrite open_rb_opens by done.
  unfold bind at 1, get_trace. unfold bind at 1, modify. unfold bind at 1, lift.
  rewrite Hresp. unfold bind at 1. rewrite (wordstamps_of_accepted _ _ Hshape).
  unfold bind at 1, get_trace. unfold bind at 1, modify.
  fold (alignment_file_of a). cbn [trace log_event].
  by destruct (json_dump E (trace st ++ [EvReplicate a t]) (alignment_file_of a)).
Qed.

Lemma save_segments_never_raises E self sentences :
  never_raises (_save_segments_to_csv E self sentences).
Proof. apply never_raises_try, never_raises_ret. Qed.

(** *** The whole call, case by case *)

Section CallCases.
Variable E : Env.
Variable self : segmenter.
Variables audio_path level topic_name : pystr.
Variables transcript_text transcript_path : option pystr.

Local Abbreviation call :=
  (segment_audio_file E self audio_path transcript_text transcript_path level topic_name).

Lemma call_without_transcript st :
  transcript_missing E transcript_text transcript_path st
  \/ transcript_unreadable E transcript_text transcript_path st ->
  call st = (Some false, st).
Proof.
  intros Hno. unfold segment_audio_file, try_except. unfold bind at 1.
  destruct Hno as [Hno|Hno].
  - by rewrite get_transcript_missing.
  - by rewrite get_transcript_unreadable.
Qed.

Lemma call_without_audio st raw :
  transcript_given E transcript_text transcript_path st raw ->
  path_exists E audio_path st = false \/ open_rb_ok E (trace st) audio_path = false ->
  call st = (Some false, st).
Proof.
  intros Hraw Hno. unfold segment_audio_file, try_except. unfold bind at 1.
  rewrite (get_transcript_given _ _ _ _ _ Hraw). unfold bind at 1.
  by rewrite run_alignment_no_audio.
Qed.

Lemma call_refused st raw :
  transcript_given E transcript_text transcript_path st raw ->
  audio_opens E audio_path st ->
  replicate_run E (trace st) audio_path (aligned_text raw) = None
  \/ (exists resp, replicate_run E (trace st) audio_path (aligned_text raw) = Some resp
                   /\ forall words, ~ accepted_shape resp words) ->
  call st = (Some false, log_event (EvReplicate audio_path (aligned_text raw)) st).
Proof.
  intros Hraw Hopen Hwhy. unfold segment_audio_file, try_except. unfold bind at 1.
  rewrite (get_transcript_given _ _ _ _ _ Hraw). unfold bind at 1.
  fold (aligned_text raw). by rewrite run_alignment_refused.
Qed.

(** An accepted response: the marker is written as soon as the file can be
    opened, and the cuts and the rows come after it. *)
Lemma call_accepted st raw resp words :
  transcript_given E transcript_text transcript_path st raw ->
  audio_opens E audio_path st ->
  replicate_run E (trace st) audio_path (aligned_text raw) = Some resp ->
  accepted_shape resp words ->
  let marker := alignment_file_of audio_path in
  let st0 := log_event (EvReplicate audio_path (aligned_text raw)) st in
  let o := json_dump E (trace st0) marker in
  let st1 := log_event (EvDump marker o) st0 in
  match o with
  | DumpOk =>
      exists sentences st2 saved st3,
        _extract_sentences_ffmpeg E self audio_path level topic_name words
          (create_file E marker st1) = (Some sentences, st2)
        /\ _save_segments_to_csv E self sentences st2 = (Some saved, st3)
        /\ call st = (Some true, st3)
        /\ path_exists E marker st3 = true
  | DumpWriteRaises => call st = (Some false, create_file E marker st1)
  | DumpOpenRaises => call st = (Some false, st1)
  end.
Proof.
  intros Hraw Hopen Hresp Hshape. cbv zeta.
  pose proof (run_alignment_accepted E audio_path (aligned_text raw) st resp words
                Hopen Hresp Hshape) as Hrun. cbv zeta in Hrun.
  assert (Hcall : call st =
            try_except
              (aligned <- run_alignment E audio_path (aligned_text raw) ;;
               match aligned with
               | None => ret false
               | Some alignment_result =>
                   sentences <- _extract_sentences_ffmpeg E self audio_path level
                                  topic_name alignment_result ;;
                   _save_segments_to_csv E self sentences ;;;
                   ret true
               end) (ret false) st).
  { unfold segment_audio_file, try_except. unfold bind at 1.
    by rewrite (get_transcript_given _ _ _ _ _ Hraw). }
  rewrite Hcall. clear Hcall. unfold try_except.
  destruct (json_dump E _ (alignment_file_of audio_path));
    [|by rewrite (bind_some _ _ _ _ _ Hrun)|by rewrite (bind_some _ _ _ _ _ Hrun)].
  rewrite (bind_some _ _ _ _ _ Hrun). clear Hrun.
  set (st1 := create_file E _ _).
  destruct (extract_sentences_never_raises E self audio_path level topic_name words st1)
    as [sentences Hsome].
  pose proof (extract_sentences_extends E self audio_path level topic_name words st1)
    as Hext.
  destruct (_extract_sentences_ffmpeg E self audio_path level topic_name words st1)
    as [o1 st2] eqn:Hextract. cbn in Hsome, Hext. subst o1.
  destruct (save_segments_never_raises E self sentences st2) as [saved Hsaved].
  pose proof (save_segments_extends E self sentences st2) as Hext2.
  destruct (_save_segments_to_csv E self sentences st2) as [o2 st3] eqn:Hsave.
  cbn in Hsaved, Hext2. subst o2.
  exists sentences, st2, saved, st3. split; [done|]. split; [done|].
  split.
  - unfold bind. by rewrite Hextract, Hsave.
  - apply bool_decide_eq_true. apply Hext2, Hext. subst st1. cbn.
    apply elem_of_union. left. by apply elem_of_singleton.
Qed.

(** Every run ends with a flag, on a failure or on a dump that
    succeeded. *)
Lemma call_outcome st :
  (item_failure E audio_path transcript_text transcript_path st
   /\ exists st', call st = (Some false, st'))
  \/ ((exists raw resp words,
         transcript_given E transcript_text transcript_path st raw
         /\ audio_opens E audio_path st
         /\ replicate_run E (trace st) audio_path (aligned_text raw) = Some resp
         /\ accepted_shape resp words
         /\ json_dump E (trace st ++ [EvReplicate audio_path (aligned_text raw)])
              (alignment_file_of audio_path) = DumpOk)
      /\ exists st', call st = (Some true, st')).
Proof.
  destruct (transcript_cases E transcript_text transcript_path st)
    as [[raw Hraw]|[Hno|Hno]].
  2: { left. split; [by apply MissingTranscript|]. eexists. apply call_without_transcript.
       by left. }
  2: { left. split; [by apply UnreadableTranscript|]. eexists.
       apply call_without_transcript. by right. }
  destruct (audio_opens_cases E audio_path st) as [Hopen|Hno].
  2: { left. split; [by eapply AudioUnreadable|]. eexists. by eapply call_without_audio. }
  destruct (replicate_run E (trace st) audio_path (aligned_text raw)) as [resp|] eqn:Hresp.
  2: { left. split; [by eapply ServiceError|]. eexists. eapply call_refused; [done..|].
       by left. }
  destruct (accepted_shape_cases resp) as [[words Hshape]|Hno].
  2: { left. split; [by eapply FormatError|]. eexists. eapply call_refused; [done..|].
       right. by exists resp. }
  pose proof (call_accepted st raw resp words Hraw Hopen Hresp Hshape) as Hcall.
  cbv zeta in Hcall. cbn [trace log_event] in Hcall.
  destruct (json_dump E (trace st ++ [EvReplicate audio_path (aligned_text raw)])
              (alignment_file_of audio_path)) eqn:Hdump.
  - right. split; [by exists raw, resp, words|].
    destruct Hcall as (sentences & st2 & saved & st3 & _ & _ & Hcall & _). by exists st3.
  - left. split; [|by eexists]. eapply DumpError; [done..|]. by rewrite Hdump.
  - left. split; [|by eexists]. eapply DumpError; [done..|]. by rewrite Hdump.
Qed.

(** A run with a transcript, an audio file that opens, an accepted response
    and a dump that succeeds is no failure. *)
Lemma no_failure st raw resp words :
  transcript_given E transcript_text transcript_path st raw ->
  audio_opens E audio_path st ->
  replicate_run E (trace st) audio_path (aligned_text raw) = Some resp ->
  accepted_shape resp words ->
  json_dump E (trace st ++ [EvReplicate audio_path (aligned_text raw)])
    (alignment_file_of audio_path) = DumpOk ->
  ~ item_failure E audio_path transcript_text transcript_path st.
Proof.
  intros Hraw [Hex Hok] Hresp Hshape Hdump Hfail.
  pose proof (get_transcript_given _ _ _ _ _ Hraw) as Hget.
  destruct Hfail as [Hno|Hno|raw' Hraw' Hno|raw' Hraw' _ Hnone|raw' resp' Hraw' _ Hresp' Hno
                    |raw' resp' words' Hraw' _ Hresp' Hshape' Hdump'].
  - apply get_transcript_missing in Hno. congruence.
  - apply get_transcript_unreadable in Hno. congruence.
  - destruct Hno; congruence.
  - rewrite (transcript_given_inj _ _ _ _ _ _ Hraw' Hraw) in Hnone. congruence.
  - rewrite (transcript_given_inj _ _ _ _ _ _ Hraw' Hraw) in Hresp'.
    simplify_eq. by apply (Hno words).
  - rewrite (transcript_given_inj _ _ _ _ _ _ Hraw' Hraw) in Hresp', Hdump'. congruence.
Qed.

(** The flag is [false] exactly on the failures listed. *)
Lemma segment_audio_file_flag st :
  exists b st',
    call st = (Some b, st')
    /\ (b = false <-> item_failure E audio_path transcript_text transcript_path st).
Proof.
  destruct (call_outcome st) as [[Hfail [st' Hrun]]|[Hok [st' Hrun]]].
  - exists false, st'. split; [done|]. done.
  - exists true, st'. split; [done|]. split; [done|].
    intros Hfail. destruct Hok as (raw & resp & words & H1 & H2 & H3 & H4 & H5).
    by destruct (no_failure st raw resp words).
Qed.
End CallCases.

(** C2, as the code has it: the alignment file, whose presence makes the
    walker skip the audio file, is written by [segment_audio_file] as soon
    as the aligner has returned a response of an accepted shape and the
    file can be opened for writing: the sentences are extracted and the
    manifest is appended from the state in which it exists, and it exists
    at the end whatever they did; when writing the response raises, the file
    stays and the flag is [False].  Without a transcript, without an audio
    file that opens, after a call that raises and after a response of
    another shape the flag is [False] and nothing is written.  For an audio
    file named in a directory the file written is the one the walker
    tests. *)
Theorem marker_written_after_alignment :
  (forall E self audio_path transcript_text transcript_path level topic_name st
          raw resp words,
     transcript_given E transcript_text transcript_path st raw ->
     audio_opens E audio_path st ->
     replicate_run E (trace st) audio_path (aligned_text raw) = Some resp ->
     accepted_shape resp words ->
     let marker := alignment_file_of audio_path in
     let st0 := log_event (EvReplicate audio_path (aligned_text raw)) st in
     let o := json_dump E (trace st0) marker in
     let st1 := log_event (EvDump marker o) st0 in
     match o with
     | DumpOk =>
         exists sentences st2 saved st3,
           _extract_sentences_ffmpeg E self audio_path level topic_name words
             (create_file E marker st1) = (Some sentences, st2)
           /\ _save_segments_to_csv E self sentences st2 = (Some saved, st3)
           /\ segment_audio_file E self audio_path transcript_text transcript_path
                level topic_name st = (Some true, st3)
           /\ path_exists E marker st3 = true
     | DumpWriteRaises =>
         segment_audio_file E self audio_path transcript_text transcript_path
           level topic_name st = (Some false, create_file E marker st1)
     | DumpOpenRaises =>
         segment_audio_file E self audio_path transcript_text transcript_path
           level topic_name st = (Some false, st1)
     end)
  /\ (forall E self audio_path transcript_text transcript_path level topic_name st,
        transcript_missing E transcript_text transcript_path st
        \/ transcript_unreadable E transcript_text transcript_path st ->
        segment_audio_file E self audio_path transcript_text transcript_path
          level topic_name st = (Some false, st))
  /\ (forall E self audio_path transcript_text transcript_path level topic_name st raw,
        transcript_given E transcript_text transcript_path st raw ->
        path_exists E audio_path st = false \/ open_rb_ok E (trace st) audio_path = false ->
        segment_audio_file E self audio_path transcript_text transcript_path
          level topic_name st = (Some false, st))
  /\ (forall E self audio_path transcript_text transcript_path level topic_name st raw,
        transcript_given E transcript_text transcript_path st raw ->
        audio_opens E audio_path st ->
        replicate_run E (trace st) audio_path (aligned_text raw) = None
        \/ (exists resp,
              replicate_run E (trace st) audio_path (aligned_text raw) = Some resp
              /\ forall words, ~ accepted_shape resp words) ->
        segment_audio_file E self audio_path transcript_text transcript_path
          level topic_name st
        = (Some false, log_event (EvReplicate audio_path (aligned_text raw)) st))
  /\ (forall d c f,
        c <> SLASH -> f <> [] -> SLASH ∉ f ->
        alignment_file_of (path_join (d ++ [c]) f) = marker_of (path_join (d ++ [c]) f)).
Proof.
  split; [|split; [|split; [|split]]].
  - intros. by eapply call_accepted.
  - intros. by apply call_without_transcript.
  - intros. by eapply call_without_audio.
  - intros. by apply call_refused.
  - exact alignment_file_is_marker.
Qed.

(** [marker_written_after_alignment] at an audio file whose transcript is
    given as a text: the alignment file is the walker's marker, and it
    exists after the call. *)
Lemma marker_written_after_alignment_witness :
  exists sentences st2 saved st3,
    _extract_sentences_ffmpeg (sample_env 0 (Some hola_response)) sample_segmenter
      (py "data/b1/t/topic_rapid.mp3") (py "b1") (py "t")
      (PyList (map word_record
         [ tw (py "Hola.") 0%float 1%float; tw (py "Generalitat") 1%float 2%float;
           tw (py "de") 2%float 3%float; tw (py "Catalunya") 3%float 4%float ]))
      (create_file (sample_env 0 (Some hola_response))
         (alignment_file_of (py "data/b1/t/topic_rapid.mp3"))
         (log_event (EvDump (alignment_file_of (py "data/b1/t/topic_rapid.mp3")) DumpOk)
            (log_event (EvReplicate (py "data/b1/t/topic_rapid.mp3")
                          (aligned_text (py "Hola."))) topic_state)))
    = (Some sentences, st2)
    /\ _save_segments_to_csv (sample_env 0 (Some hola_response)) sample_segmenter
         sentences st2 = (Some saved, st3)
    /\ segment_audio_file (sample_env 0 (Some hola_response)) sample_segmenter
         (py "data/b1/t/topic_rapid.mp3") (Some (py "Hola.")) None (py "b1") (py "t")
         topic_state = (Some true, st3)
    /\ path_exists (sample_env 0 (Some hola_response))
         (alignment_file_of (py "data/b1/t/topic_rapid.mp3")) st3 = true.
Proof.
  apply (proj1 marker_written_after_alignment (sample_env 0 (Some hola_response))
           sample_segmenter (py "data/b1/t/topic_rapid.mp3") (Some (py "Hola.")) None
           (py "b1") (py "t") topic_state (py "Hola.") hola_response).
  - apply GivenText; [reflexivity|discriminate].
  - split; vm_compute; reflexivity.
  - reflexivity.
  - apply ShapeWrapped; [vm_compute; reflexivity|exact I].
Defined.

(** C2 as stated fails: the cut exits with code 1 and the manifest cannot
    be opened, so no row is written; the alignment file was written before
    the cut, and the walker's test for it holds afterwards. *)
Lemma marker_written_counterexample :
  exists st' cmd,
    segment_audio_file (broken_env (Some hola_response)) sample_segmenter
      (py "data/b1/t/topic_rapid.mp3") (Some (py "Hola.")) None (py "b1") (py "t")
      topic_state = (Some true, st')
    /\ trace st' = [ EvReplicate (py "data/b1/t/topic_rapid.mp3")
                       (py "Hola. Generalitat de Catalunya");
                     EvDump (py "data/b1/t/topic_rapid.mp3_alignment.json") DumpOk;
                     EvFfmpeg cmd (Some 1%Z) ]
    /\ manifest st' = []
    /\ path_exists (broken_env (Some hola_response))
         (marker_of (py "data/b1/t/topic_rapid.mp3")) st' = true.
Proof.
  do 2 eexists. split; [vm_compute; reflexivity|].
  split; [reflexivity|]. split; [reflexivity|]. vm_compute. reflexivity.
Qed.

(** ** Failures stay within their item *)

Section NoRaise.
Variable E : Env.
Variable self : segmenter.
Variable limit_to_one : bool.
(** Every directory can be listed. *)
Hypothesis listable : forall p, isdir E p = true -> is_Some (listdir E p).

Lemma scan_topic_returns level level_dir topic n st :
  is_Some (fst (scan_topic E self limit_to_one level level_dir topic n st)).
Proof.
  unfold scan_topic.
  destruct (isdir E (path_join level_dir topic)) eqn:Hdir; cbn [negb orb]; [|by eexists].
  destruct (startswith topic (py ".")); [by eexists|].
  destruct (listable _ Hdir) as [listing Hlist].
  unfold bind at 1, lift at 1. rewrite Hlist.
  destruct (filter (fun f => endswith f (py ".txt") = true) listing) as [|tf tfs];
    [by eexists|].
  unfold bind at 1, lift at 1.
  destruct (scan_audio_files listing) as [|af afs]; [by eexists|].
  destruct (path_exists E (marker_of (path_join (path_join level_dir topic) af)) st);
    [by eexists|].
  destruct (segment_audio_file_flag E self (path_join (path_join level_dir topic) af)
              level topic None (Some (path_join (path_join level_dir topic) tf)) st)
    as (b & st' & Hrun & _).
  unfold bind. rewrite Hrun. destruct b; [|by eexists].
  destruct (limit_to_one && bool_decide (1 ≤ n + 1)%nat); by eexists.
Qed.

Lemma scan_topics_returns level level_dir topics : forall n st,
  is_Some (fst (scan_topics E self limit_to_one level level_dir topics n st)).
Proof.
  induction topics as [|topic rest IH]; intros n st; [by eexists|].
  cbn [scan_topics]. unfold bind.
  destruct (scan_topic_returns level level_dir topic n st) as [[n1 r] Hrun].
  destruct (scan_topic E self limit_to_one level level_dir topic n st) as [o st1].
  cbn in Hrun. subst o. destruct r; [by eexists|apply IH].
Qed.

Lemma scan_levels_returns levels : forall n st,
  is_Some (fst (scan_levels E self limit_to_one levels n st)).
Proof.
  induction levels as [|level rest IH]; intros n st; [by eexists|].
  cbn [scan_levels]. unfold bind at 1.
  assert (Hlevel : is_Some (fst (scan_level E self limit_to_one level n st))).
  { unfold scan_level.
    destruct (isdir E (path_join (data_dir self) level)) eqn:Hdir; cbn [negb orb];
      [|by eexists].
    destruct (startswith level (py ".")); [by eexists|].
    destruct (listable _ Hdir) as [topics Hlist].
    unfold bind, lift. rewrite Hlist. apply scan_topics_returns. }
  destruct Hlevel as [[n1 r] Hrun].
  destruct (scan_level E self limit_to_one level n st) as [o st1].
  cbn in Hrun. subst o. destruct r; [by eexists|apply IH].
Qed.

Lemma directory_scan_returns st :
  is_Some (listdir E (data_dir self)) ->
  is_Some (fst (_process_directory_scan E self limit_to_one st)).
Proof.
  intros [levels Hlist]. unfold _process_directory_scan.
  unfold bind at 1, lift. rewrite Hlist.
  destruct (scan_levels_returns levels 0%nat st) as [r Hrun].
  unfold bind. destruct (scan_levels E self limit_to_one levels 0 st) as [o st1].
  cbn in Hrun. subst o. by eexists.
Qed.
End NoRaise.

(** C9, as the code has it: [segment_audio_file] always hands back a flag,
    and the flag is [False] exactly when the item fails in one of these
    ways: no transcript, a transcript file that cannot be read, an audio
    file that cannot be opened, a call of the aligner that raises, a
    response of a shape that is not accepted, a dump that raises.  After an
    item whose flag is [False] the walker over the directory tree goes on
    with the remaining topics, and the walker over the index with the
    remaining audio files, from the state the item left and with the count
    unchanged; a topic directory without a transcript file or without an
    audio file is passed over in the same way.  The walk over the directory
    tree hands back a count whenever its own listings succeed; a listing
    that raises ends it. *)
Theorem failure_is_contained :
  (forall E self audio_path transcript_text transcript_path level topic_name st,
     exists b st',
       segment_audio_file E self audio_path transcript_text transcript_path level topic_name st
         = (Some b, st')
       /\ (b = false <-> item_failure E audio_path transcript_text transcript_path st))
  /\ (forall E self limit_to_one level level_dir topic rest n st st'
             listing transcript_file tfs audio_file afs,
        isdir E (path_join level_dir topic) = true ->
        startswith topic (py ".") = false ->
        listdir E (path_join level_dir topic) = Some listing ->
        filter (fun f => endswith f (py ".txt") = true) listing = transcript_file :: tfs ->
        scan_audio_files listing = audio_file :: afs ->
        path_exists E (marker_of (path_join (path_join level_dir topic) audio_file)) st
          = false ->
        segment_audio_file E self (path_join (path_join level_dir topic) audio_file) None
          (Some (path_join (path_join level_dir topic) transcript_file)) level topic st
          = (Some false, st') ->
        scan_topics E self limit_to_one level level_dir (topic :: rest) n st
        = scan_topics E self limit_to_one level level_dir rest n st')
  /\ (forall E self limit_to_one transcript_text transcript_path level_code topic_name
             audio_path rest n st st',
        path_exists E (marker_of audio_path) st = false ->
        segment_audio_file E self audio_path transcript_text transcript_path
          level_code topic_name st = (Some false, st') ->
        master_audio_loop E self limit_to_one transcript_text transcript_path
          level_code topic_name (audio_path :: rest) n st
        = master_audio_loop E self limit_to_one transcript_text transcript_path
            level_code topic_name rest n st')
  /\ (forall E self limit_to_one level level_dir topic rest n st listing,
        isdir E (path_join level_dir topic) = true ->
        startswith topic (py ".") = false ->
        listdir E (path_join level_dir topic) = Some listing ->
        filter (fun f => endswith f (py ".txt") = true) listing = []
        \/ scan_audio_files listing = [] ->
        scan_topics E self limit_to_one level level_dir (topic :: rest) n st
        = scan_topics E self limit_to_one level level_dir rest n st)
  /\ (forall E self limit_to_one st,
        (forall p, isdir E p = true -> is_Some (listdir E p)) ->
        is_Some (listdir E (data_dir self)) ->
        is_Some (fst (_process_directory_scan E self limit_to_one st)))
  /\ (forall E self limit_to_one level level_dir topic rest n st,
        isdir E (path_join level_dir topic) = true ->
        startswith topic (py ".") = false ->
        listdir E (path_join level_dir topic) = None ->
        scan_topics E self limit_to_one level level_dir (topic :: rest) n st = (None, st)).
Proof.
  split; [|split; [|split; [|split; [|split]]]].
  - intros. apply segment_audio_file_flag.
  - intros E self lt level level_dir topic rest n st st' listing tf tfs af afs
      Hdir Hdot Hlist Htxt Haudio Hmark Hrun.
    cbn [scan_topics]. unfold bind at 1. unfold scan_topic.
    rewrite Hdir, Hdot. cbn [negb orb].
    unfold bind at 1, lift. rewrite Hlist, Htxt.
    unfold bind at 1. rewrite Haudio, Hmark.
    unfold bind at 1. rewrite Hrun. done.
  - intros E self lt tt tp lc tn audio_path rest n st st' Hmark Hrun.
    cbn [master_audio_loop]. rewrite Hmark.
    unfold bind at 1. rewrite Hrun. done.
  - intros E self lt level level_dir topic rest n st listing Hdir Hdot Hlist Hnone.
    cbn [scan_topics]. unfold bind at 1. unfold scan_topic.
    rewrite Hdir, Hdot. cbn [negb orb].
    unfold bind at 1, lift. rewrite Hlist.
    destruct (filter (fun f => endswith f (py ".txt") = true) listing) as [|tf tfs];
      [done|].
    destruct Hnone as [Hnone|Hnone]; [done|].
    unfold bind at 1. by rewrite Hnone.
  - intros E self lt st Hall Hroot. by apply directory_scan_returns.
  - intros E self lt level level_dir topic rest n st Hdir Hdot Hlist.
    cbn [scan_topics]. unfold bind at 1. unfold scan_topic.
    rewrite Hdir, Hdot. cbn [negb orb].
    unfold bind at 1, lift. by rewrite Hlist.
Qed.

(** [failure_is_contained] on the corpus of [walk_env]: the aligner
    raises on the first topic, and the walk goes on with the second. *)
Lemma failure_is_contained_witness :
  scan_topics walk_env walk_segmenter false (py "b1") (py "data/b1")
    [py "t1"; py "t2"] 0 walk_state
  = scan_topics walk_env walk_segmenter false (py "b1") (py "data/b1")
      [py "t2"] 0
      (log_event (EvReplicate (py "data/b1/t1/t1_rapid.mp3")
                    (py "Hola. Generalitat de Catalunya")) walk_state).
Proof.
  apply (proj1 (proj2 failure_is_contained) walk_env walk_segmenter false (py "b1")
           (py "data/b1") (py "t1") [py "t2"] 0%nat walk_state
           (log_event (EvReplicate (py "data/b1/t1/t1_rapid.mp3")
                         (py "Hola. Generalitat de Catalunya")) walk_state)
           [py "t1.txt"; py "t1_lent.mp3"; py "t1_rapid.mp3"]
           (py "t1.txt") [] (py "t1_rapid.mp3") []).
  - vm_compute. reflexivity.
  - vm_compute. reflexivity.
  - vm_compute. reflexivity.
  - vm_compute. reflexivity.
  - vm_compute. reflexivity.
  - vm_compute. reflexivity.
  - vm_compute. reflexivity.
Defined.

(** The whole walk over that corpus: the first topic fails at the call of
    the aligner, the second is processed, and the count is 1. *)
Example walk_example :
  exists st' cmd,
    _process_directory_scan walk_env walk_segmenter false walk_state = (Some 1%nat, st')
    /\ trace st'
       = [ EvReplicate (py "data/b1/t1/t1_rapid.mp3") (py "Hola. Generalitat de Catalunya");
           EvReplicate (py "data/b1/t2/t2_rapid.mp3") (py "Hola. Generalitat de Catalunya");
           EvDump (py "data/b1/t2/t2_rapid.mp3_alignment.json") DumpOk;
           EvFfmpeg cmd (Some 0%Z);
           EvWriteRow (py "b1_t2_sentence1.mp3", py "Hola.") ].
Proof.
  do 2 eexists. split; vm_compute; reflexivity.
Qed.

(** C9 as stated fails.  An exception inside the extraction of the
    sentences (the word of the second record is a number) does not give the
    failure flag: the body of the extraction raises, the item returns
    [True] and no row is written.  Nor does a manifest that cannot be
    opened.  And a directory listing that raises is not contained: the
    walk ends there, the second topic is never visited, and
    [process_directory] reports 0. *)
Lemma failure_is_contained_counterexample :
  (exists st',
     segment_audio_file (sample_env 0 (Some number_response)) sample_segmenter
       (py "data/b1/t/topic_rapid.mp3") (Some (py "Hola.")) None (py "b1") (py "t")
       topic_state = (Some true, st')
     /\ fst (extract_body (sample_env 0 (Some number_response)) sample_segmenter
               (py "data/b1/t/topic_rapid.mp3") (py "b1") (py "t")
               (PyList hola_then_number) topic_state) = None
     /\ manifest st' = [])
  /\ (exists st',
        segment_audio_file (broken_env (Some hola_response)) sample_segmenter
          (py "data/b1/t/topic_rapid.mp3") (Some (py "Hola.")) None (py "b1") (py "t")
          topic_state = (Some true, st')
        /\ csv_open_ok (broken_env (Some hola_response)) (trace st') = false
        /\ manifest st' = [])
  /\ _process_directory_scan locked_env walk_segmenter false walk_state
     = (None, walk_state)
  /\ process_directory (sample_host None) locked_env walk_segmenter false walk_state
     = (Some 0%nat, walk_state).
Proof.
  split; [|split; [|split]].
  - eexists. split; [vm_compute; reflexivity|]. split; vm_compute; reflexivity.
  - eexists. split; [vm_compute; reflexivity|]. split; vm_compute; reflexivity.
  - vm_compute. reflexivity.
  - vm_compute. reflexivity.
Qed.

(** ** The preference for rapid audio files *)

Lemma filter_Forall_id {A} (P : A -> Prop) `{!forall x, Decision (P x)} (l : list A) :
  Forall P l -> filter P l = l.
Proof.
  induction 1 as [|x l Hx _ IH]; [done|].
  rewrite filter_cons_True by done. by rewrite IH.
Qed.

(** The walker over the directory tree: the audio files it chooses from
    are files of the listing that end with ".mp3"; when one of these is
    rapid by its name all the chosen ones are, and the others are chosen
    only when none is. *)
Lemma scan_prefers_rapid listing :
  (forall f, f ∈ scan_audio_files listing ->
             f ∈ listing /\ endswith f (py ".mp3") = true)
  /\ ((exists f, f ∈ listing /\ endswith f (py ".mp3") = true /\ is_rapid f = true) ->
      scan_audio_files listing <> []
      /\ forall f, f ∈ scan_audio_files listing -> is_rapid f = true)
  /\ ((forall f, f ∈ listing -> endswith f (py ".mp3") = true -> is_rapid f = false) ->
      scan_audio_files listing = filter (fun f => endswith f (py ".mp3") = true) listing).
Proof.
  unfold scan_audio_files.
  remember (filter (fun f => endswith f (py ".mp3") = true) listing) as all_files eqn:Hall.
  assert (Hin : forall f, f ∈ all_files <-> endswith f (py ".mp3") = true /\ f ∈ listing).
  { intros f. subst all_files. by rewrite list_elem_of_filter. }
  clear Hall.
  remember (filter (fun f => is_rapid f = true) all_files) as rapid_files eqn:Hrapid.
  assert (Hr : forall f, f ∈ rapid_files <-> is_rapid f = true /\ f ∈ all_files).
  { intros f. subst rapid_files. by rewrite list_elem_of_filter. }
  clear Hrapid.
  split; [|split].
  - intros f Hf.
    assert (f ∈ all_files) as Hf'.
    { destruct rapid_files; [by apply list_elem_of_filter in Hf as [_ ?]|].
      by apply Hr in Hf as [_ ?]. }
    apply Hin in Hf'. tauto.
  - intros (f & Hf & Hmp3 & Hrap).
    assert (f ∈ rapid_files) as Hfr by (apply Hr; split; [done|by apply Hin]).
    destruct rapid_files as [|r rs]; [by apply elem_of_nil in Hfr|].
    split; [done|]. intros g Hg. by apply Hr in Hg as [? _].
  - intros Hnone.
    destruct rapid_files as [|r rs].
    + apply filter_Forall_id, Forall_forall. intros f Hf.
      apply Hin in Hf as [Hmp3 Hf]. by apply Hnone.
    + assert (r ∈ r :: rs) as [Hrap Hrin]%Hr by apply list_elem_of_here.
      apply Hin in Hrin as [Hmp3 Hrin]. rewrite (Hnone r Hrin Hmp3) in Hrap. done.
Qed.

Example scan_prefers_rapid_example :
  scan_audio_files [py "topic_lent.mp3"; py "topic_rapid.mp3"] = [py "topic_rapid.mp3"].
Proof. vm_compute. reflexivity. Qed.

(** C8, where the code departs from it: in the walker over the index the
    test for "rapid" reads the whole path of an entry.  Under a directory
    named rapid_course both entries of the topic count as rapid, although
    only one file name holds the word; the slow file comes first, is
    processed, and the loop stops: the rapid file is never handed to the
    aligner.  The walker over the directory tree, which tests the file
    name, chooses the rapid file alone for the same two names. *)
Theorem index_tests_whole_path :
  is_rapid (basename (py "data/rapid_course/b1/t1/t1_lent.mp3")) = false
  /\ is_rapid (basename (py "data/rapid_course/b1/t1/t1_rapid.mp3")) = true
  /\ master_audio_files (sample_env 0 (Some hola_response)) (Some rapid_dir_entries)
       (py "data/rapid_course/b1/t1") rapid_dir_state
     = (Some [ py "data/rapid_course/b1/t1/t1_lent.mp3";
               py "data/rapid_course/b1/t1/t1_rapid.mp3" ], rapid_dir_state)
  /\ (exists st' cmd,
        master_audio_loop (sample_env 0 (Some hola_response)) sample_segmenter false
          (Some (py "Hola.")) None (py "b1") (py "t1")
          [ py "data/rapid_course/b1/t1/t1_lent.mp3";
            py "data/rapid_course/b1/t1/t1_rapid.mp3" ] 0 rapid_dir_state
        = (Some (1%nat, false), st')
        /\ trace st'
           = [ EvReplicate (py "data/rapid_course/b1/t1/t1_lent.mp3")
                 (py "Hola. Generalitat de Catalunya");
               EvDump (py "data/rapid_course/b1/t1/t1_lent.mp3_alignment.json") DumpOk;
               EvFfmpeg cmd (Some 0%Z);
               EvWriteRow (py "b1_t1_sentence1.mp3", py "Hola.") ])
  /\ scan_audio_files [py "t1_lent.mp3"; py "t1_rapid.mp3"] = [py "t1_rapid.mp3"].
Proof.
  split; [vm_compute; reflexivity|]. split; [vm_compute; reflexivity|].
  split; [vm_compute; reflexivity|]. split; [|vm_compute; reflexivity].
  do 2 eexists. split; vm_compute; reflexivity.
Qed.

(** ** The substitutions of [clean_transcript] *)

Lemma isspace_bounds c :
  isspace c = true ->
  c <= 32 \/ c = 133 \/ c = 160 \/ c = 5760 \/ (8192 <= c /\ c <= 8287) \/ c = 12288.
Proof.
  unfold isspace.
  rewrite !orb_true_iff, !andb_true_iff, !N.leb_le, !N.eqb_eq. lia.
Qed.

Lemma isspace_NL : isspace NL = true.
Proof. reflexivity. Qed.

Lemma dot_star_eol_inner u c v : dot_star_eol (u ++ NL :: c :: v) = None.
Proof.
  induction u as [|d u IH]; cbn [app dot_star_eol].
  - by rewrite N.eqb_refl.
  - destruct (N.eqb_spec d NL); [|done]. by destruct u.
Qed.

(** [.*$] takes the rest of the last line and leaves a final line feed. *)
Lemma dot_star_eol_end u e :
  NL ∉ u -> e = [] \/ e = [NL] -> dot_star_eol (u ++ e) = Some e.
Proof.
  intros Hnl He. induction u as [|c u IH].
  - by destruct He as [-> | ->].
  - cbn [app dot_star_eol]. destruct (N.eqb_spec c NL) as [->|_].
    + exfalso. apply Hnl, list_elem_of_here.
    + apply IH. intros Hin. apply Hnl. by apply list_elem_of_further.
Qed.

Lemma dot_star_eol_inv r : forall tail,
  dot_star_eol r = Some tail ->
  exists u, r = u ++ tail /\ (NL ∉ u) /\ (tail = [] \/ tail = [NL]).
Proof.
  induction r as [|c r IH]; intros tail Hr.
  - cbn in Hr. simplify_eq. exists []. split; [done|]. split; [|by left].
    intros Hin. by apply elem_of_nil in Hin.
  - cbn [dot_star_eol] in Hr. destruct (N.eqb_spec c NL) as [->|Hc].
    + destruct r; [|done]. simplify_eq. exists []. split; [done|]. split; [|by right].
      intros Hin. by apply elem_of_nil in Hin.
    + destruct (IH tail Hr) as (u & -> & Hnl & Htail).
      exists (c :: u). split; [done|]. split; [|done].
      intros [?|?]%elem_of_cons; [congruence|done].
Qed.

Lemma match_literal_spells ci p : forall l rest,
  spells ci p l -> match_literal ci p (l ++ rest) = Some rest.
Proof.
  induction p as [|b p IH]; intros l rest Hl.
  - inversion Hl. by destruct rest.
  - inversion Hl as [|? c ? l' Hc Hl']; subst. cbn [app match_literal].
    rewrite Hc. by apply IH.
Qed.

Lemma match_literal_inv ci p : forall s rest,
  match_literal ci p s = Some rest -> exists l, s = l ++ rest /\ spells ci p l.
Proof.
  induction p as [|b p IH]; intros s rest Hs.
  - exists []. cbn in Hs. destruct s; simplify_eq; (split; [done|constructor]).
  - destruct s as [|c s]; [done|]. cbn [match_literal] in Hs.
    destruct (char_match ci b c) eqn:Hc; [|done].
    destruct (IH s rest Hs) as (l & -> & Hl).
    exists (c :: l). split; [done|]. by constructor.
Qed.

Section Pattern.
Variables ws ci : bool.
Variable a : codepoint.
Variable label' : pystr.

Local Abbreviation label := (a :: label').
Local Abbreviation K := (fun s1 => r ← match_literal ci label s1; dot_star_eol r).
Local Abbreviation blank := (Forall (fun c => isspace c = true)).

(** No character of the label matches a line feed. *)
Hypothesis label_no_newline : Forall (fun b => char_match ci b NL = false) label.
(** The first character of the label matches no white space. *)
Hypothesis label_head_no_space : forall c, isspace c = true -> char_match ci a c = false.

Lemma literal_then_eol_none p : forall b x,
  Forall (fun b => char_match ci b NL = false) p -> x <> [] ->
  (r ← match_literal ci p (b ++ NL :: x); dot_star_eol r) = None.
Proof.
  induction p as [|q p IH]; intros b x Hp Hx.
  - cbn. destruct x as [|c v]; [done|]. apply dot_star_eol_inner.
  - apply Forall_cons in Hp as [Hq Hp].
    destruct b as [|d b]; cbn [app match_literal].
    + by rewrite Hq.
    + destruct (char_match ci q d); [|done]. by apply IH.
Qed.

(** The pattern finds nothing where a line feed with more text after it
    follows. *)
Lemma K_none b x : x <> [] -> K (b ++ NL :: x) = None.
Proof. intros Hx. by apply literal_then_eol_none. Qed.

Lemma K_head_mismatch c s : char_match ci a c = false -> K (c :: s) = None.
Proof. intros H. cbn. by rewrite H. Qed.

Lemma spells_head l :
  spells ci label l -> exists c0 l', l = c0 :: l' /\ isspace c0 = false.
Proof.
  intros Hl. inversion Hl as [|? c0 ? l' Hc Hl']; subst.
  exists c0, l'. split; [done|].
  destruct (isspace c0) eqn:Hsp; [|done].
  by rewrite (label_head_no_space c0 Hsp) in Hc.
Qed.

Lemma K_complete l u e :
  spells ci label l -> NL ∉ u -> e = [] \/ e = [NL] -> K (l ++ u ++ e) = Some e.
Proof.
  intros Hl Hu He. cbn beta. rewrite match_literal_spells by done.
  cbn. by apply dot_star_eol_end.
Qed.

Lemma K_inv s tail :
  K s = Some tail ->
  exists l u, s = l ++ u ++ tail /\ spells ci label l /\ (NL ∉ u)
              /\ (tail = [] \/ tail = [NL]).
Proof.
  cbn beta. intros Hs.
  destruct (match_literal ci label s) as [r|] eqn:Hlit; [|done]. cbn in Hs.
  apply match_literal_inv in Hlit as (l & -> & Hl).
  apply dot_star_eol_inv in Hs as (u & -> & Hu & Htail).
  by exists l, u.
Qed.

(** After a line feed the pattern takes the white space before the label,
    the label and the rest of the last line. *)
Lemma match_complete w l u e :
  blank w -> (ws = false -> w = []) ->
  spells ci label l -> NL ∉ u -> e = [] \/ e = [NL] ->
  match_after_newline ws ci label (w ++ l ++ u ++ e) = Some e.
Proof.
  intros Hw Hws Hl Hu He.
  pose proof (K_complete l u e Hl Hu He) as HK.
  unfold match_after_newline. destruct ws; [|by rewrite (Hws eq_refl)].
  induction Hw as [|c w Hc Hw IH].
  - cbn [app]. destruct (spells_head l Hl) as (c0 & l' & -> & Hc0).
    cbn [app match_ws_then]. by rewrite Hc0.
  - cbn [app match_ws_then]. by rewrite Hc, IH.
Qed.

Lemma match_ws_then_inv s : forall tail,
  match_ws_then K s = Some tail ->
  exists w s', s = w ++ s' /\ blank w /\ K s' = Some tail.
Proof.
  induction s as [|c s IH]; intros tail Hs.
  - by exists [], [].
  - cbn [match_ws_then] in Hs. destruct (isspace c) eqn:Hc.
    + destruct (match_ws_then K s) as [x|] eqn:Hrec.
      * simplify_eq. destruct (IH tail eq_refl) as (w & s' & -> & Hw & HK).
        exists (c :: w), s'. split; [done|]. split; [by constructor|done].
      * by exists [], (c :: s).
    + by exists [], (c :: s).
Qed.

Lemma match_inv s tail :
  match_after_newline ws ci label s = Some tail ->
  exists w l u,
    s = w ++ l ++ u ++ tail /\ blank w /\ (ws = false -> w = [])
    /\ spells ci label l /\ (NL ∉ u) /\ (tail = [] \/ tail = [NL]).
Proof.
  unfold match_after_newline. intros Hs. destruct ws.
  - apply match_ws_then_inv in Hs as (w & s' & -> & Hw & HK).
    apply K_inv in HK as (l & u & -> & Hl & Hu & Htail).
    by exists w, l, u.
  - apply K_inv in Hs as (l & u & -> & Hl & Hu & Htail).
    by exists [], l, u.
Qed.

(** After a line feed that is followed by a later line feed with more text
    the pattern finds nothing, unless only white space lies between the
    two. *)
Lemma match_none_inner a2 x :
  (ws = true -> ~ blank a2) -> x <> [] ->
  match_after_newline ws ci label (a2 ++ NL :: x) = None.
Proof.
  intros Ha2 Hx. unfold match_after_newline. destruct ws; [|by apply K_none].
  specialize (Ha2 eq_refl). induction a2 as [|c a2 IH]; [by destruct Ha2|].
  cbn [app match_ws_then].
  pose proof (K_none (c :: a2) x Hx) as HK. cbn [app] in HK. rewrite HK.
  destruct (isspace c) eqn:Hc; [|done].
  rewrite IH; [done|]. intros Hblank. apply Ha2. by constructor.
Qed.

(** A text that ends with a label line loses it. *)
Lemma sub_label_sound t b e :
  ends_with_label_line ws ci label t b e -> sub_label ws ci label t = b ++ e.
Proof.
  intros (w & l & u & -> & Hw & Hws & Hl & Hu & He & Hfirst).
  assert (Hne : w ++ l ++ u ++ e <> []).
  { destruct (spells_head l Hl) as (c0 & l' & -> & _). by destruct w. }
  induction b as [|c b IH].
  - cbn [app sub_label]. rewrite N.eqb_refl. by rewrite match_complete.
  - cbn [app sub_label]. rewrite IH; last first.
    { intros b' w' -> Hw'. by apply (Hfirst (c :: b') w'). }
    destruct (N.eqb_spec c NL) as [->|_]; [|done].
    rewrite match_none_inner; [done| |done].
    intros Hws' Hblank. specialize (Hfirst [] b eq_refl Hblank). congruence.
Qed.

Lemma ends_with_label_line_shorter t b e :
  ends_with_label_line ws ci label t b e -> (length (b ++ e) < length t)%nat.
Proof.
  intros (w & l & u & -> & _). rewrite !length_app. cbn. rewrite !length_app. lia.
Qed.

(** A text ends with a label line, or the substitution leaves it as it
    is. *)
Lemma sub_label_cases t :
  (exists b e, ends_with_label_line ws ci label t b e) \/ sub_label ws ci label t = t.
Proof.
  induction t as [|c r IH]; [by right|].
  cbn [sub_label].
  destruct (N.eqb_spec c NL) as [->|Hc].
  - destruct (match_after_newline ws ci label r) as [tail|] eqn:Hmatch.
    + left. apply match_inv in Hmatch as (w & l & u & -> & Hw & Hws & Hl & Hu & Htail).
      exists [], tail, w, l, u. repeat (split; [done|]).
      intros b' w' Heq. by destruct b'.
    + destruct IH as [(b & e & w & l & u & -> & Hw & Hws & Hl & Hu & He & Hfirst)|Hsame];
        [|right; by rewrite Hsame].
      left. exists (NL :: b), e, w, l, u. repeat (split; [done|]).
      intros b' w' Heq Hw'. destruct b' as [|c' b']; cbn in Heq; simplify_eq.
      * apply not_true_is_false. intros Htrue.
        assert (Heq : w' ++ NL :: w ++ l ++ u ++ e = (w' ++ NL :: w) ++ l ++ u ++ e)
          by (by rewrite <- app_assoc).
        rewrite Heq, match_complete in Hmatch; [done| |congruence|done|done|done].
        apply Forall_app. split; [done|]. by constructor.
      * by apply (Hfirst b' w').
  - destruct IH as [(b & e & w & l & u & -> & Hw & Hws & Hl & Hu & He & Hfirst)|Hsame];
      [|right; by rewrite Hsame].
    left. exists (c :: b), e, w, l, u. repeat (split; [done|]).
    intros b' w' Heq Hw'. destruct b' as [|c' b']; cbn in Heq; simplify_eq.
    by apply (Hfirst b' w').
Qed.

(** What the substitution does, said without the pattern. *)
Lemma sub_label_removes t t' :
  removes_label_line ws ci label t t' <-> sub_label ws ci label t = t'.
Proof.
  split.
  - intros [(b & e & Hends & ->)|[Hnone ->]]; [by apply sub_label_sound|].
    destruct (sub_label_cases t) as [(b & e & Hends)|?]; [|done].
    by destruct (Hnone b e).
  - intros <-. destruct (sub_label_cases t) as [(b & e & Hends)|Hsame].
    + left. exists b, e. split; [done|]. by apply sub_label_sound.
    + right. split; [|done]. intros b e Hends.
      pose proof (ends_with_label_line_shorter t b e Hends) as Hlen.
      apply sub_label_sound in Hends. rewrite Hsame in Hends. rewrite Hends in Hlen. lia.
Qed.

Lemma sub_label_plain y : NL ∉ y -> sub_label ws ci label y = y.
Proof.
  induction y as [|c y IH]; [done|]. intros Hnl.
  cbn [sub_label]. destruct (N.eqb_spec c NL) as [->|_].
  - exfalso. apply Hnl, list_elem_of_here.
  - rewrite IH; [done|]. intros Hin. apply Hnl. by apply list_elem_of_further.
Qed.
End Pattern.

(** *** The three labels *)

Ltac split_tests :=
  repeat match goal with
         | |- context [N.eqb ?x ?y] => is_var x; destruct (N.eqb_spec x y)
         | |- context [N.leb ?x ?y] => is_var x; destruct (N.leb_spec x y)
         | |- context [N.leb ?x ?y] => is_var y; destruct (N.leb_spec x y)
         end.

Lemma text_head_no_space c : isspace c = true -> char_match false 84 c = false.
Proof. intros H%isspace_bounds. cbn [char_match]. apply N.eqb_neq. lia. Qed.

Lemma author_head_no_space c : isspace c = true -> char_match true 65 c = false.
Proof.
  intros H%isspace_bounds. cbn [char_match]. unfold ignorecase_match, sre_lower.
  change (ascii_lower 65) with 97. unfold ascii_lower.
  revert H. split_tests; cbn; intros; try done; try lia;
    rewrite ?orb_false_r; apply N.eqb_neq; lia.
Qed.

Lemma source_head_no_space c : isspace c = true -> char_match true 83 c = false.
Proof.
  intros H%isspace_bounds. cbn [char_match]. unfold ignorecase_match, sre_lower.
  change (ascii_lower 83) with 115. unfold ascii_lower.
  revert H. split_tests; cbn; intros; try done; try lia;
    rewrite ?orb_false_r; apply N.eqb_neq; lia.
Qed.

Lemma text_no_newline : Forall (fun b => char_match false b NL = false) (py "Text:").
Proof. by repeat constructor. Qed.

Lemma author_no_newline : Forall (fun b => char_match true b NL = false) (py "Author:").
Proof. by repeat constructor. Qed.

Lemma source_no_newline : Forall (fun b => char_match true b NL = false) (py "Source:").
Proof. by repeat constructor. Qed.

Lemma sub_text_removes t t' :
  removes_label_line false false (py "Text:") t t' <-> sub_text t = t'.
Proof.
  apply (sub_label_removes false false 84 (py "ext:") text_no_newline text_head_no_space).
Qed.

Lemma sub_author_removes t t' :
  removes_label_line true true (py "Author:") t t' <-> sub_author t = t'.
Proof.
  apply (sub_label_removes true true 65 (py "uthor:") author_no_newline
           author_head_no_space).
Qed.

Lemma sub_source_removes t t' :
  removes_label_line true true (py "Source:") t t' <-> sub_source t = t'.
Proof.
  apply (sub_label_removes true true 83 (py "ource:") source_no_newline
           source_head_no_space).
Qed.

(** *** The shape of the result *)

Lemma collapse_spaced t : forall b, spaced b (collapse_from b t).
Proof.
  induction t as [|c t IH]; intros b; [done|].
  cbn [collapse_from]. destruct (isspace c) eqn:Hc.
  - destruct b; [apply IH|].
    cbn [spaced]. rewrite isspace_SP. split; [done|apply IH].
  - cbn [spaced]. rewrite Hc. split; [done|apply IH].
Qed.

Lemma spaced_weaken b l : spaced b l -> spaced false l.
Proof.
  destruct l as [|c l]; [done|]. cbn. intros [H1 H2]. split; [|done].
  intros Hc. by destruct (H1 Hc).
Qed.

Lemma spaced_suffix l1 : forall b l2, spaced b (l1 ++ l2) -> spaced false l2.
Proof.
  induction l1 as [|c l1 IH]; intros b l2 H.
  - by eapply spaced_weaken.
  - cbn in H. destruct H as [_ H]. by eapply IH.
Qed.

Lemma spaced_prefix l1 : forall b l2, spaced b (l1 ++ l2) -> spaced b l1.
Proof.
  induction l1 as [|c l1 IH]; intros b l2 H; [done|].
  cbn in H |- *. destruct H as [H1 H2]. split; [done|]. by eapply IH.
Qed.

Lemma lstrip_suffix s : exists l1, s = l1 ++ lstrip s.
Proof.
  induction s as [|c s [l1 IH]]; [by exists []|].
  cbn [lstrip]. destruct (isspace c); [|by exists []].
  exists (c :: l1). cbn. by rewrite <- IH.
Qed.

Lemma rstrip_prefix s : exists l2, s = rstrip s ++ l2.
Proof.
  unfold rstrip. destruct (lstrip_suffix (rev s)) as [l1 H].
  exists (rev l1). rewrite <- rev_app_distr, <- H. by rewrite rev_involutive.
Qed.

Lemma strip_spaced s : spaced false s -> spaced false (strip s).
Proof.
  intros H. unfold strip.
  destruct (lstrip_suffix s) as [l1 H1]. rewrite H1 in H. apply spaced_suffix in H.
  destruct (rstrip_prefix (lstrip s)) as [l2 H2]. rewrite H2 in H.
  by apply spaced_prefix in H.
Qed.

Lemma spaced_only_spaces l : forall b,
  spaced b l -> Forall (fun c => isspace c = true -> c = SP) l.
Proof.
  induction l as [|c l IH]; intros b H; [done|].
  cbn in H. destruct H as [H1 H2]. constructor; [|by eapply IH].
  intros Hc. by destruct (H1 Hc).
Qed.

Lemma spaced_no_double l b l1 l2 : spaced b l -> l <> l1 ++ SP :: SP :: l2.
Proof.
  intros H ->. apply spaced_suffix in H. cbn in H.
  destruct H as (_ & H & _). by destruct (H isspace_SP).
Qed.

Lemma lstrip_idem s : lstrip (lstrip s) = lstrip s.
Proof.
  induction s as [|c s IH]; [done|]. cbn [lstrip].
  destruct (isspace c) eqn:Hc; [done|]. cbn [lstrip]. by rewrite Hc.
Qed.

Lemma lstrip_head s c r : lstrip s = c :: r -> isspace c = false.
Proof.
  induction s as [|d s IH]; [done|]. cbn [lstrip].
  destruct (isspace d) eqn:Hd; [done|]. by intros [= <- _].
Qed.

Lemma strip_idem s : strip (strip s) = strip s.
Proof.
  unfold strip.
  assert (Hl : lstrip (rstrip (lstrip s)) = rstrip (lstrip s)).
  { destruct (rstrip_prefix (lstrip s)) as [l2 H2].
    destruct (rstrip (lstrip s)) as [|c r] eqn:Hr; [done|].
    cbn [app] in H2. apply lstrip_head in H2. cbn [lstrip]. by rewrite H2. }
  rewrite Hl. unfold rstrip. by rewrite rev_involutive, lstrip_idem.
Qed.

Lemma normalize_ws_shape t :
  (NL ∉ normalize_ws t)
  /\ Forall (fun c => isspace c = true -> c = SP) (normalize_ws t)
  /\ (forall l1 l2, normalize_ws t <> l1 ++ SP :: SP :: l2)
  /\ strip (normalize_ws t) = normalize_ws t.
Proof.
  assert (Hsp : spaced false (normalize_ws t)).
  { unfold normalize_ws, collapse_ws. apply strip_spaced, collapse_spaced. }
  pose proof (spaced_only_spaces _ _ Hsp) as Hall.
  split; [|split; [done|split]].
  - intros Hin. rewrite Forall_forall in Hall.
    by specialize (Hall NL Hin isspace_NL).
  - intros l1 l2. by eapply spaced_no_double.
  - unfold normalize_ws. apply strip_idem.
Qed.

(** ** Normalisation as splitting and joining *)

Lemma collapse_replace_newlines t : forall b,
  collapse_from b (replace_newlines t) = collapse_from b t.
Proof.
  induction t as [|c t IH]; intros b; [done|].
  unfold replace_newlines in *. cbn [map collapse_from].
  destruct (c =? NL) eqn:Hc.
  - apply N.eqb_eq in Hc. subst c. rewrite isspace_SP, isspace_NL.
    destruct b; by rewrite IH.
  - destruct (isspace c); [destruct b|]; by rewrite IH.
Qed.

Lemma split_from_collapse t : forall b cur,
  (b = true -> cur = []) ->
  split_from cur (collapse_from b t) = split_from cur t.
Proof.
  induction t as [|c t IH]; intros b cur Hb; [done|].
  cbn [collapse_from split_from]. destruct (isspace c) eqn:Hc.
  - destruct b.
    + rewrite (Hb eq_refl). by apply IH.
    + cbn [split_from]. rewrite isspace_SP.
      destruct cur; by rewrite IH.
  - cbn [split_from]. rewrite Hc. by apply IH.
Qed.

Lemma split_ws_normalize t : split_ws (normalize_ws t) = split_ws t.
Proof.
  unfold normalize_ws, collapse_ws. rewrite split_ws_strip, collapse_replace_newlines.
  unfold split_ws. by apply split_from_collapse.
Qed.

Lemma spaced_head c r : isspace c = false -> spaced false (c :: r) -> spaced true (c :: r).
Proof. cbn. intros Hc [_ H]. split; [by rewrite Hc|done]. Qed.

Lemma join_split_spaced s : forall cur,
  Forall (fun c => isspace c = false) cur ->
  spaced (bool_decide (cur = [])) s -> ends_plain s ->
  join_sp (split_from cur s) = cur ++ s.
Proof.
  induction s as [|c s IH]; intros cur Hcur Hsp Hend.
  - cbn. rewrite app_nil_r. by destruct cur.
  - cbn [split_from]. cbn [spaced] in Hsp. destruct Hsp as [Hc Hsp].
    destruct (isspace c) eqn:Hcs.
    + destruct (Hc eq_refl) as [-> Hcur0].
      destruct cur as [|c0 cur]; [done|].
      assert (Hs : s <> []).
      { intros ->. unfold ends_plain in Hend. cbn in Hend. congruence. }
      assert (Hend' : ends_plain s).
      { unfold ends_plain in *. destruct s; [done|]. done. }
      specialize (IH [] (Forall_nil_2 _) Hsp Hend'). cbn [app] in IH.
      cbn [join_sp]. rewrite IH. destruct (split_from [] s) eqn:Hsplit.
      * cbn in IH. congruence.
      * done.
    + assert (Hend' : ends_plain s).
      { unfold ends_plain in *. destruct s; [done|]. done. }
      rewrite IH; [by rewrite <- app_assoc| | |done].
      * apply Forall_app. split; [done|]. by constructor.
      * rewrite bool_decide_eq_false_2 by (by destruct cur). done.
Qed.

Lemma strip_ends_plain s : ends_plain (strip s).
Proof.
  unfold strip, rstrip, ends_plain.
  destruct (lstrip (rev (lstrip s))) as [|c r] eqn:H; [done|].
  apply lstrip_head in H. cbn [rev]. by rewrite last_snoc.
Qed.

Lemma strip_head s c r : strip s = c :: r -> isspace c = false.
Proof.
  intros H. pose proof (strip_idem s) as Hid. rewrite H in Hid.
  unfold strip in Hid.
  destruct (rstrip_prefix (lstrip (c :: r))) as [l2 H2]. rewrite Hid in H2.
  destruct (lstrip (c :: r)) as [|c' r'] eqn:Hl; [done|].
  pose proof (lstrip_head _ _ _ Hl) as Hc'.
  cbn in H2. by simplify_eq.
Qed.

(** [normalize_ws] is [' '.join(t.split())]. *)
Lemma normalize_ws_join_split t : normalize_ws t = join_sp (split_ws t).
Proof.
  rewrite <- (split_ws_normalize t).
  destruct (normalize_ws_shape t) as (_ & _ & _ & Hstrip).
  assert (Hsp : spaced false (normalize_ws t)).
  { unfold normalize_ws, collapse_ws. apply strip_spaced, collapse_spaced. }
  assert (Hend : ends_plain (normalize_ws t)) by apply strip_ends_plain.
  unfold split_ws. rewrite join_split_spaced; [done|done| |done].
  destruct (normalize_ws t) as [|c r] eqn:Hn; [done|].
  apply spaced_head; [|done]. unfold normalize_ws in Hn. by apply strip_head in Hn.
Qed.

Lemma sub_text_plain y : NL ∉ y -> sub_text y = y.
Proof. apply sub_label_plain. Qed.
Lemma sub_author_plain y : NL ∉ y -> sub_author y = y.
Proof. apply sub_label_plain. Qed.
Lemma sub_source_plain y : NL ∉ y -> sub_source y = y.
Proof. apply sub_label_plain. Qed.

Lemma clean_transcript_plain t : NL ∉ t -> clean_transcript t = join_sp (split_ws t).
Proof.
  intros H. unfold clean_transcript.
  rewrite sub_text_plain, sub_author_plain, sub_source_plain by done.
  apply normalize_ws_join_split.
Qed.

(** ** What [clean_transcript] removes *)

(** C4, as the code has it: three removals are made in turn, for the label
    "Text:" (in this letter case, directly after a line feed), then for
    "Author:", then for "Source:" (these two in any letter case, after
    optional white space).  Each removes a label line only when the text it
    is applied to ends with it, a final line feed apart: the line feed
    before the label (the first one of the white space before it), the
    label and the rest of the line go, and a final line feed stays; a text
    that does not end with such a line is left as it is.  The result is the
    words of what is left, joined by single spaces: it holds no line feed,
    its only white space is single spaces, and it is trimmed.  So a label
    line before an ordinary line stays, and label lines at the end go when
    their order is the one of the removals. *)
Theorem trailing_label_line :
  (forall t t', removes_label_line false false (py "Text:") t t' <-> sub_text t = t')
  /\ (forall t t', removes_label_line true true (py "Author:") t t' <-> sub_author t = t')
  /\ (forall t t', removes_label_line true true (py "Source:") t t' <-> sub_source t = t')
  /\ (forall raw,
      exists t1 t2 t3,
        removes_label_line false false (py "Text:") raw t1
        /\ removes_label_line true true (py "Author:") t1 t2
        /\ removes_label_line true true (py "Source:") t2 t3
        /\ clean_transcript raw = join_sp (split_ws t3))
  /\ (forall raw,
        (NL ∉ clean_transcript raw)
        /\ Forall (fun c => isspace c = true -> c = SP) (clean_transcript raw)
        /\ (forall l1 l2, clean_transcript raw <> l1 ++ SP :: SP :: l2)
        /\ strip (clean_transcript raw) = clean_transcript raw)
  /\ clean_transcript (py "Hola" ++ NL :: py "Author: X" ++ NL :: py "Adeu")
     = py "Hola Author: X Adeu"
  /\ clean_transcript (py "Hola" ++ NL :: py "Source: Y" ++ NL :: py "Author: X")
     = py "Hola"
  /\ clean_transcript (py "Hola" ++ NL :: py "Author: X" ++ NL :: py "Source: Y")
     = py "Hola Author: X".
Proof.
  split; [exact sub_text_removes|]. split; [exact sub_author_removes|].
  split; [exact sub_source_removes|]. split; [|split].
  - intros raw.
    exists (sub_text raw), (sub_author (sub_text raw)),
      (sub_source (sub_author (sub_text raw))).
    split; [by apply sub_text_removes|]. split; [by apply sub_author_removes|].
    split; [by apply sub_source_removes|]. apply normalize_ws_join_split.
  - intros raw. apply normalize_ws_shape.
  - repeat split; vm_compute; reflexivity.
Qed.

(** C4 as stated fails: a label line that is followed by a further line
    stays, and so does what follows it; and the first label is matched in
    its written case only. *)
Lemma trailing_label_line_counterexample :
  clean_transcript (py "Hola" ++ NL :: py "Author: X" ++ NL :: py "Adeu")
  = py "Hola Author: X Adeu"
  /\ clean_transcript (py "Hola" ++ NL :: py "Source: X" ++ NL :: py "Adeu")
     = py "Hola Source: X Adeu"
  /\ clean_transcript (py "Hola" ++ NL :: py "text: X") = py "Hola text: X".
Proof. repeat split; vm_compute; reflexivity. Qed.

(** A last line with a label goes with the blank lines before it, and a
    final line feed does not keep it. *)
Example trailing_label_line_example :
  clean_transcript (py "Hola" ++ NL :: NL :: py "  AUTHOR: X" ++ [NL]) = py "Hola"
  /\ sub_author (py "Hola" ++ NL :: NL :: py "  AUTHOR: X" ++ [NL]) = py "Hola" ++ [NL]
  /\ clean_transcript (py "Hola" ++ NL :: py "Text: S" ++ [NL; NL])
     = py "Hola Text: S".
Proof. repeat split; vm_compute; reflexivity. Qed.

(** X1: what [clean_transcript] does after the label lines are gone is
    [' '.join(t.split())]: the result is the words of the text (its runs
    between white space), in order, joined by single spaces.  A text without
    line feed loses no label line, so its result is its own words joined;
    and in every case the result has the words of the text that the three
    substitutions leave. *)
Theorem clean_transcript_joins_words :
  (forall t,
     clean_transcript t = join_sp (split_ws (sub_source (sub_author (sub_text t)))))
  /\ (forall t, NL ∉ t -> clean_transcript t = join_sp (split_ws t))
  /\ (forall t,
        split_ws (clean_transcript t) = split_ws (sub_source (sub_author (sub_text t)))).
Proof.
  split; [|split].
  - intros t. apply normalize_ws_join_split.
  - apply clean_transcript_plain.
  - intros t. apply split_ws_normalize.
Qed.

(** X2: cleaning is idempotent: a cleaned transcript is left as it is by a
    second cleaning. *)
Theorem clean_transcript_idempotent :
  forall t, clean_transcript (clean_transcript t) = clean_transcript t.
Proof.
  intros t.
  destruct (normalize_ws_shape (sub_source (sub_author (sub_text t)))) as (Hnl & _).
  fold (clean_transcript t) in Hnl.
  rewrite clean_transcript_plain by done.
  unfold clean_transcript at 1 2. by rewrite split_ws_normalize, <- normalize_ws_join_split.
Qed.

(** ** The entries of any input *)

Lemma py_inj s1 s2 : py s1 = py s2 -> s1 = s2.
Proof.
  unfold py. intros H.
  rewrite <- (string_of_list_ascii_of_string s1), <- (string_of_list_ascii_of_string s2).
  f_equal. revert H. generalize (list_ascii_of_string s1) (list_ascii_of_string s2).
  intros l1. induction l1 as [|a l1 IH]; intros [|b l2] H; try done.
  cbn in H. injection H as Hab H. f_equal; [|by apply IH].
  rewrite <- (ascii_N_embedding a), <- (ascii_N_embedding b). by rewrite Hab.
Qed.

Lemma str_of_nat_inj n m : str_of_nat n = str_of_nat m -> n = m.
Proof.
  unfold str_of_nat. intros H%py_inj.
  assert (Hu : Nat.to_uint n = Nat.to_uint m).
  { apply (f_equal NilEmpty.uint_of_string) in H. rewrite !NilEmpty.usu in H. congruence. }
  by apply Unsigned.to_uint_inj.
Qed.

Lemma clip_name_inj E level topic k k' :
  clip_name E level topic k = clip_name E level topic k' -> k = k'.
Proof.
  unfold clip_name. intros H.
  do 4 apply app_inv_head in H. apply app_inv_tail in H. by apply str_of_nat_inj.
Qed.

Lemma lstrip_app_plain x c r :
  isspace c = false -> lstrip (x ++ c :: r) = lstrip x ++ c :: r.
Proof.
  intros Hc. induction x as [|c0 x IH]; cbn [app lstrip].
  - by rewrite Hc.
  - destruct (isspace c0); [done|]. done.
Qed.

Lemma strip_mark x c :
  isspace c = false -> strip (x ++ [c; SP]) = lstrip x ++ [c].
Proof.
  intros Hc. unfold strip. rewrite lstrip_app_plain by done.
  unfold rstrip. rewrite rev_app_distr. cbn [rev app lstrip].
  rewrite isspace_SP, Hc. cbn [rev]. by rewrite rev_involutive.
Qed.

Lemma ends_sentence_mark word :
  ends_sentence word = true ->
  exists w c, word = w ++ [c] /\ (c = DOT \/ c = BANG \/ c = QUERY).
Proof.
  unfold ends_sentence, endswith. intros H.
  destruct (rev word) as [|c r] eqn:Hrev; [done|].
  exists (rev r), c. split.
  - rewrite <- (rev_involutive word), Hrev. done.
  - cbn [rev app startswith] in H. rewrite !startswith_nil, !andb_true_r in H.
    apply orb_true_iff in H as [H|H]; [apply orb_true_iff in H as [H|H]|];
      apply N.eqb_eq in H; subst c; auto.
Qed.

Section EntryFacts.
Variable E : Env.
Variable self : segmenter.
Variables audio_file_path level topic : pystr.

Local Abbreviation emit := (emit_sentence E self audio_file_path level topic).
Local Abbreviation step := (segment_step E self audio_file_path level topic).
Local Abbreviation loop := (segment_loop E self audio_file_path level topic).
Local Abbreviation cuts := (cut_all E audio_file_path).
Local Abbreviation entry_at := (entry_at E self level topic).
Local Abbreviation entries_from := (entries_from E self level topic).

Lemma emit_sentence_cases s cs ct st :
  emit s cs ct st = (None, st)
  \/ exists e, emit s cs ct st = (Some (s ++ [e]), cuts [e] st) /\ entry_at (length s) ct e.
Proof.
  unfold emit_sentence, bind, lift.
  destruct (head cs) as [first|]; [|by left].
  destruct (last cs) as [lastw|]; [|by left].
  destruct (py_get first "start" (PyInt 0)) as [sv|]; [|by left].
  destruct (py_float E sv) as [sstart|]; [|by left].
  destruct (py_get lastw "end" (PyInt 0)) as [ev|]; [|by left].
  destruct (py_float E ev) as [send|]; [|by left].
  rewrite extract_audio_segment_run. unfold ret.
  right. eexists (Build_sentence _ _ _ _ _). split; [reflexivity|]. done.
Qed.

Lemma entries_from_nil n : entries_from n [].
Proof. intros k e H. done. Qed.

Lemma entries_from_cons n ct e extra :
  entry_at n ct e -> entries_from (S n) extra -> entries_from n (e :: extra).
Proof.
  intros (Hn & Hp & Ht) Hrest [|k] e' H; cbn in H.
  - simplify_eq. rewrite Nat.add_0_r. split; [done|]. split; [done|].
    rewrite Ht. apply strip_idem.
  - destruct (Hrest k e' H) as (Hn' & Hrest'). split; [|done].
    rewrite Hn'. f_equal. lia.
Qed.

Lemma segment_loop_entries l : forall s cs ct st,
  exists extra,
    snd (loop (s, cs, ct) l st) = cuts extra st
    /\ entries_from (length s) extra
    /\ Forall (fun e => ends_with_mark (transcript e)) extra
    /\ forall r, fst (loop (s, cs, ct) l st) = Some r -> r.1.1 = s ++ extra.
Proof.
  induction l as [|w l IH]; intros s cs ct st.
  - exists []. cbn. split; [done|]. split; [apply entries_from_nil|]. split; [done|].
    intros r [= <-]. cbn. by rewrite app_nil_r.
  - cbn [segment_loop]. unfold segment_step, bind, lift.
    destruct (py_get w "word" (PyStr [])) as [wv|].
    2: { exists []. split; [done|]. split; [apply entries_from_nil|]. done. }
    destruct (str_of_word wv) as [word|].
    2: { exists []. split; [done|]. split; [apply entries_from_nil|]. done. }
    destruct (ends_sentence word) eqn:Hend.
    + destruct (emit_sentence_cases s (cs ++ [w]) (ct ++ word ++ [SP]) st)
        as [Hemit|(e & Hemit & He)]; rewrite Hemit.
      { exists []. split; [done|]. split; [apply entries_from_nil|]. done. }
      unfold ret at 1.
      destruct (IH (s ++ [e]) [] [] (cuts [e] st)) as (extra & Hst & Hnames & Hmarks & Hval).
      exists (e :: extra). split; [by rewrite Hst|]. split.
      * eapply entries_from_cons; [exact He|].
        rewrite length_app, Nat.add_1_r in Hnames. done.
      * split.
        -- constructor; [|done]. destruct He as (_ & _ & ->).
           apply ends_sentence_mark in Hend as (w' & c & -> & Hc).
           rewrite <- !app_assoc. cbn [app].
           change (ct ++ w' ++ [c; SP]) with (ct ++ w' ++ [c; SP]).
           rewrite (app_assoc ct w'). rewrite strip_mark.
           ++ by eexists _, c.
           ++ by destruct Hc as [->|[->| ->]].
        -- intros r Hr. rewrite (Hval r Hr). by rewrite <- app_assoc.
    + unfold ret at 1. apply IH.
Qed.

Lemma segment_words_entries l st :
  exists done,
    snd (segment_words E self audio_file_path level topic l st) = cuts done st
    /\ entries_from 0 done
    /\ (forall k e, done !! k = Some e -> (S k < length done)%nat ->
                    ends_with_mark (transcript e))
    /\ forall out, fst (segment_words E self audio_file_path level topic l st) = Some out ->
                   out = done.
Proof.
  unfold segment_words. unfold bind.
  destruct (segment_loop_entries l [] [] [] st) as (extra & Hst & Hnames & Hmarks & Hval).
  destruct (loop ([], [], []) l st) as [[[[s cs] ct]|] st1] eqn:Hloop; cbn in Hst, Hval.
  2: { exists extra. split; [done|]. split; [done|]. split; [|done].
       intros k e Hk _. rewrite Forall_forall in Hmarks. apply Hmarks.
       by eapply list_elem_of_lookup_2. }
  specialize (Hval _ eq_refl). cbn in Hval. subst s st1.
  assert (Hall : forall k e, extra !! k = Some e -> ends_with_mark (transcript e)).
  { intros k e Hk. rewrite Forall_forall in Hmarks. apply Hmarks.
    by eapply list_elem_of_lookup_2. }
  destruct cs as [|c cs].
  { exists extra. cbn. split; [done|]. split; [done|]. split; [|by intros out [= <-]].
    intros k e Hk _. by eapply Hall. }
  destruct (emit_sentence_cases extra (c :: cs) ct (cuts extra st))
    as [Hemit|(e & Hemit & He)]; rewrite Hemit.
  { exists extra. cbn. split; [done|]. split; [done|]. split; [|done].
    intros k e Hk _. by eapply Hall. }
  exists (extra ++ [e]). cbn [fst snd]. split; [by rewrite cut_all_app|]. split.
  - intros k e' Hk. apply lookup_app_Some in Hk as [Hk|[Hlen Hk]].
    + by apply Hnames.
    + apply list_lookup_singleton_Some in Hk as [Hk0 ->].
      destruct He as (Hn & Hp & Ht). split.
      * rewrite Hn. f_equal. cbn. lia.
      * split; [done|]. rewrite Ht. apply strip_idem.
  - split; [|by intros out [= <-]].
    intros k e' Hk Hlt. rewrite length_app in Hlt. cbn in Hlt.
    apply lookup_app_Some in Hk as [Hk|[Hlen Hk]]; [by eapply Hall|].
    apply list_lookup_singleton_Some in Hk as [Hk0 _]. lia.
Qed.

(** Whatever the input: the state is left by the cuts of the entries made,
    and the entries handed back are these, or none. *)
Lemma extract_sentences_entries alignment_result st :
  exists done out,
    _extract_sentences_ffmpeg E self audio_file_path level topic alignment_result st
      = (Some out, cuts done st)
    /\ (out = done \/ out = [])
    /\ entries_from 0 done
    /\ (forall k e, done !! k = Some e -> (S k < length done)%nat ->
                    ends_with_mark (transcript e)).
Proof.
  unfold _extract_sentences_ffmpeg, try_except, extract_body.
  destruct alignment_result as [| | | | |l|];
    try (exists [], []; cbn; split; [done|]; split; [by left|];
         split; [apply entries_from_nil|done]).
  unfold bind at 1, lift at 1.
  destruct (find_generalitat 0 l) as [idx|].
  2: { exists [], []. cbn. split; [done|]. split; [by left|].
       split; [apply entries_from_nil|done]. }
  set (l' := take _ l).
  destruct (segment_words_entries l' st) as (done & Hst & Hnames & Hmarks & Hval).
  destruct (segment_words E self audio_file_path level topic l' st) as [[out|] st1];
    cbn in Hst, Hval; subst st1.
  - rewrite (Hval out eq_refl). exists done, done. split; [done|]. split; [by left|]. done.
  - exists done, []. unfold ret. split; [done|]. split; [by right|]. done.
Qed.
End EntryFacts.

Lemma path_exists_mono E p st st' :
  present st ⊆ present st' -> path_exists E p st = true -> path_exists E p st' = true.
Proof.
  unfold path_exists. intros Hsub Hin. apply bool_decide_eq_true in Hin.
  apply bool_decide_eq_true. by apply Hsub.
Qed.

Lemma path_exists_earlier E p st st' :
  present st ⊆ present st' -> path_exists E p st' = false -> path_exists E p st = false.
Proof.
  intros Hsub Hno. destruct (path_exists E p st) eqn:Hex; [|done].
  by rewrite (path_exists_mono E p st st' Hsub Hex) in Hno.
Qed.

Lemma path_exists_created E p st : path_exists E p (create_file E p st) = true.
Proof.
  unfold path_exists, create_file. cbn. apply bool_decide_eq_true.
  apply elem_of_union. left. by apply elem_of_singleton.
Qed.


(** X4: the clips of one audio file are numbered from 1 in the order of
    the entries: the k-th entry is named
    [<level>_<sanitized topic>_sentence<k>.mp3], its path is that name
    joined to the audio output directory, and no two entries of one call
    share a name. *)
Theorem clip_names_are_numbered :
  forall E self audio_file_path level topic alignment_result st,
  exists out,
    fst (_extract_sentences_ffmpeg E self audio_file_path level topic alignment_result st)
      = Some out
    /\ (forall k e, out !! k = Some e ->
          filename e = clip_name E level topic (k + 1)
          /\ filepath e = path_join (audio_output_dir self) (filename e))
    /\ NoDup (map filename out).
Proof.
  intros E self a lv tp v st.
  destruct (extract_sentences_entries E self a lv tp v st)
    as (done & out & Hrun & Hout & Hnames & _).
  exists out. rewrite Hrun. split; [done|].
  assert (Hnames' : forall k e, out !! k = Some e ->
            filename e = clip_name E lv tp (k + 1)
            /\ filepath e = path_join (audio_output_dir self) (filename e)).
  { destruct Hout as [-> | ->]; [|done].
    intros k e Hk. destruct (Hnames k e Hk) as (Hn & Hp & _). done. }
  split; [done|].
  apply NoDup_alt. intros i j x Hi Hj.
  change (map filename out) with (filename <$> out) in Hi, Hj.
  apply list_lookup_fmap_Some in Hi as (ei & -> & Hi).
  apply list_lookup_fmap_Some in Hj as (ej & Heq & Hj).
  destruct (Hnames' i ei Hi) as [Hni _]. destruct (Hnames' j ej Hj) as [Hnj _].
  rewrite Hni, Hnj in Heq. apply clip_name_inj in Heq. lia.
Qed.

(** X5: the scan for the marker reads the records before it splits them:
    when a record that is no mapping follows records that are mappings
    whose word is not "Generalitat", nothing is cut and no entry is
    returned, whatever the records before and after it hold. *)
Theorem malformed_record_cuts_nothing :
  forall E self audio_file_path level topic pre v post st,
    Forall (fun r => exists d, r = PyDict d
                               /\ d !! "word" <> Some (PyStr (py "Generalitat"))) pre ->
    (forall d, v <> PyDict d) ->
    _extract_sentences_ffmpeg E self audio_file_path level topic
      (PyList (pre ++ v :: post)) st = (Some [], st).
Proof.
  intros E self a lv tp pre v post st Hpre Hv.
  assert (Hscan : forall k, find_generalitat k (pre ++ v :: post) = None).
  { induction Hpre as [|r pre (d & -> & Hd) _ IH]; intros k.
    - cbn [app]. rewrite find_generalitat_unfold. unfold word_is.
      destruct v; try done. by destruct (Hv d).
    - cbn [app]. rewrite find_generalitat_unfold. unfold word_is. cbn [py_get mbind option_bind].
      assert (Hne : py_eq_str (default PyNone (d !! "word")) (py "Generalitat") = false).
      { destruct (d !! "word") as [[]|]; cbn; try done.
        apply bool_decide_eq_false. intros ->. done. }
      cbn. rewrite Hne. apply IH. }
  unfold _extract_sentences_ffmpeg, try_except, extract_body, bind, lift.
  by rewrite Hscan.
Qed.

(** [malformed_record_cuts_nothing] on a sentence followed by a string
    where a record is expected. *)
Lemma malformed_record_cuts_nothing_witness :
  _extract_sentences_ffmpeg (sample_env 0 None) sample_segmenter (py "a/b.mp3")
    (py "b1") (py "t")
    (PyList ([PyDict {[ "word" := PyStr (py "Hola.") ]}] ++ PyStr (py "adeu") :: []))
    empty_state = (Some [], empty_state).
Proof.
  apply (malformed_record_cuts_nothing (sample_env 0 None) sample_segmenter (py "a/b.mp3")
           (py "b1") (py "t") [PyDict {[ "word" := PyStr (py "Hola.") ]}]
           (PyStr (py "adeu")) [] empty_state).
  - constructor; [|constructor]. eexists. split; [reflexivity|].
    vm_compute. discriminate.
  - intros d. discriminate.
Defined.

(** X6: the text of every entry is trimmed, and the text of every entry
    but the last ends with a full stop, an exclamation mark or a question
    mark: only the entry of the words left over at the end may end
    otherwise. *)
Theorem entry_texts_end_with_mark :
  forall E self audio_file_path level topic alignment_result st,
  exists out,
    fst (_extract_sentences_ffmpeg E self audio_file_path level topic alignment_result st)
      = Some out
    /\ forall k e, out !! k = Some e ->
         strip (transcript e) = transcript e
         /\ ((S k < length out)%nat -> ends_with_mark (transcript e)).
Proof.
  intros E self a lv tp v st.
  destruct (extract_sentences_entries E self a lv tp v st)
    as (done & out & Hrun & Hout & Hnames & Hmarks).
  exists out. rewrite Hrun. split; [done|].
  destruct Hout as [-> | ->]; [|done].
  intros k e Hk. split; [by destruct (Hnames k e Hk) as (_ & _ & ?)|].
  intros Hlt. by eapply Hmarks.
Qed.

(** ** Events of a run *)

Lemma rows_of_app evs1 evs2 : rows_of (evs1 ++ evs2) = rows_of evs1 ++ rows_of evs2.
Proof. induction evs1 as [|[] evs1 IH]; cbn; by rewrite ?IH. Qed.

Lemma count_ok_app evs1 evs2 : count_ok (evs1 ++ evs2) = (count_ok evs1 + count_ok evs2)%nat.
Proof. induction evs1 as [|[? ?|? []|? ?|?] evs1 IH]; cbn; by rewrite ?IH. Qed.

Lemma replicated_app evs1 evs2 : replicated (evs1 ++ evs2) = replicated evs1 ++ replicated evs2.
Proof. induction evs1 as [|[] evs1 IH]; cbn; by rewrite ?IH. Qed.

Lemma cut_or_row_quiet evs :
  Forall cut_or_row evs -> count_ok evs = 0%nat /\ replicated evs = [].
Proof.
  induction 1 as [|e evs He _ [IH1 IH2]]; [done|].
  destruct e; cbn; try done; by destruct He.
Qed.

Lemma app_eq_middle {A} (l1 l2 k1 k2 : list A) x :
  l1 ++ l2 = k1 ++ x :: k2 ->
  (exists m, l1 = k1 ++ x :: m /\ k2 = m ++ l2)
  \/ (exists m, k1 = l1 ++ m /\ l2 = m ++ x :: k2).
Proof.
  revert k1. induction l1 as [|a l1 IH]; intros k1 Heq.
  - right. by exists k1.
  - destruct k1 as [|b k1]; cbn in Heq; injection Heq as -> Heq.
    + left. by exists l1.
    + destruct (IH k1 Heq) as [(m & -> & ->)|(m & -> & ->)].
      * left. by exists m.
      * right. by exists m.
Qed.

Lemma quiet_after_ok_nil : quiet_after_ok [].
Proof. intros l1 f l2 Heq. by destruct l1. Qed.

Lemma count_ok_middle l1 f l2 : (0 < count_ok (l1 ++ EvDump f DumpOk :: l2))%nat.
Proof. rewrite count_ok_app. cbn. lia. Qed.

(** Events without a dump that succeeded, then events that are quiet. *)
Lemma quiet_after_ok_later evs1 evs2 :
  count_ok evs1 = 0%nat -> quiet_after_ok evs2 -> quiet_after_ok (evs1 ++ evs2).
Proof.
  intros Hc Hq l1 f l2 Heq.
  destruct (app_eq_middle _ _ _ _ _ Heq) as [(m & -> & _)|(m & _ & ->)].
  - pose proof (count_ok_middle l1 f m). lia.
  - by eapply Hq.
Qed.

(** Quiet events, then events without a call of the aligner. *)
Lemma quiet_after_ok_then evs1 evs2 :
  quiet_after_ok evs1 -> replicated evs2 = [] -> quiet_after_ok (evs1 ++ evs2).
Proof.
  intros Hq Hr l1 f l2 Heq.
  destruct (app_eq_middle _ _ _ _ _ Heq) as [(m & -> & ->)|(m & _ & ->)].
  - rewrite replicated_app, Hr, app_nil_r. by eapply Hq.
  - rewrite replicated_app in Hr. cbn in Hr. by apply app_eq_nil in Hr as [_ ?].
Qed.

(** ** The manifest grows by a prefix of the rows *)

Lemma write_rows_prefix E sentences : forall st,
  exists k,
    (k <= length sentences)%nat
    /\ present (snd (write_rows E sentences st)) = present st
    /\ manifest (snd (write_rows E sentences st))
       = manifest st ++ map row_of (take k sentences)
    /\ trace (snd (write_rows E sentences st))
       = trace st ++ map (fun s => EvWriteRow (row_of s)) (take k sentences)
    /\ match fst (write_rows E sentences st) with
       | Some _ => k = length sentences
       | None =>
           exists s, sentences !! k = Some s
             /\ csv_writerow_ok E
                  (trace st ++ map (fun s => EvWriteRow (row_of s)) (take k sentences))
                  (row_of s) = false
       end.
Proof.
  induction sentences as [|s rest IH]; intros st.
  - exists 0%nat. cbn. by rewrite !app_nil_r.
  - destruct (csv_writerow_ok E (trace st) (row_of s)) eqn:Hok.
    + set (st1 := log_event (EvWriteRow (row_of s)) (append_row (row_of s) st)).
      assert (Hrun : write_rows E (s :: rest) st = write_rows E rest st1).
      { cbn [write_rows]. unfold bind, get_trace, modify.
        change (filename s, transcript s) with (row_of s). by rewrite Hok. }
      rewrite Hrun.
      destruct (IH st1) as (k & Hk & Hp & Hm & Ht & Hres).
      exists (S k). split; [cbn; lia|]. split; [by rewrite Hp|].
      split; [rewrite Hm; cbn; by rewrite <- app_assoc|].
      split; [rewrite Ht; cbn; by rewrite <- app_assoc|].
      destruct (fst (write_rows E rest st1)); [cbn; by rewrite Hres|].
      destruct Hres as (s' & Hs' & Hfail). exists s'. split; [done|].
      cbn [take map]. cbn [trace log_event append_row st1] in Hfail.
      by rewrite <- app_assoc in Hfail.
    + assert (Hrun : write_rows E (s :: rest) st = (None, st)).
      { cbn [write_rows]. unfold bind, get_trace, raise.
        change (filename s, transcript s) with (row_of s). by rewrite Hok. }
      rewrite Hrun. exists 0%nat. cbn. rewrite !app_nil_r.
      split; [lia|]. split; [done|]. split; [done|]. split; [done|]. by exists s.
Qed.

Lemma save_segments_prefix E self sentences st :
  exists b k st',
    _save_segments_to_csv E self sentences st = (Some b, st')
    /\ present st' = (if csv_open_ok E (trace st)
                      then {[ realpath E (csv_output_file self) ]} ∪ present st
                      else present st)
    /\ manifest st' = manifest st ++ map row_of (take k sentences)
    /\ trace st' = trace st ++ map (fun s => EvWriteRow (row_of s)) (take k sentences)
    /\ (b = true -> k = length sentences)
    /\ (b = false ->
        (csv_open_ok E (trace st) = false /\ k = 0%nat)
        \/ exists s, sentences !! k = Some s
             /\ csv_writerow_ok E
                  (trace st ++ map (fun s => EvWriteRow (row_of s)) (take k sentences))
                  (row_of s) = false).
Proof.
  unfold _save_segments_to_csv, try_except. unfold bind at 1, get_trace.
  destruct (csv_open_ok E (trace st)) eqn:Hopen.
  - unfold bind at 1, modify at 1.
    destruct (write_rows_prefix E sentences (create_file E (csv_output_file self) st))
      as (k & Hk & Hp & Hm & Ht & Hres).
    unfold bind.
    destruct (write_rows E sentences (create_file E (csv_output_file self) st))
      as [[[]|] st1]; cbn in *.
    + exists true, k, st1. unfold ret. done.
    + exists false, k, st1. unfold ret. split; [done|]. split; [done|]. split; [done|].
      split; [done|]. split; [done|]. intros _. by right.
  - exists false, 0%nat, st. unfold raise, ret. cbn. rewrite !app_nil_r.
    split; [done|]. split; [done|]. split; [done|]. split; [done|]. split; [done|].
    intros _. by left.
Qed.

(** ** The files that cuts leave *)

Global Instance cuts_leave_preorder E : PreOrder (cuts_leave E).
Proof.
  split.
  - intros st. exists []. rewrite app_nil_r. split; [done|]. intros p Hp. by left.
  - intros st1 st2 st3 (evs1 & Ht1 & Hn1) (evs2 & Ht2 & Hn2).
    exists (evs1 ++ evs2). split; [by rewrite Ht2, Ht1, app_assoc|].
    intros p Hp. destruct (Hn2 p Hp) as [Hin|(cmd & rc & Hin & ->)].
    + destruct (Hn1 p Hin) as [?|(cmd & rc & Hin1 & ->)]; [by left|].
      right. exists cmd, rc. split; [|done]. apply elem_of_app. by left.
    + right. exists cmd, rc. split; [|done]. apply elem_of_app. by right.
Qed.

Lemma extract_audio_segment_leaves E i o s d :
  run_rel (cuts_leave E) (_extract_audio_segment E i o s d).
Proof.
  intros st. rewrite extract_audio_segment_run. cbn [snd].
  eexists [_]. split; [apply after_cut_trace|].
  intros p Hp. apply (proj2 (after_cut_present _ _ _)), elem_of_union in Hp as [Hp|Hp];
    [|by left].
  right. apply elem_of_singleton in Hp. eexists _, _. split; [apply list_elem_of_here|done].
Qed.

Section LeavesFacts.
Variable E : Env.
Variable self : segmenter.
Variables audio_file_path level topic : pystr.

Lemma emit_sentence_leaves s cs ct :
  run_rel (cuts_leave E) (emit_sentence E self audio_file_path level topic s cs ct).
Proof.
  unfold emit_sentence.
  repeat (apply run_rel_bind; [apply _|apply run_rel_lift, _|intros ?]).
  apply run_rel_bind; [apply _|apply extract_audio_segment_leaves|intros ?].
  apply run_rel_ret, _.
Qed.

Lemma segment_loop_leaves l : forall acc,
  run_rel (cuts_leave E) (segment_loop E self audio_file_path level topic acc l).
Proof.
  induction l as [|w l IH]; intros acc; cbn [segment_loop]; [apply run_rel_ret, _|].
  apply run_rel_bind; [apply _| |apply IH].
  destruct acc as [[s cs] ct]. unfold segment_step.
  repeat (apply run_rel_bind; [apply _|apply run_rel_lift, _|intros ?]).
  destruct (ends_sentence _); [|apply run_rel_ret, _].
  apply run_rel_bind; [apply _|apply emit_sentence_leaves|intros ?].
  apply run_rel_ret, _.
Qed.

(** The paths that appear during [_extract_sentences_ffmpeg] are output
    files of its cuts. *)
Lemma extract_sentences_leaves alignment_result :
  run_rel (cuts_leave E)
    (_extract_sentences_ffmpeg E self audio_file_path level topic alignment_result).
Proof.
  unfold _extract_sentences_ffmpeg.
  apply run_rel_try; [apply _| |apply run_rel_ret, _].
  unfold extract_body. destruct alignment_result; try apply run_rel_ret, _.
  apply run_rel_bind; [apply _|apply run_rel_lift, _|intros idx].
  unfold segment_words.
  apply run_rel_bind; [apply _|apply segment_loop_leaves|intros [[s cs] ct]].
  destruct cs; [apply run_rel_ret, _|apply emit_sentence_leaves].
Qed.
End LeavesFacts.

Lemma created_app_l E self evs1 evs2 p :
  created E self evs1 p -> created E self (evs1 ++ evs2) p.
Proof.
  intros [(a & Ha & ->)|[(cmd & rc & Hin & ->)|[Hc ->]]].
  - left. exists a. split; [|done]. rewrite replicated_app. apply elem_of_app. by left.
  - right. left. exists cmd, rc. split; [|done]. apply elem_of_app. by left.
  - right. right. split; [|done]. rewrite count_ok_app. lia.
Qed.

Lemma created_app_r E self evs1 evs2 p :
  created E self evs2 p -> created E self (evs1 ++ evs2) p.
Proof.
  intros [(a & Ha & ->)|[(cmd & rc & Hin & ->)|[Hc ->]]].
  - left. exists a. split; [|done]. rewrite replicated_app. apply elem_of_app. by right.
  - right. left. exists cmd, rc. split; [|done]. apply elem_of_app. by right.
  - right. right. split; [|done]. rewrite count_ok_app. lia.
Qed.

(** ** What one call of [segment_audio_file] leaves *)

Lemma run_alignment_summary E a t st :
  exists r st' evs,
    run_alignment E a t st = (Some r, st')
    /\ trace st' = trace st ++ evs
    /\ present st ⊆ present st'
    /\ present st' ⊆ {[ realpath E (alignment_file_of a) ]} ∪ present st
    /\ manifest st' = manifest st
    /\ rows_of evs = []
    /\ ((replicated evs = [] /\ present st' = present st /\ r = None) \/ replicated evs = [a])
    /\ count_ok evs = match r with Some _ => 1%nat | None => 0%nat end
    /\ (is_Some r -> path_exists E (alignment_file_of a) st' = true)
    /\ (forall a' t', EvReplicate a' t' ∈ evs -> a' = a /\ t' = t)
    /\ quiet_after_ok evs.
Proof.
  assert (Hq1 : quiet_after_ok [EvReplicate a t]).
  { intros l1 f l2 Heq. destruct l1 as [|e [|e' l1]]; cbn in Heq; by simplify_eq. }
  assert (Hq2 : forall o, quiet_after_ok [EvReplicate a t; EvDump (alignment_file_of a) o]).
  { intros o l1 f l2 Heq. destruct l1 as [|e [|e' [|e'' l1]]]; cbn in Heq; by simplify_eq. }
  assert (Hone : forall a' t', EvReplicate a' t' ∈ [EvReplicate a t] -> a' = a /\ t' = t).
  { intros a' t' Hin. apply list_elem_of_singleton in Hin. by simplify_eq. }
  assert (Htwo : forall o a' t',
            EvReplicate a' t' ∈ [EvReplicate a t; EvDump (alignment_file_of a) o] ->
            a' = a /\ t' = t).
  { intros o a' t' Hin. apply elem_of_cons in Hin as [Hin|Hin]; [by simplify_eq|].
    apply list_elem_of_singleton in Hin. done. }
  assert (Hrefused : exists r st' evs,
            (Some (@None pyval), log_event (EvReplicate a t) st) = (Some r, st')
            /\ trace st' = trace st ++ evs
            /\ present st ⊆ present st'
            /\ present st' ⊆ {[ realpath E (alignment_file_of a) ]} ∪ present st
            /\ manifest st' = manifest st
            /\ rows_of evs = []
            /\ ((replicated evs = [] /\ present st' = present st /\ r = None) \/ replicated evs = [a])
            /\ count_ok evs = match r with Some _ => 1%nat | None => 0%nat end
            /\ (is_Some r -> path_exists E (alignment_file_of a) st' = true)
            /\ (forall a' t', EvReplicate a' t' ∈ evs -> a' = a /\ t' = t)
            /\ quiet_after_ok evs).
  { eexists None, _, [EvReplicate a t]. cbn.
    split; [done|]. split; [done|]. split; [done|]. split; [apply union_subseteq_r|].
    split; [done|]. split; [done|]. split; [by right|]. split; [done|].
    split; [by intros []|]. split; [exact Hone|exact Hq1]. }
  destruct (audio_opens_cases E a st) as [Hopen|Hno].
  2: { rewrite (run_alignment_no_audio E a t st Hno). exists None, st, []. cbn.
       rewrite app_nil_r.
       split; [done|]. split; [done|]. split; [done|]. split; [apply union_subseteq_r|].
       split; [done|]. split; [done|]. split; [by left|]. split; [done|].
       split; [by intros []|]. split; [|apply quiet_after_ok_nil].
       intros a' t' Hin. by apply elem_of_nil in Hin. }
  destruct (replicate_run E (trace st) a t) as [resp|] eqn:Hresp.
  2: { rewrite (run_alignment_refused E a t st Hopen) by (by left). exact Hrefused. }
  destruct (accepted_shape_cases resp) as [[words Hshape]|Hnone].
  2: { rewrite (run_alignment_refused E a t st Hopen) by (right; by exists resp).
       exact Hrefused. }
  rewrite (run_alignment_accepted E a t st resp words Hopen Hresp Hshape).
  cbn [trace log_event].
  destruct (json_dump E (trace st ++ [EvReplicate a t]) (alignment_file_of a)).
  - eexists (Some words), _, [EvReplicate a t; EvDump (alignment_file_of a) DumpOk].
    split; [done|]. cbn -[path_exists]. split; [by rewrite <- app_assoc|].
    split; [apply union_subseteq_r|]. split; [done|].
    split; [done|]. split; [done|]. split; [by right|]. split; [done|].
    split; [intros _; apply path_exists_created|].
    split; [apply Htwo|apply Hq2].
  - eexists None, _, [EvReplicate a t; EvDump (alignment_file_of a) DumpOpenRaises].
    split; [done|]. cbn -[path_exists]. split; [by rewrite <- app_assoc|].
    split; [done|]. split; [apply union_subseteq_r|].
    split; [done|]. split; [done|]. split; [by right|]. split; [done|].
    split; [by intros []|]. split; [apply Htwo|apply Hq2].
  - eexists None, _, [EvReplicate a t; EvDump (alignment_file_of a) DumpWriteRaises].
    split; [done|]. cbn -[path_exists]. split; [by rewrite <- app_assoc|].
    split; [apply union_subseteq_r|]. split; [done|].
    split; [done|]. split; [done|]. split; [by right|]. split; [done|].
    split; [by intros []|]. split; [apply Htwo|apply Hq2].
Qed.

Lemma segment_audio_file_summary E self a tt tp lv tn st :
  exists b st' evs,
    segment_audio_file E self a tt tp lv tn st = (Some b, st')
    /\ trace st' = trace st ++ evs
    /\ present st ⊆ present st'
    /\ (forall p, p ∈ present st' -> p ∈ present st \/ created E self evs p)
    /\ manifest st' = manifest st ++ rows_of evs
    /\ ((replicated evs = [] /\ present st' = present st) \/ replicated evs = [a])
    /\ count_ok evs = (if b then 1%nat else 0%nat)
    /\ (b = true -> path_exists E (alignment_file_of a) st' = true)
    /\ (forall a' t, EvReplicate a' t ∈ evs ->
          a' = a
          /\ exists text, get_transcript E tt tp st = (Some (Some text), st)
               /\ t = text ++ py " Generalitat de Catalunya")
    /\ quiet_after_ok evs.
Proof.
  unfold segment_audio_file, try_except. unfold bind at 1.
  pose proof (get_transcript_state E tt tp st) as Hst.
  destruct (get_transcript E tt tp st) as [[[text|]|] st0]; cbn in Hst; subst st0.
  2,3: exists false, st, []; unfold ret; cbn; rewrite !app_nil_r;
       split; [done|]; split; [done|]; split; [done|]; split; [by left|];
       split; [done|]; split; [by left|]; split; [done|]; split; [intros [=]|];
       (split; [|apply quiet_after_ok_nil]);
       intros a' t Hin; by apply elem_of_nil in Hin.
  unfold bind at 1.
  destruct (run_alignment_summary E a (text ++ py " Generalitat de Catalunya") st)
    as (r & st1 & evs1 & Hrun & Ht1 & Hp1 & Hq1 & Hm1 & Hr1 & Hrep1 & Hc1 & Hmark & Hev
        & Hquiet).
  rewrite Hrun.
  assert (Hfirst : forall p, p ∈ present st1 ->
            p ∈ present st
            \/ exists a0, a0 ∈ replicated evs1 /\ p = realpath E (alignment_file_of a0)).
  { intros p Hin. destruct Hrep1 as [(_ & Hsame & _)|Hrep1]; [left; by rewrite <- Hsame|].
    apply Hq1, elem_of_union in Hin as [Hin|Hin]; [|by left].
    right. exists a. rewrite Hrep1. split; [apply list_elem_of_here|].
    by apply elem_of_singleton in Hin. }
  destruct r as [result|].
  2: { exists false, st1, evs1. unfold ret. rewrite Hr1, app_nil_r.
       split; [done|]. split; [done|]. split; [done|].
       split. { intros p Hin. destruct (Hfirst p Hin) as [?|?]; [by left|right; by left]. }
       split; [done|]. split; [destruct Hrep1 as [(? & ? & _)|?]; [by left|by right]|].
       split; [done|]. split; [done|].
       split; [|done].
       intros a' t Hin. destruct (Hev a' t Hin) as [-> ->]. split; [done|]. by exists text. }
  unfold bind at 1.
  destruct (extract_sentences_never_raises E self a lv tn result st1) as [sentences Hsome].
  pose proof (extract_sentences_extends E self a lv tn result st1) as Hext.
  pose proof (extract_sentences_leaves E self a lv tn result st1) as Hleave.
  destruct (_extract_sentences_ffmpeg E self a lv tn result st1) as [o1 st2].
  cbn in Hsome, Hext, Hleave. subst o1.
  unfold bind at 1.
  destruct (save_segments_prefix E self sentences st2)
    as (saved & k & st3 & Hsave & Hp3 & Hm3 & Ht3 & _).
  rewrite Hsave. unfold ret.
  destruct Hext as (Hp2 & evs2 & Ht2 & Hcut2 & Hm2).
  destruct Hleave as (evs2' & Ht2' & Hnew2).
  assert (evs2' = evs2) as -> by (rewrite Ht2 in Ht2'; by apply app_inv_head in Ht2').
  set (evs3 := map (fun s => EvWriteRow (row_of s)) (take k sentences)) in *.
  assert (Hrow3 : Forall cut_or_row (evs2 ++ evs3)).
  { apply Forall_app. split.
    - eapply Forall_impl; [exact Hcut2|]. intros e He. by left.
    - subst evs3. apply Forall_forall. intros e He. apply list_elem_of_fmap in He as (s & -> & _).
      right. by eexists. }
  destruct (cut_or_row_quiet _ Hrow3) as [Hc Hrep].
  assert (Hrows3 : rows_of evs3 = map row_of (take k sentences)).
  { subst evs3. clear. induction (take k sentences) as [|s l IH]; cbn; by rewrite ?IH. }
  assert (Hsub3 : present st2 ⊆ present st3).
  { rewrite Hp3. destruct (csv_open_ok E (trace st2)); [apply union_subseteq_r|done]. }
  exists true, st3, (evs1 ++ evs2 ++ evs3).
  split; [done|]. split; [by rewrite Ht3, Ht2, Ht1, <- !app_assoc|].
  split; [by do 2 (etransitivity; [|eassumption])|].
  split.
  { intros p Hin. rewrite Hp3 in Hin.
    assert (Hin2 : p = realpath E (csv_output_file self) \/ p ∈ present st2).
    { destruct (csv_open_ok E (trace st2)); [|by right].
      apply elem_of_union in Hin as [Hin|Hin]; [left; by apply elem_of_singleton in Hin|by right]. }
    destruct Hin2 as [->|Hin2].
    - right. right. right. split; [|done]. rewrite count_ok_app, Hc1. lia.
    - destruct (Hnew2 p Hin2) as [Hin1|(cmd & rc & Hcmd & ->)].
      + destruct (Hfirst p Hin1) as [?|Hal]; [by left|].
        right. apply created_app_l. by left.
      + right. apply created_app_r, created_app_l. right. left. by exists cmd, rc. }
  split; [by rewrite Hm3, Hm2, Hm1, !rows_of_app, Hr1, Hrows3, <- app_assoc|].
  split; [right; destruct Hrep1 as [(_ & _ & [=])|Hrep1]; by rewrite replicated_app, Hrep, Hrep1|].
  split; [by rewrite count_ok_app, Hc, Hc1|].
  split.
  { intros _. eapply path_exists_mono; [|by apply Hmark]. by etransitivity. }
  split; [|by apply quiet_after_ok_then].
  intros a' t Hin. apply elem_of_app in Hin as [Hin|Hin].
  - destruct (Hev a' t Hin) as [-> ->]. split; [done|]. by exists text.
  - rewrite Forall_forall in Hrow3. by destruct (Hrow3 _ Hin).
Qed.

(** ** Walks *)

Lemma walk_post_stay E self lt n st : walk_post E self lt n st (Some (n, false)) st [].
Proof.
  unfold walk_post. cbn. rewrite !app_nil_r. split; [done|]. split; [done|].
  split; [done|]. split; [done|]. split; [by left|].
  split; [intros _; split; [apply quiet_after_ok_nil|done]|].
  intros n' r [= <- <-]. split; [lia|]. done.
Qed.

Lemma walk_post_raise E self lt n st : walk_post E self lt n st None st [].
Proof.
  unfold walk_post. cbn. rewrite !app_nil_r. split; [done|]. split; [done|].
  split; [done|]. split; [done|]. split; [by left|].
  split; [intros _; split; [apply quiet_after_ok_nil|done]|].
  intros n' r [=].
Qed.

(** The walk of one call of [segment_audio_file], on an audio file whose
    marker is absent. *)
Lemma walk_post_call E self lt a tt tp lv tn n st b st' :
  path_exists E (marker_of a) st = false ->
  segment_audio_file E self a tt tp lv tn st = (Some b, st') ->
  exists evs,
    walk_post E self lt n st
      (Some (if b then (n + 1)%nat else n, b && lt)) st' evs.
Proof.
  intros Hmark Hrun.
  destruct (segment_audio_file_summary E self a tt tp lv tn st)
    as (b0 & st0 & evs & Hrun0 & Ht & Hp & Hq & Hm & Hrep & Hc & _ & _ & Hquiet).
  rewrite Hrun in Hrun0. simplify_eq. exists evs.
  split; [done|]. split; [done|]. split; [done|]. split.
  { destruct Hrep as [[-> _] | ->]; [done|]. by repeat constructor. }
  split; [done|]. split; [done|].
  intros n' r [= <- <-]. rewrite Hc. destruct b0, lt; cbn; (split; [lia|]); done.
Qed.

Lemma walk_post_seq E self lt n st n1 st1 evs1 res st2 evs2 :
  walk_post E self lt n st (Some (n1, false)) st1 evs1 ->
  walk_post E self lt n1 st1 res st2 evs2 ->
  walk_post E self lt n st res st2 (evs1 ++ evs2).
Proof.
  intros (Ht1 & Hp1 & Hm1 & Hr1 & Hnew1 & _ & Hres1)
         (Ht2 & Hp2 & Hm2 & Hr2 & Hnew2 & Hlim2 & Hres2).
  destruct (Hres1 _ _ eq_refl) as (Hn1 & _ & Hzero).
  split; [by rewrite Ht2, Ht1, app_assoc|]. split; [by etransitivity|].
  split; [by rewrite Hm2, Hm1, rows_of_app, app_assoc|]. split.
  { rewrite replicated_app. apply Forall_app. split; [done|].
    eapply Forall_impl; [exact Hr2|]. intros a Ha. by eapply path_exists_earlier. }
  split.
  { intros p Hin.
    destruct (Hnew2 p Hin) as [Hin1|Hmade].
    - destruct (Hnew1 p Hin1) as [?|Hmade]; [by left|].
      right. by apply created_app_l.
    - right. by apply created_app_r. }
  split.
  { intros Hlt. destruct (Hlim2 Hlt) as [Hquiet2 Hnone2]. split.
    - apply quiet_after_ok_later; [by apply Hzero|done].
    - intros Hnone. rewrite count_ok_app, (Hzero eq_refl Hlt), (Hnone2 Hnone). done. }
  intros n' r Hr. destruct (Hres2 _ _ Hr) as (Hn' & Htrue & Hfalse).
  rewrite count_ok_app. split; [lia|]. split.
  - intros ->. destruct (Htrue eq_refl) as [Hlt Hc]. split; [done|].
    rewrite (Hzero eq_refl Hlt). lia.
  - intros -> Hlt. rewrite (Hzero eq_refl Hlt), (Hfalse eq_refl Hlt). done.
Qed.

Lemma walks_ret E self lt n : walks E self lt n (ret (n, false)).
Proof. intros st. exists []. apply walk_post_stay. Qed.

Lemma walks_raise E self lt n : walks E self lt n raise.
Proof. intros st. exists []. apply walk_post_raise. Qed.

Lemma walks_lift {A} E self lt n (o : option A) (k : A -> M (nat * bool)) :
  (forall x, walks E self lt n (k x)) -> walks E self lt n (x <- lift o ;; k x).
Proof.
  intros Hk st. unfold bind, lift. destruct o as [x|]; [apply Hk|].
  exists []. apply walk_post_raise.
Qed.

(** A loop body followed by the rest of the loop. *)
Lemma walks_then E self lt n (m : M (nat * bool)) (k : nat -> M (nat * bool)) :
  walks E self lt n m -> (forall n1, walks E self lt n1 (k n1)) ->
  walks E self lt n (r <- m ;; let '(processed_count, returned) := r in
                        if returned then ret (processed_count, true)
                        else k processed_count).
Proof.
  intros Hm Hk st. unfold bind. destruct (Hm st) as (evs1 & H1).
  destruct (m st) as [[[n1 [|]]|] st1]; cbn [fst snd] in H1.
  - by exists evs1.
  - destruct (Hk n1 st1) as (evs2 & H2). exists (evs1 ++ evs2).
    by eapply walk_post_seq.
  - by exists evs1.
Qed.

(** The call of [segment_audio_file] and the count, for an audio file
    whose marker the walker has found absent. *)
Lemma walk_post_item E self lt a tt tp lv tn n (rest : M (nat * bool)) st :
  path_exists E (marker_of a) st = false ->
  walks E self lt n rest ->
  let m := (success <- segment_audio_file E self a tt tp lv tn ;;
            if success then
              let processed_count := (n + 1)%nat in
              if lt && bool_decide (1 ≤ processed_count)%nat
              then ret (processed_count, true)
              else ret (processed_count, false)
            else rest) in
  exists evs, walk_post E self lt n st (fst (m st)) (snd (m st)) evs.
Proof.
  intros Hmark Hrest m.
  destruct (segment_audio_file_summary E self a tt tp lv tn st)
    as (b & st' & evs0 & Hrun & _).
  destruct (walk_post_call E self lt a tt tp lv tn n st b st' Hmark Hrun) as (evs & Hcall).
  subst m. unfold bind. rewrite Hrun.
  destruct b.
  - exists evs. rewrite bool_decide_eq_true_2 by lia. rewrite andb_true_r.
    cbn [andb] in Hcall. by destruct lt.
  - destruct (Hrest st') as (evs2 & H2). exists (evs ++ evs2).
    eapply walk_post_seq; [exact Hcall|exact H2].
Qed.

Section WalkFacts.
Variable E : Env.
Variable self : segmenter.
Variable limit_to_one : bool.

Lemma scan_topic_walks level level_dir topic n :
  walks E self limit_to_one n (scan_topic E self limit_to_one level level_dir topic n).
Proof.
  unfold scan_topic.
  destruct (negb (isdir E (path_join level_dir topic)) || startswith topic (py "."));
    [apply walks_ret|].
  apply walks_lift. intros listing.
  destruct (filter (fun f => endswith f (py ".txt") = true) listing) as [|tf tfs];
    [apply walks_ret|].
  apply walks_lift. intros listing'.
  destruct (scan_audio_files listing') as [|af afs]; [apply walks_ret|].
  intros st.
  destruct (path_exists E (marker_of (path_join (path_join level_dir topic) af)) st) eqn:Hmark.
  - exists []. apply walk_post_stay.
  - by apply walk_post_item; [|apply walks_ret].
Qed.

Lemma scan_topics_walks level level_dir topics : forall n,
  walks E self limit_to_one n (scan_topics E self limit_to_one level level_dir topics n).
Proof.
  induction topics as [|topic rest IH]; intros n; [apply walks_ret|].
  cbn [scan_topics]. apply walks_then; [apply scan_topic_walks|apply IH].
Qed.

Lemma scan_level_walks level n :
  walks E self limit_to_one n (scan_level E self limit_to_one level n).
Proof.
  unfold scan_level.
  destruct (negb (isdir E (path_join (data_dir self) level)) || startswith level (py "."));
    [apply walks_ret|].
  apply walks_lift. intros topics. apply scan_topics_walks.
Qed.

Lemma scan_levels_walks levels : forall n,
  walks E self limit_to_one n (scan_levels E self limit_to_one levels n).
Proof.
  induction levels as [|level rest IH]; intros n; [apply walks_ret|].
  cbn [scan_levels]. apply walks_then; [apply scan_level_walks|apply IH].
Qed.

Lemma master_audio_loop_walks tt tp level_code topic_name audio_files : forall n,
  walks E self limit_to_one n
    (master_audio_loop E self limit_to_one tt tp level_code topic_name audio_files n).
Proof.
  induction audio_files as [|a rest IH]; intros n; [apply walks_ret|].
  cbn [master_audio_loop]. intros st.
  destruct (path_exists E (marker_of a) st) eqn:Hmark; [apply IH|].
  by apply walk_post_item.
Qed.
End WalkFacts.

Lemma walks_count E self lt (m : M (nat * bool)) st :
  walks E self lt 0 m ->
  exists evs,
    run_post E self lt st (fst ((r <- m ;; ret (fst r)) st)) (snd ((r <- m ;; ret (fst r)) st)) evs.
Proof.
  intros Hm. destruct (Hm st) as (evs & Ht & Hp & Hman & Hrep & Hnew & Hlim & Hres).
  exists evs. unfold bind, ret.
  destruct (m st) as [[[n r]|] st']; cbn [fst snd] in *.
  - destruct (Hres n r eq_refl) as (Hn & Htrue & Hfalse).
    split; [done|]. split; [done|]. split; [done|]. split; [done|]. split; [done|].
    split; [|by intros n' [= <-]].
    intros Hlt. destruct (Hlim Hlt) as [Hquiet _]. split; [|done].
    destruct r; [destruct (Htrue eq_refl) as [_ ->]; lia|].
    rewrite (Hfalse eq_refl Hlt). lia.
  - split; [done|]. split; [done|]. split; [done|]. split; [done|]. split; [done|].
    split; [|done]. intros Hlt. destruct (Hlim Hlt) as [Hquiet Hnone]. split; [|done].
    rewrite (Hnone eq_refl). lia.
Qed.

Lemma run_post_raise E self lt st : run_post E self lt st None st [].
Proof.
  unfold run_post. cbn. rewrite !app_nil_r. split; [done|]. split; [done|].
  split; [done|]. split; [done|]. split; [by left|].
  split; [intros _; split; [lia|apply quiet_after_ok_nil]|done].
Qed.

Lemma directory_scan_post E self lt st :
  exists evs,
    run_post E self lt st (fst (_process_directory_scan E self lt st))
      (snd (_process_directory_scan E self lt st)) evs.
Proof.
  unfold _process_directory_scan. unfold bind at 1, lift.
  destruct (listdir E (data_dir self)) as [levels|]; [|exists []; apply run_post_raise].
  apply walks_count, scan_levels_walks.
Qed.

(** ** The transcript of a call *)

Lemma get_transcript_source E tt tp st text :
  get_transcript E tt tp st = (Some (Some text), st) ->
  exists raw,
    text = clean_transcript raw
    /\ ((tt = Some raw /\ raw <> [])
        \/ (str_truthy tt = false
            /\ exists p, tp = Some p /\ p <> [] /\ path_exists E p st = true
                         /\ read_text E (trace st) p = Some raw)).
Proof.
  unfold get_transcript. intros Hget.
  destruct tt as [[|c t]|].
  2: { unfold ret in Hget. simplify_eq. exists (c :: t). split; [done|]. by left. }
  all: destruct tp as [[|c p]|]; try done;
    destruct (path_exists E (c :: p) st) eqn:Hex; [|done];
    unfold bind, get_trace, lift, ret in Hget;
    destruct (read_text E (trace st) (c :: p)) as [raw|] eqn:Hread; [|done];
    simplify_eq; exists raw; (split; [done|]); right; (split; [done|]);
    by exists (c :: p).
Qed.

(** X7: [_save_segments_to_csv] raises nothing.  When the manifest can be
    opened for appending, the file at its path exists afterwards (it is
    created when it was missing) and no other path appears; when it cannot,
    no path appears.  The manifest grows by a prefix of the rows of the
    entries, whole when the function returns [True].  When it returns
    [False], either the manifest could not be opened and nothing was
    appended, or the write of one row failed and the rows before it stay
    in the manifest. *)
Theorem manifest_grows_by_prefix :
  forall E self sentences st,
  exists b k st',
    _save_segments_to_csv E self sentences st = (Some b, st')
    /\ present st' = (if csv_open_ok E (trace st)
                      then {[ realpath E (csv_output_file self) ]} ∪ present st
                      else present st)
    /\ (csv_open_ok E (trace st) = true -> path_exists E (csv_output_file self) st' = true)
    /\ manifest st' = manifest st ++ map row_of (take k sentences)
    /\ trace st' = trace st ++ map (fun s => EvWriteRow (row_of s)) (take k sentences)
    /\ (b = true -> k = length sentences)
    /\ (b = false ->
        (csv_open_ok E (trace st) = false /\ k = 0%nat)
        \/ exists s, sentences !! k = Some s
             /\ csv_writerow_ok E
                  (trace st ++ map (fun s => EvWriteRow (row_of s)) (take k sentences))
                  (row_of s) = false).
Proof.
  intros E self sentences st.
  destruct (save_segments_prefix E self sentences st)
    as (b & k & st' & Hrun & Hp & Hm & Ht & Htrue & Hfalse).
  exists b, k, st'. split; [done|]. split; [done|]. split; [|done].
  intros Hopen. rewrite Hopen in Hp. unfold path_exists. rewrite Hp.
  apply bool_decide_eq_true, elem_of_union. left. by apply elem_of_singleton.
Qed.

(** X8: one call of [segment_audio_file] calls the aligner at most once,
    on its audio file, and never without a transcript: the text it sends
    is the cleaned transcript (the text given, when it is not empty, else
    the content of the existing file at the path given) followed by
    " Generalitat de Catalunya".  The flag it returns is [True] exactly
    when the dump of the response succeeded. *)
Theorem aligner_called_at_most_once :
  forall E self audio_path transcript_text transcript_path level topic_name st,
  exists b st' evs,
    segment_audio_file E self audio_path transcript_text transcript_path level topic_name st
      = (Some b, st')
    /\ trace st' = trace st ++ evs
    /\ (replicated evs = [] \/ replicated evs = [audio_path])
    /\ (forall a t, EvReplicate a t ∈ evs ->
          a = audio_path
          /\ exists raw,
            t = clean_transcript raw ++ py " Generalitat de Catalunya"
            /\ ((transcript_text = Some raw /\ raw <> [])
                \/ (str_truthy transcript_text = false
                    /\ exists p, transcript_path = Some p /\ p <> []
                         /\ path_exists E p st = true
                         /\ read_text E (trace st) p = Some raw)))
    /\ count_ok evs = (if b then 1%nat else 0%nat).
Proof.
  intros E self a tt tp lv tn st.
  destruct (segment_audio_file_summary E self a tt tp lv tn st)
    as (b & st' & evs & Hrun & Ht & _ & _ & _ & Hrep & Hc & _ & Hev & _).
  exists b, st', evs. split; [done|]. split; [done|]. split.
  { destruct Hrep as [[? _]|?]; [by left|by right]. }
  split; [|done].
  intros a' t Hin. destruct (Hev a' t Hin) as (-> & text & Hget & ->).
  destruct (get_transcript_source E tt tp st text Hget) as (raw & -> & Hsrc).
  split; [done|]. by exists raw.
Qed.

(** X9: the walk over the directory tree never hands to the aligner an
    audio file whose marker (the audio path followed by "_alignment.json")
    existed when the walk began. *)
Theorem scan_skips_marked_files :
  forall E self limit_to_one st,
  exists evs,
    trace (snd (_process_directory_scan E self limit_to_one st)) = trace st ++ evs
    /\ forall a, a ∈ replicated evs -> path_exists E (marker_of a) st = false.
Proof.
  intros E self lt st.
  destruct (directory_scan_post E self lt st) as (evs & Ht & _ & _ & Hrep & _).
  exists evs. split; [done|]. intros a Ha.
  rewrite Forall_forall in Hrep. by apply Hrep.
Qed.

(** X10: the count handed back by the walk over the directory tree is the
    number of alignment dumps that succeeded during the walk; and when the
    walk is limited to one file at most one dump succeeds, even in a walk
    that ends in an exception. *)
Theorem scan_counts_successful_dumps :
  forall E self limit_to_one st,
  exists evs,
    trace (snd (_process_directory_scan E self limit_to_one st)) = trace st ++ evs
    /\ (forall n, fst (_process_directory_scan E self limit_to_one st) = Some n ->
                  n = count_ok evs)
    /\ (limit_to_one = true -> (count_ok evs <= 1)%nat).
Proof.
  intros E self lt st.
  destruct (directory_scan_post E self lt st) as (evs & Ht & _ & _ & _ & _ & Hlt & Hn).
  exists evs. split; [done|]. split; [done|]. intros Hl. by destruct (Hlt Hl).
Qed.

(** X11: the walk over the directory tree only adds: every path that
    existed stays, and a path that appears is the alignment file of an
    audio file handed to the aligner, the output file of a cut made during
    the walk, or, in a walk with a dump that succeeded, the manifest; the
    manifest is the earlier one followed by the rows written during the
    walk.  Paths are the canonical ones of the file system. *)
Theorem scan_only_adds :
  forall E self limit_to_one st,
  exists evs,
    let st' := snd (_process_directory_scan E self limit_to_one st) in
    trace st' = trace st ++ evs
    /\ present st ⊆ present st'
    /\ (forall p, p ∈ present st' ->
          p ∈ present st
          \/ (exists a, a ∈ replicated evs /\ p = realpath E (alignment_file_of a))
          \/ (exists cmd rc, EvFfmpeg cmd rc ∈ evs /\ p = realpath E (ff_output cmd))
          \/ ((0 < count_ok evs)%nat /\ p = realpath E (csv_output_file self)))
    /\ manifest st' = manifest st ++ rows_of evs.
Proof.
  intros E self lt st.
  destruct (directory_scan_post E self lt st) as (evs & Ht & Hp & Hm & _ & Hnew & _).
  by exists evs.
Qed.

(** ** A topic that was processed *)

Lemma path_join_last a b :
  b <> [] -> SLASH ∉ b ->
  exists d c, path_join a b = d ++ [c] /\ c <> SLASH.
Proof.
  intros Hb Hs.
  destruct (exists_last Hb) as (b' & c & ->).
  assert (Hc : c <> SLASH).
  { intros ->. apply Hs, elem_of_app. right. apply list_elem_of_here. }
  unfold path_join.
  destruct (startswith (b' ++ [c]) [SLASH]); [by exists b', c|].
  destruct (bool_decide (a = []) || endswith a [SLASH]).
  - exists (a ++ b'), c. by rewrite <- app_assoc.
  - exists (a ++ SLASH :: b'), c. by rewrite <- app_assoc.
Qed.

Lemma endswith_nonempty f p : p <> [] -> endswith f p = true -> f <> [].
Proof.
  intros Hp He ->. unfold endswith in He. cbn in He.
  destruct (rev p) eqn:Hr; [|done].
  apply (f_equal (@rev N)) in Hr. rewrite rev_involutive in Hr. done.
Qed.

(** X12: a topic that the walk over the directory tree has processed is
    passed over from then on.  When the names of the listing hold no slash
    and the visit of a topic raised the count, a later visit of that topic
    from the state reached returns the count it was given and changes
    nothing. *)
Theorem processed_topic_is_skipped :
  forall E self limit_to_one limit_to_one' level level_dir topic n m r st st',
    topic <> [] -> SLASH ∉ topic ->
    (forall listing, listdir E (path_join level_dir topic) = Some listing ->
                     Forall (fun f => SLASH ∉ f) listing) ->
    scan_topic E self limit_to_one level level_dir topic n st = (Some (S n, r), st') ->
    scan_topic E self limit_to_one' level level_dir topic m st' = (Some (m, false), st').
Proof.
  intros E self lt lt' level level_dir topic n m r st st' Htopic Hslash Hnames Hrun.
  unfold scan_topic in *.
  destruct (negb (isdir E (path_join level_dir topic)) || startswith topic (py "."));
    [unfold ret in Hrun; simplify_eq; lia|].
  unfold bind at 1, lift at 1 in Hrun. unfold bind at 1, lift at 1.
  destruct (listdir E (path_join level_dir topic)) as [listing|] eqn:Hlist; [|done].
  specialize (Hnames listing eq_refl).
  destruct (filter (fun f => endswith f (py ".txt") = true) listing) as [|tf tfs];
    [unfold ret in Hrun; simplify_eq; lia|].
  unfold bind at 1, lift at 1 in Hrun. unfold bind at 1, lift at 1.
  destruct (scan_audio_files listing) as [|af afs] eqn:Haudio;
    [unfold ret in Hrun; simplify_eq; lia|].
  assert (Haf : af ∈ listing /\ endswith af (py ".mp3") = true).
  { apply scan_prefers_rapid. rewrite Haudio. apply list_elem_of_here. }
  destruct Haf as [Hin Hmp3].
  assert (Hmarker : alignment_file_of (path_join (path_join level_dir topic) af)
                    = marker_of (path_join (path_join level_dir topic) af)).
  { destruct (path_join_last level_dir topic Htopic Hslash) as (d & c & -> & Hc).
    apply alignment_file_is_marker; [done| |].
    - apply (endswith_nonempty af (py ".mp3")); [by vm_compute|done].
    - rewrite Forall_forall in Hnames. by apply Hnames. }
  destruct (path_exists E (marker_of (path_join (path_join level_dir topic) af)) st);
    [unfold ret in Hrun; simplify_eq; lia|].
  unfold bind in Hrun.
  destruct (segment_audio_file_summary E self (path_join (path_join level_dir topic) af)
              None (Some (path_join (path_join level_dir topic) tf)) level topic st)
    as (b & st1 & evs & Hseg & _ & _ & _ & _ & _ & _ & Hmark & _).
  rewrite Hseg in Hrun. destruct b; [|unfold ret in Hrun; simplify_eq; lia].
  assert (st1 = st') as ->.
  { destruct (lt && bool_decide (1 ≤ n + 1)%nat); unfold ret in Hrun; by simplify_eq. }
  specialize (Hmark eq_refl). rewrite Hmarker in Hmark. by rewrite Hmark.
Qed.

(** [processed_topic_is_skipped] on the second topic of the corpus of
    [walk_env]. *)
Lemma processed_topic_is_skipped_witness :
  scan_topic walk_env walk_segmenter true (py "b1") (py "data/b1") (py "t2") 7
    (snd (scan_topic walk_env walk_segmenter false (py "b1") (py "data/b1") (py "t2") 0
            walk_state))
  = (Some (7%nat, false),
     snd (scan_topic walk_env walk_segmenter false (py "b1") (py "data/b1") (py "t2") 0
            walk_state)).
Proof.
  apply (processed_topic_is_skipped walk_env walk_segmenter false true (py "b1")
           (py "data/b1") (py "t2") 0 7 false walk_state).
  - discriminate.
  - intros Hin. vm_compute in Hin.
    repeat (apply elem_of_cons in Hin as [Hin|Hin]; [discriminate Hin|]).
    by apply elem_of_nil in Hin.
  - intros listing Hl. vm_compute in Hl. injection Hl as <-.
    repeat constructor; intros Hin;
      repeat (apply elem_of_cons in Hin as [Hin|Hin]; [discriminate Hin|]);
      by apply elem_of_nil in Hin.
  - vm_compute. reflexivity.
Defined.

(** X13: for one topic the walk over the directory tree hands at most one
    audio file to the aligner: the first of the files chosen from the
    listing of the topic directory.  The other audio files of the topic
    are not tried, whether that call succeeds or fails. *)
Theorem scan_tries_one_file_per_topic :
  forall E self limit_to_one level level_dir topic n st,
  exists evs,
    trace (snd (scan_topic E self limit_to_one level level_dir topic n st))
      = trace st ++ evs
    /\ (replicated evs = []
        \/ exists listing audio_file others,
             listdir E (path_join level_dir topic) = Some listing
             /\ scan_audio_files listing = audio_file :: others
             /\ replicated evs = [path_join (path_join level_dir topic) audio_file]).
Proof.
  intros E self lt level level_dir topic n st.
  assert (Hnone : exists evs : list event,
            trace st = trace st ++ evs
            /\ (replicated evs = []
                \/ exists listing audio_file others,
                     listdir E (path_join level_dir topic) = Some listing
                     /\ scan_audio_files listing = audio_file :: others
                     /\ replicated evs
                        = [path_join (path_join level_dir topic) audio_file])).
  { exists []. rewrite app_nil_r. split; [done|]. by left. }
  unfold scan_topic.
  destruct (negb (isdir E (path_join level_dir topic)) || startswith topic (py "."));
    [exact Hnone|].
  unfold bind at 1, lift at 1.
  destruct (listdir E (path_join level_dir topic)) as [listing|] eqn:Hlist; [|exact Hnone].
  destruct (filter (fun f => endswith f (py ".txt") = true) listing) as [|tf tfs];
    [exact Hnone|].
  unfold bind at 1, lift at 1.
  destruct (scan_audio_files listing) as [|af afs] eqn:Haudio; [exact Hnone|].
  destruct (path_exists E (marker_of (path_join (path_join level_dir topic) af)) st);
    [exact Hnone|].
  destruct (segment_audio_file_summary E self (path_join (path_join level_dir topic) af)
              None (Some (path_join (path_join level_dir topic) tf)) level topic st)
    as (b & st1 & evs & Hseg & Ht & _ & _ & _ & Hrep & _).
  exists evs. unfold bind. rewrite Hseg. split.
  - destruct b; [|done]. by destruct (lt && bool_decide (1 ≤ n + 1)%nat).
  - destruct Hrep as [[Hrep _]|Hrep]; [by left|]. right. by exists listing, af, afs.
Qed.

(** X14: a walk over the directory tree that is limited to one file stops
    at the first dump that succeeds: in the events of the walk no call of
    the aligner follows a successful dump. *)
Theorem limited_scan_stops_at_success :
  forall E self st,
  exists evs,
    trace (snd (_process_directory_scan E self true st)) = trace st ++ evs
    /\ forall before alignment_file after,
         evs = before ++ EvDump alignment_file DumpOk :: after ->
         replicated after = [].
Proof.
  intros E self st.
  destruct (directory_scan_post E self true st) as (evs & Ht & _ & _ & _ & _ & Hlt & _).
  exists evs. split; [done|]. by destruct (Hlt eq_refl) as [_ Hq].
Qed.

(** ** One audio file per topic of the index *)

Lemma replicated_elem a t evs : EvReplicate a t ∈ evs -> a ∈ replicated evs.
Proof.
  induction evs as [|e evs IH]; intros Hin; [by apply elem_of_nil in Hin|].
  apply elem_of_cons in Hin as [<-|Hin].
  - apply list_elem_of_here.
  - destruct e; cbn; try (by apply IH). apply list_elem_of_further. by apply IH.
Qed.

(** X15: for one topic of the index at most one audio file is processed
    with success: the loop over its audio files hands each of them to the
    aligner at most once and in their order, none of them with a marker,
    stops at the first dump that succeeds, and raises the count by one at
    most. *)
Theorem index_one_file_per_topic :
  forall E self limit_to_one transcript_text transcript_path level_code topic_name
         audio_files n st,
  exists res st' evs,
    master_audio_loop E self limit_to_one transcript_text transcript_path level_code
      topic_name audio_files n st = (Some res, st')
    /\ trace st' = trace st ++ evs
    /\ sublist (replicated evs) audio_files
    /\ (count_ok evs <= 1)%nat
    /\ fst res = (n + count_ok evs)%nat.
Proof.
  intros E self lt tt tp lc tn audio_files.
  induction audio_files as [|a rest IH]; intros n st.
  { exists (n, false), st, []. cbn. rewrite app_nil_r.
    split; [done|]. split; [done|]. split; [done|]. split; lia. }
  cbn [master_audio_loop].
  destruct (path_exists E (marker_of a) st).
  { destruct (IH n st) as (res & st' & evs & Hrun & Ht & Hsub & Hc & Hn).
    exists res, st', evs. split; [done|]. split; [done|]. split; [|done].
    by apply sublist_cons. }
  destruct (segment_audio_file_summary E self a tt tp lc tn st)
    as (b & st1 & evs1 & Hseg & Ht1 & _ & _ & _ & Hrep & Hc1 & _).
  assert (Hsub1 : forall l, sublist l rest -> sublist (replicated evs1 ++ l) (a :: rest)).
  { intros l Hl. destruct Hrep as [[-> _] | ->]; cbn.
    - by apply sublist_cons.
    - by apply sublist_skip. }
  unfold bind. rewrite Hseg. destruct b.
  - rewrite bool_decide_eq_true_2 by lia. rewrite andb_true_r.
    exists ((n + 1)%nat, lt), st1, evs1.
    split; [by destruct lt|]. split; [done|].
    split; [rewrite <- (app_nil_r (replicated evs1)); apply Hsub1, sublist_nil_l|].
    rewrite Hc1. cbn. split; lia.
  - destruct (IH n st1) as (res & st' & evs & Hrun & Ht & Hsub & Hc & Hn).
    exists res, st', (evs1 ++ evs). split; [done|].
    split; [by rewrite Ht, Ht1, app_assoc|].
    split; [rewrite replicated_app; by apply Hsub1|].
    rewrite count_ok_app, Hc1. cbn. split; [lia|done].
Qed.

(** ** The walk over the index *)

Lemma walks_quiet {A} E self lt n (m : M A) (k : A -> M (nat * bool)) :
  (forall st, snd (m st) = st) -> (forall x, walks E self lt n (k x)) ->
  walks E self lt n (x <- m ;; k x).
Proof.
  intros Hq Hk st. unfold bind. specialize (Hq st).
  destruct (m st) as [[x|] st1]; cbn in Hq; subst st1; [apply Hk|].
  exists []. apply walk_post_raise.
Qed.

Lemma walks_test E self lt n (c : state -> bool) (m1 m2 : M (nat * bool)) :
  walks E self lt n m1 -> walks E self lt n m2 ->
  walks E self lt n (fun st => if c st then m1 st else m2 st).
Proof. intros H1 H2 st. destruct (c st); [apply H1|apply H2]. Qed.

Lemma master_audio_files_quiet E field topic_dir st :
  snd (master_audio_files E field topic_dir st) = st.
Proof.
  unfold master_audio_files.
  destruct field as [entries|].
  - destruct (classify_entries E entries st) as [[|r rs] [|o os]]; try done;
      unfold bind, lift, ret; destruct (listdir E topic_dir) as [listing|]; [|done];
      by destruct (map _ _).
  - unfold bind, lift, ret. destruct (listdir E topic_dir) as [listing|]; [|done].
    by destruct (map _ _).
Qed.

Section IndexFacts.
Variable H : Host.
Variable E : Env.
Variable self : segmenter.
Variable limit_to_one : bool.

Lemma master_topic_walks level_code topic_data n :
  walks E self limit_to_one n (master_topic E self limit_to_one level_code topic_data n).
Proof.
  unfold master_topic. destruct topic_data as [topic_dir topic_name tr field|];
    [|apply walks_ret].
  destruct (negb (str_truthy topic_dir) || negb (str_truthy topic_name));
    [apply walks_ret|].
  apply (walks_test _ _ _ _ (fun st => negb (path_exists E (default [] topic_dir) st)));
    [apply walks_ret|].
  apply walks_quiet.
  { intros st. destruct (lacks_transcript _ _ _ st); [|done].
    unfold bind, lift, ret. destruct (listdir E (default [] topic_dir)); [|done].
    by destruct (filter _ _). }
  intros transcript_path.
  apply (walks_test _ _ _ _ (fun st => lacks_transcript E _ transcript_path st));
    [apply walks_ret|].
  apply walks_quiet; [apply master_audio_files_quiet|].
  intros [|a rest]; [apply walks_ret|]. apply master_audio_loop_walks.
Qed.

Lemma master_topics_walks level_code topics_list : forall n,
  walks E self limit_to_one n (master_topics E self limit_to_one level_code topics_list n).
Proof.
  induction topics_list as [|topic_data rest IH]; intros n; [apply walks_ret|].
  cbn [master_topics]. apply walks_then; [apply master_topic_walks|apply IH].
Qed.

Lemma master_level_walks level_code level_data n :
  walks E self limit_to_one n (master_level E self limit_to_one level_code level_data n).
Proof.
  destruct level_data; [apply master_topics_walks|apply walks_ret|apply walks_raise].
Qed.

Lemma master_levels_walks items : forall n,
  walks E self limit_to_one n (master_levels E self limit_to_one items n).
Proof.
  induction items as [|[level_code level_data] rest IH]; intros n; [apply walks_ret|].
  cbn [master_levels]. apply walks_then; [apply master_level_walks|apply IH].
Qed.
End IndexFacts.

(** ** The entry point *)

Lemma load_master_data_run H E self st :
  _load_master_data H E self st
  = (Some (if path_exists E (path_join (data_dir self) (py "master_data.json")) st
           then json_load H (trace st) (path_join (data_dir self) (py "master_data.json"))
           else None), st).
Proof.
  unfold _load_master_data.
  destruct (path_exists E _ st); [|done].
  unfold try_except, bind, get_trace, lift, ret.
  by destruct (json_load H (trace st) _).
Qed.

Lemma process_from_master_post E self levels lt st :
  exists evs,
    run_post E self lt st (fst (_process_from_master_data E self levels lt st))
      (snd (_process_from_master_data E self levels lt st)) evs.
Proof.
  unfold _process_from_master_data. destruct levels as [[items|]|].
  - apply walks_count, master_levels_walks.
  - exists []. apply run_post_raise.
  - apply directory_scan_post.
Qed.

(** The entry point hands back a count whatever happens; the walk it made
    left what a walk leaves, and the count is that of the walk, or 0 when
    the walk raised. *)
Lemma process_directory_post H E self lt st :
  exists n st' evs res,
    process_directory H E self lt st = (Some n, st')
    /\ run_post E self lt st res st' evs
    /\ n = default 0%nat res.
Proof.
  unfold process_directory, try_except. unfold bind at 1.
  rewrite load_master_data_run.
  set (md := if path_exists E _ st then _ else None). clearbody md.
  assert (Hscan : forall m : M nat,
            (exists evs, run_post E self lt st (fst (m st)) (snd (m st)) evs) ->
            exists n st' evs res,
              match m st with
              | (Some a, st') => (Some a, st')
              | (None, st') => ret 0%nat st'
              end = (Some n, st')
              /\ run_post E self lt st res st' evs /\ n = default 0%nat res).
  { intros m (evs & Hpost). destruct (m st) as [[n|] st']; cbn [fst snd] in Hpost.
    - by exists n, st', evs, (Some n).
    - by exists 0%nat, st', evs, None. }
  destruct md as [[levels other| |]|]; cbn [master_truthy].
  - destruct levels as [[items|]|].
    + rewrite bool_decide_eq_true_2 by (by eexists). cbn [orb].
      apply Hscan, process_from_master_post.
    + rewrite bool_decide_eq_true_2 by (by eexists). cbn [orb].
      apply Hscan. exists []. apply run_post_raise.
    + rewrite bool_decide_eq_false_2 by (by intros []). cbn [orb].
      destruct other; apply Hscan; [apply process_from_master_post|apply directory_scan_post].
  - apply Hscan, directory_scan_post.
  - apply Hscan. exists []. apply run_post_raise.
  - apply Hscan, directory_scan_post.
Qed.

(** X16: [process_directory] hands back a count whatever happens.  The
    count is the number of alignment dumps that succeeded during the walk,
    or 0 when the walk was cut short by an exception; a walk limited to one
    file has at most one dump that succeeds, and no call of the aligner
    after it. *)
Theorem process_directory_reports :
  forall H E self limit_to_one st,
  exists n st' evs,
    process_directory H E self limit_to_one st = (Some n, st')
    /\ trace st' = trace st ++ evs
    /\ (n = count_ok evs \/ n = 0%nat)
    /\ (limit_to_one = true -> (count_ok evs <= 1)%nat /\ quiet_after_ok evs).
Proof.
  intros H E self lt st.
  destruct (process_directory_post H E self lt st)
    as (n & st' & evs & res & Hrun & (Ht & _ & _ & _ & _ & Hlt & Hn) & ->).
  exists (default 0%nat res), st', evs. split; [done|]. split; [done|].
  split; [|done].
  destruct res as [n|]; [left; by apply Hn|by right].
Qed.

(** X17: whichever walker [process_directory] uses, no audio file whose
    marker existed at the start is handed to the aligner, every path that
    existed stays, a path that appears is the alignment file of an audio
    file handed to the aligner, the output file of a cut made during the
    run or, in a run with a dump that succeeded, the manifest, and the
    manifest is the earlier one followed by the rows written.  Paths are
    the canonical ones of the file system: a path exists when its
    canonical path names a file. *)
Theorem process_directory_resumes :
  forall H E self limit_to_one st,
  exists evs,
    let st' := snd (process_directory H E self limit_to_one st) in
    trace st' = trace st ++ evs
    /\ (forall a, a ∈ replicated evs -> realpath E (marker_of a) ∉ present st)
    /\ present st ⊆ present st'
    /\ (forall p, p ∈ present st' ->
          p ∈ present st
          \/ (exists a, a ∈ replicated evs /\ p = realpath E (alignment_file_of a))
          \/ (exists cmd rc, EvFfmpeg cmd rc ∈ evs /\ p = realpath E (ff_output cmd))
          \/ ((0 < count_ok evs)%nat /\ p = realpath E (csv_output_file self)))
    /\ manifest st' = manifest st ++ rows_of evs.
Proof.
  intros H E self lt st.
  destruct (process_directory_post H E self lt st)
    as (n & st' & evs & res & Hrun & (Ht & Hp & Hm & Hrep & Hnew & _) & _).
  exists evs. rewrite Hrun. cbn [snd]. split; [done|]. split; [|done].
  intros a Ha. rewrite Forall_forall in Hrep. specialize (Hrep a Ha).
  by apply bool_decide_eq_false in Hrep.
Qed.

(** The entry point, by what the index file holds. *)
Lemma process_directory_cases :
  forall H E self limit_to_one st,
    let master_data_path := path_join (data_dir self) (py "master_data.json") in
    let index := if path_exists E master_data_path st
                 then json_load H (trace st) master_data_path else None in
    match index with
    | None | Some MasterFalsy | Some (MasterDict None _) =>
        process_directory H E self limit_to_one st
        = try_except (_process_directory_scan E self limit_to_one) (ret 0%nat) st
    | Some MasterOther | Some (MasterDict (Some LevelsOther) _) =>
        process_directory H E self limit_to_one st = (Some 0%nat, st)
    | Some (MasterDict (Some (LevelsDict items)) _) =>
        process_directory H E self limit_to_one st
        = try_except (r <- master_levels E self limit_to_one items 0 ;; ret (fst r))
            (ret 0%nat) st
    end.
Proof.
  intros H E self lt st. cbv zeta.
  destruct (if path_exists E _ st then _ else None) as [[[[items|]|] other| |]|] eqn:Hidx;
    unfold process_directory; unfold try_except at 1; unfold bind at 1;
    rewrite load_master_data_run, Hidx; cbn [master_truthy]; try reflexivity.
  rewrite bool_decide_eq_false_2 by (by intros []). cbn [orb]. by destruct other.
Qed.

(** X18: what [process_directory] does with the index file.  Without the
    file, with a file that cannot be read or decoded, with a document that
    is false (null, an empty mapping or list) and with a mapping without
    "levels" it walks the directory tree; with a mapping whose "levels" is
    a mapping it walks the levels in their order; with any other document
    (a list, a string, a number) and with "levels" that is no mapping it
    returns 0 and touches nothing.  An exception of the walk makes it
    return 0. *)
Theorem index_fallbacks :
  forall H E self limit_to_one st,
    let master_data_path := path_join (data_dir self) (py "master_data.json") in
    let index := if path_exists E master_data_path st
                 then json_load H (trace st) master_data_path else None in
    match index with
    | None | Some MasterFalsy | Some (MasterDict None _) =>
        process_directory H E self limit_to_one st
        = try_except (_process_directory_scan E self limit_to_one) (ret 0%nat) st
    | Some MasterOther | Some (MasterDict (Some LevelsOther) _) =>
        process_directory H E self limit_to_one st = (Some 0%nat, st)
    | Some (MasterDict (Some (LevelsDict items)) _) =>
        process_directory H E self limit_to_one st
        = try_except (r <- master_levels E self limit_to_one items 0 ;; ret (fst r))
            (ret 0%nat) st
    end.
Proof. exact process_directory_cases. Qed.

(** ** A level that cannot be read *)

Lemma master_levels_invalid E self lt pre level_code post : forall n st n1 st1,
  master_levels E self lt pre n st = (Some (n1, false), st1) ->
  master_levels E self lt (pre ++ (level_code, LevelInvalid) :: post) n st = (None, st1).
Proof.
  induction pre as [|[code data] pre IH]; intros n st n1 st1 Hrun.
  - cbn in Hrun. unfold ret in Hrun. simplify_eq. done.
  - cbn [app master_levels] in *. unfold bind in *.
    destruct (master_level E self lt code data n st) as [[[n2 [|]]|] st2]; [done| |done].
    by eapply IH.
Qed.

(** X19: a level of the index whose value is null, a boolean or a number
    aborts the run: [process_directory] returns 0 although the levels
    before it were walked, and leaves the state their walk reached; the
    levels after it are not visited. *)
Theorem invalid_level_reports_zero :
  forall H E self limit_to_one other_keys pre level_code post st n1 st1,
    path_exists E (path_join (data_dir self) (py "master_data.json")) st = true ->
    json_load H (trace st) (path_join (data_dir self) (py "master_data.json"))
      = Some (MasterDict (Some (LevelsDict (pre ++ (level_code, LevelInvalid) :: post)))
                other_keys) ->
    master_levels E self limit_to_one pre 0 st = (Some (n1, false), st1) ->
    process_directory H E self limit_to_one st = (Some 0%nat, st1).
Proof.
  intros H E self lt other pre code post st n1 st1 Hex Hload Hpre.
  pose proof (process_directory_cases H E self lt st) as Hcase. cbv zeta in Hcase.
  rewrite Hex, Hload in Hcase. rewrite Hcase.
  unfold try_except, bind. by rewrite (master_levels_invalid E self lt pre code post _ _ _ _ Hpre).
Qed.

(** [invalid_level_reports_zero] on the corpus of [walk_env]: the topic of
    the first level is processed, the second level is null, and the count
    handed back is 0. *)
Lemma invalid_level_reports_zero_witness :
  process_directory (sample_host (Some broken_index)) walk_env walk_segmenter false
    index_state
  = (Some 0%nat,
     snd (master_levels walk_env walk_segmenter false
            [ (py "b1", LevelTopics [TopicDict (Some (py "data/b1/t2")) (Some (py "t2"))
                                       TranscriptAbsent None]) ] 0 index_state))
  /\ count_ok (trace (snd (process_directory (sample_host (Some broken_index)) walk_env
                             walk_segmenter false index_state))) = 1%nat.
Proof.
  split; [|vm_compute; reflexivity].
  apply (invalid_level_reports_zero (sample_host (Some broken_index)) walk_env
           walk_segmenter false true
           [ (py "b1", LevelTopics [TopicDict (Some (py "data/b1/t2")) (Some (py "t2"))
                                      TranscriptAbsent None]) ]
           (py "b2") [] index_state 1%nat).
  - vm_compute. reflexivity.
  - vm_compute. reflexivity.
  - vm_compute. reflexivity.
Defined.

(** ** The script *)

Lemma path_exists_create E p q st :
  path_exists E p st = true -> path_exists E p (create_file E q st) = true.
Proof.
  unfold path_exists. intros Hp%bool_decide_eq_true. apply bool_decide_eq_true.
  cbn. apply elem_of_union. by right.
Qed.

(** What the constructor leaves: the events are those before, no path is
    lost, a manifest that existed keeps its rows; the attributes of the
    object it hands back. *)
Lemma init_segmenter_run H E data output st res st' :
  init_segmenter H E data output st = (res, st') ->
  trace st' = trace st
  /\ present st ⊆ present st'
  /\ (path_exists E (path_join output (py "segments.csv")) st = true ->
      manifest st' = manifest st)
  /\ forall self, res = Some self ->
       self = {| data_dir := data;
                 audio_output_dir := path_join output (py "audio");
                 csv_output_file := path_join output (py "segments.csv") |}
       /\ path_exists E (path_join output (py "segments.csv")) st' = true.
Proof.
  unfold init_segmenter, makedirs. cbn [audio_output_dir csv_output_file].
  intros Hrun.
  unfold bind at 1 in Hrun. unfold bind at 1, get_trace at 1 in Hrun.
  destruct (makedirs_ok H (trace st) output).
  2: { unfold raise in Hrun. by simplify_eq. }
  unfold modify at 1 in Hrun. unfold bind at 1 in Hrun.
  unfold bind at 1, get_trace at 1 in Hrun. cbn [trace create_file] in Hrun.
  destruct (makedirs_ok H (trace st) (path_join output (py "audio"))).
  2: { unfold raise in Hrun. simplify_eq. cbn.
       split; [done|]. split; [apply union_subseteq_r|]. done. }
  unfold modify at 1 in Hrun. unfold bind at 1 in Hrun.
  set (st2 := create_file E (path_join output (py "audio")) (create_file E output st)) in *.
  assert (Hsub : present st ⊆ present st2).
  { subst st2. cbn. etransitivity; [|apply union_subseteq_r]. apply union_subseteq_r. }
  assert (Hkeep : path_exists E (path_join output (py "segments.csv")) st = true ->
                  path_exists E (path_join output (py "segments.csv")) st2 = true).
  { intros Hex. by do 2 apply path_exists_create. }
  assert (Hlog : forall st3,
            trace st3 = trace st -> present st ⊆ present st3 ->
            (path_exists E (path_join output (py "segments.csv")) st = true ->
             manifest st3 = manifest st) ->
            path_exists E (path_join output (py "segments.csv")) st3 = true ->
            ((tr <- get_trace ;;
              if log_handler_ok H tr (path_join output (py "segmentation.log"))
              then modify (create_file E (path_join output (py "segmentation.log")))
              else raise) ;;;
             ret {| data_dir := data;
                    audio_output_dir := path_join output (py "audio");
                    csv_output_file := path_join output (py "segments.csv") |}) st3
            = (res, st') ->
            trace st' = trace st /\ present st ⊆ present st'
            /\ (path_exists E (path_join output (py "segments.csv")) st = true ->
                manifest st' = manifest st)
            /\ forall self, res = Some self ->
                 self = {| data_dir := data;
                           audio_output_dir := path_join output (py "audio");
                           csv_output_file := path_join output (py "segments.csv") |}
                 /\ path_exists E (path_join output (py "segments.csv")) st' = true).
  { intros st3 Ht3 Hp3 Hm3 Hcsv Hr.
    unfold bind, get_trace, modify, raise, ret in Hr.
    destruct (log_handler_ok H (trace st3) _); simplify_eq; cbn.
    - split; [done|]. split; [etransitivity; [exact Hp3|apply union_subseteq_r]|].
      split; [done|]. intros self [= <-]. split; [done|]. by apply path_exists_create.
    - done. }
  destruct (path_exists E (path_join output (py "segments.csv")) st2) eqn:Hex2;
    cbn [negb] in Hrun.
  { unfold ret at 1 in Hrun. by eapply Hlog; [..|exact Hrun]. }
  unfold bind at 1, get_trace at 1 in Hrun. cbn [trace st2 create_file] in Hrun.
  assert (Hnew : path_exists E (path_join output (py "segments.csv")) st = true -> False).
  { intros Hex. by specialize (Hkeep Hex). }
  destruct (manifest_create H (trace st) (path_join output (py "segments.csv"))).
  - unfold modify at 1 in Hrun. eapply Hlog; [| | | |exact Hrun]; [done| |by intros ?%Hnew|].
    + cbn. etransitivity; [exact Hsub|apply union_subseteq_r].
    + unfold path_exists. apply bool_decide_eq_true. cbn.
      apply elem_of_union. left. by apply elem_of_singleton.
  - unfold raise in Hrun. simplify_eq. split; [done|]. split; [done|].
    split; [by intros ?%Hnew|done].
  - unfold bind, modify, raise in Hrun. simplify_eq. cbn. split; [done|].
    split; [etransitivity; [exact Hsub|apply union_subseteq_r]|].
    split; [by intros ?%Hnew|done].
Qed.

(** X20: constructing the segmenter records nothing in the history, loses
    no path and keeps the rows of a manifest that exists; the object it
    hands back has the data directory given, the directory "audio" and the
    manifest "segments.csv" under the output directory, and the manifest
    exists afterwards. *)
Theorem init_keeps_existing_manifest :
  forall H E data_dir0 output_dir st self st',
    init_segmenter H E data_dir0 output_dir st = (Some self, st') ->
    data_dir self = data_dir0
    /\ audio_output_dir self = path_join output_dir (py "audio")
    /\ csv_output_file self = path_join output_dir (py "segments.csv")
    /\ path_exists E (csv_output_file self) st' = true
    /\ trace st' = trace st
    /\ present st ⊆ present st'
    /\ (path_exists E (path_join output_dir (py "segments.csv")) st = true ->
        manifest st' = manifest st).
Proof.
  intros H E data output st self st' Hrun.
  destruct (init_segmenter_run H E data output st _ _ Hrun) as (Ht & Hp & Hm & Hself).
  destruct (Hself self eq_refl) as [-> Hcsv]. done.
Qed.

(** [init_keeps_existing_manifest] on a state whose manifest exists and
    holds a row. *)
Lemma init_keeps_existing_manifest_witness :
  let st := {| present := {[ py "corpus/segments.csv" ]};
               manifest := [(py "b1_t_sentence1.mp3", py "Hola.")];
               trace := [] |} in
  manifest (snd (init_segmenter (sample_host None) (sample_env 0 None) (py "data")
                   (py "corpus") st))
  = [(py "b1_t_sentence1.mp3", py "Hola.")].
Proof.
  intros st.
  apply (init_keeps_existing_manifest (sample_host None) (sample_env 0 None) (py "data")
           (py "corpus") st
           {| data_dir := py "data"; audio_output_dir := py "corpus/audio";
              csv_output_file := py "corpus/segments.csv" |}
           (snd (init_segmenter (sample_host None) (sample_env 0 None) (py "data")
                   (py "corpus") st))).
  - vm_compute. reflexivity.
  - vm_compute. reflexivity.
Defined.

(** What the script leaves. *)
Lemma main_run H E args st :
  exists code st' evs,
    main H E (Parsed args) st = (Some code, st')
    /\ trace st' = trace st ++ evs
    /\ (code = 0%Z \/ code = 1%Z)
    /\ (check_ffmpeg H = false \/ check_replicate_api H = false -> code = 1%Z /\ st' = st)
    /\ (code = 0%Z -> (0 < count_ok evs)%nat).
Proof.
  unfold main.
  destruct (check_ffmpeg H) eqn:Hff; cbn [negb].
  2: { exists 1%Z, st, []. unfold ret. rewrite app_nil_r. split; [done|]. split; [done|].
       split; [by right|]. split; [done|]. done. }
  destruct (check_replicate_api H) eqn:Htok; cbn [negb].
  2: { exists 1%Z, st, []. unfold ret. rewrite app_nil_r. split; [done|]. split; [done|].
       split; [by right|]. split; [done|]. done. }
  assert (Hno : check_ffmpeg H = false \/ check_replicate_api H = false -> False)
    by (rewrite Hff, Htok; intros [?|?]; done).
  rewrite Hff, Htok in Hno.
  unfold try_except. unfold bind at 1.
  destruct (init_segmenter H E (arg_data_dir args) (arg_output_dir args) st)
    as [[self|] st1] eqn:Hinit.
  2: { destruct (init_segmenter_run H E _ _ st _ _ Hinit) as (Ht & _).
       exists 1%Z, st1, []. unfold ret. rewrite app_nil_r. split; [done|]. split; [done|].
       split; [by right|]. split; [by intros ?%Hno|done]. }
  destruct (init_segmenter_run H E _ _ st _ _ Hinit) as (Ht & _).
  assert (Hone : exists code st' evs,
            (Some 1%Z, st1) = (Some code, st')
            /\ trace st' = trace st ++ evs /\ (code = 0%Z \/ code = 1%Z)
            /\ (true = false \/ true = false -> code = 1%Z /\ st' = st)
            /\ (code = 0%Z -> (0 < count_ok evs)%nat)).
  { exists 1%Z, st1, []. rewrite app_nil_r. split; [done|]. split; [done|].
    split; [by right|]. split; [by intros ?%Hno|done]. }
  destruct (str_truthy (arg_specific_file args)).
  - destruct (negb (path_exists E (default [] (arg_specific_file args)) st1)); [exact Hone|].
    destruct (negb (str_truthy (arg_transcript_file args))
              || negb (path_exists E (default [] (arg_transcript_file args)) st1));
      [exact Hone|].
    destruct (negb (str_truthy (arg_level args))); [exact Hone|].
    destruct (negb (str_truthy (arg_topic args))); [exact Hone|].
    destruct (segment_audio_file_summary E self (default [] (arg_specific_file args))
                (arg_transcript_file args) (arg_level args) (default [] (arg_topic args))
                (py "unknown") st1)
      as (b & st2 & evs & Hseg & Ht2 & _ & _ & _ & _ & Hc & _).
    unfold bind. rewrite Hseg.
    exists (if b then 0%Z else 1%Z), st2, evs. split; [by destruct b|].
    split; [by rewrite Ht2, Ht|]. split; [destruct b; auto|].
    split; [by intros ?%Hno|]. rewrite Hc. destruct b; [lia|done].
  - destruct (process_directory_post H E self (arg_process_one args) st1)
      as (n & st2 & evs & res & Hrun & (Ht2 & _ & _ & _ & _ & _ & Hn) & ->).
    unfold bind. rewrite Hrun.
    exists (if (0 <? default 0 res)%nat then 0%Z else 1%Z), st2, evs.
    split; [by destruct (0 <? default 0 res)%nat|].
    split; [by rewrite Ht2, Ht|].
    split; [destruct (0 <? default 0 res)%nat; auto|].
    split; [by intros ?%Hno|].
    destruct (0 <? default 0 res)%nat eqn:Hpos; [|done]. intros _.
    apply Nat.ltb_lt in Hpos. destruct res as [n|]; cbn in Hpos; [|lia].
    by rewrite <- (Hn n eq_refl).
Qed.

(** X21: the exit code of the script, in a run that no interrupt from the
    keyboard reaches (an interrupt ends the script with 0 at any point and
    is outside this model).  When [parse_args] rejects the command line
    the script ends with 2, and when it shows the help with 0, both before
    anything is done.  Otherwise the script ends with 0 or 1: with 1 and
    nothing done when ffmpeg cannot be run or the API token is missing,
    and with 0 only after a run in which the dump of an alignment
    succeeded. *)
Theorem main_exit_code :
  forall H E parsed st,
  exists code st' evs,
    main H E parsed st = (Some code, st')
    /\ trace st' = trace st ++ evs
    /\ match parsed with
       | UsageError => code = 2%Z /\ st' = st
       | HelpShown => code = 0%Z /\ st' = st
       | Parsed args =>
           (code = 0%Z \/ code = 1%Z)
           /\ (check_ffmpeg H = false \/ check_replicate_api H = false ->
               code = 1%Z /\ st' = st)
           /\ (code = 0%Z -> (0 < count_ok evs)%nat)
       end.
Proof.
  intros H E [args| |] st.
  - destruct (main_run H E args st) as (code & st' & evs & Hrun & Ht & Hrest).
    by exists code, st', evs.
  - exists 2%Z, st, []. by rewrite app_nil_r.
  - exists 0%Z, st, []. by rewrite app_nil_r.
Qed.

(** X22: in the mode for one file the script passes its arguments by
    position, so the path of the transcript file stands where
    [segment_audio_file] takes the text of the transcript, the level where
    it takes the path of the transcript, and the topic where it takes the
    level.  When the checks pass, the run is that call with the topic name
    "unknown": the aligner gets the cleaned path of the transcript file
    followed by " Generalitat de Catalunya", not the content of the file. *)
Theorem specific_file_mode_sends_the_path :
  forall H E args specific_file transcript_file level topic st self st1,
    check_ffmpeg H = true -> check_replicate_api H = true ->
    arg_specific_file args = Some specific_file -> specific_file <> [] ->
    arg_transcript_file args = Some transcript_file -> transcript_file <> [] ->
    arg_level args = Some level -> level <> [] ->
    arg_topic args = Some topic -> topic <> [] ->
    init_segmenter H E (arg_data_dir args) (arg_output_dir args) st = (Some self, st1) ->
    path_exists E specific_file st1 = true ->
    path_exists E transcript_file st1 = true ->
    exists b st2 evs,
      segment_audio_file E self specific_file (Some transcript_file) (Some level)
        topic (py "unknown") st1 = (Some b, st2)
      /\ main H E (Parsed args) st = (Some (if b then 0%Z else 1%Z), st2)
      /\ trace st2 = trace st1 ++ evs
      /\ forall a t, EvReplicate a t ∈ evs ->
           a = specific_file
           /\ t = clean_transcript transcript_file ++ py " Generalitat de Catalunya".
Proof.
  intros H E args f tf lv tp st self st1 Hff Htok Hf Hfne Htf Htfne Hlv Hlvne Htp Htpne
    Hinit Hfex Htfex.
  destruct (segment_audio_file_summary E self f (Some tf) (Some lv) tp (py "unknown") st1)
    as (b & st2 & evs & Hseg & Ht2 & _ & _ & _ & _ & _ & _ & Hev & _).
  exists b, st2, evs. split; [done|]. split.
  - unfold main. rewrite Hff, Htok. cbn [negb].
    unfold try_except, bind at 1. rewrite Hinit.
    rewrite Hf, Htf, Hlv, Htp. cbn [default].
    destruct f as [|c0 f]; [done|]. destruct tf as [|c1 tf]; [done|].
    destruct lv as [|c2 lv]; [done|]. destruct tp as [|c3 tp]; [done|].
    cbn [str_truthy negb orb]. cbn beta iota. unfold id. rewrite Hfex, Htfex. cbn [negb].
    unfold bind. rewrite Hseg. by destruct b.
  - split; [done|]. intros a t Hin.
    destruct (Hev a t Hin) as (-> & text & Hget & ->). split; [done|].
    destruct tf as [|c1 tf]; [done|]. cbn in Hget. unfold ret in Hget. by simplify_eq.
Qed.

(** [specific_file_mode_sends_the_path] on the command line
    [--specific-file a.mp3 --transcript-file a.txt --level b1 --topic salut]:
    the text sent is "a.txt Generalitat de Catalunya". *)
Lemma specific_file_mode_sends_the_path_witness :
  exists b st2 evs,
    segment_audio_file (sample_env 0 (Some hola_response))
      {| data_dir := py "data"; audio_output_dir := py "corpus/audio";
         csv_output_file := py "corpus/segments.csv" |}
      (py "a.mp3") (Some (py "a.txt")) (Some (py "b1")) (py "salut") (py "unknown")
      (snd (init_segmenter (sample_host None) (sample_env 0 (Some hola_response)) (py "data")
              (py "corpus") specific_state))
    = (Some b, st2)
    /\ main (sample_host None) (sample_env 0 (Some hola_response))
         (Parsed specific_arguments) specific_state = (Some (if b then 0%Z else 1%Z), st2)
    /\ trace st2
       = trace (snd (init_segmenter (sample_host None)
                       (sample_env 0 (Some hola_response)) (py "data") (py "corpus")
                       specific_state)) ++ evs
    /\ forall a t, EvReplicate a t ∈ evs ->
         a = py "a.mp3"
         /\ t = clean_transcript (py "a.txt") ++ py " Generalitat de Catalunya".
Proof.
  apply (specific_file_mode_sends_the_path (sample_host None)
           (sample_env 0 (Some hola_response)) specific_arguments
           (py "a.mp3") (py "a.txt") (py "b1") (py "salut") specific_state).
  - reflexivity.
  - reflexivity.
  - reflexivity.
  - discriminate.
  - reflexivity.
  - discriminate.
  - reflexivity.
  - discriminate.
  - reflexivity.
  - discriminate.
  - vm_compute. reflexivity.
  - vm_compute. reflexivity.
  - vm_compute. reflexivity.
Defined.

(** The run of that command line: exit code 0, and the text aligned is
    the path. *)
Example specific_file_example :
  exists st' dump rest,
    main (sample_host None) (sample_env 0 (Some hola_response)) (Parsed specific_arguments)
      specific_state = (Some 0%Z, st')
    /\ trace st'
       = EvReplicate (py "a.mp3") (py "a.txt Generalitat de Catalunya") :: dump :: rest.
Proof. do 3 eexists. split; vm_compute; reflexivity. Qed.

(** ** Which transcript is aligned *)

(** X23: the walk over the directory tree aligns the first transcript file
    of the listing: whenever the visit of a topic calls the aligner, the
    text it sends is the cleaned content of the first file of the topic's
    listing that ends with ".txt", followed by " Generalitat de Catalunya";
    the other transcript files are not read. *)
Theorem scan_aligns_first_transcript_file :
  forall E self limit_to_one level level_dir topic n st,
  exists evs,
    trace (snd (scan_topic E self limit_to_one level level_dir topic n st))
      = trace st ++ evs
    /\ forall a t, EvReplicate a t ∈ evs ->
         exists listing transcript_file others raw,
           listdir E (path_join level_dir topic) = Some listing
           /\ filter (fun f => endswith f (py ".txt") = true) listing
              = transcript_file :: others
           /\ read_text E (trace st) (path_join (path_join level_dir topic) transcript_file)
              = Some raw
           /\ t = clean_transcript raw ++ py " Generalitat de Catalunya".
Proof.
  intros E self lt level level_dir topic n st.
  assert (Hnone : exists evs : list event,
            trace st = trace st ++ evs
            /\ forall a t, EvReplicate a t ∈ evs ->
                 exists listing transcript_file others raw,
                   listdir E (path_join level_dir topic) = Some listing
                   /\ filter (fun f => endswith f (py ".txt") = true) listing
                      = transcript_file :: others
                   /\ read_text E (trace st)
                        (path_join (path_join level_dir topic) transcript_file) = Some raw
                   /\ t = clean_transcript raw ++ py " Generalitat de Catalunya").
  { exists []. rewrite app_nil_r. split; [done|]. intros a t Hin. by apply elem_of_nil in Hin. }
  unfold scan_topic.
  destruct (negb (isdir E (path_join level_dir topic)) || startswith topic (py "."));
    [exact Hnone|].
  unfold bind at 1, lift at 1.
  destruct (listdir E (path_join level_dir topic)) as [listing|] eqn:Hlist; [|exact Hnone].
  destruct (filter (fun f => endswith f (py ".txt") = true) listing) as [|tf tfs] eqn:Htxt;
    [exact Hnone|].
  unfold bind at 1, lift at 1.
  destruct (scan_audio_files listing) as [|af afs]; [exact Hnone|].
  destruct (path_exists E (marker_of (path_join (path_join level_dir topic) af)) st);
    [exact Hnone|].
  destruct (segment_audio_file_summary E self (path_join (path_join level_dir topic) af)
              None (Some (path_join (path_join level_dir topic) tf)) level topic st)
    as (b & st1 & evs & Hseg & Ht & _ & _ & _ & _ & _ & _ & Hev & _).
  exists evs. unfold bind. rewrite Hseg. split.
  - destruct b; [|done]. by destruct (lt && bool_decide (1 ≤ n + 1)%nat).
  - intros a t Hin. destruct (Hev a t Hin) as (_ & text & Hget & ->).
    destruct (get_transcript_source E _ _ st text Hget)
      as (raw & -> & [[? _]|(_ & p & Hp & _ & _ & Hread)]); [done|].
    simplify_eq. by exists listing, tf, tfs, raw.
Qed.

Lemma master_audio_loop_texts E self lt c content tp level_code topic_name audio_files :
  forall n st,
  exists evs,
    trace (snd (master_audio_loop E self lt (Some (c :: content)) tp level_code topic_name
                  audio_files n st)) = trace st ++ evs
    /\ forall a t, EvReplicate a t ∈ evs ->
         a ∈ audio_files
         /\ t = clean_transcript (c :: content) ++ py " Generalitat de Catalunya".
Proof.
  induction audio_files as [|a0 rest IH]; intros n st.
  { exists []. cbn. rewrite app_nil_r. split; [done|].
    intros a t Hin. by apply elem_of_nil in Hin. }
  cbn [master_audio_loop].
  destruct (path_exists E (marker_of a0) st).
  { destruct (IH n st) as (evs & Ht & Hev). exists evs. split; [done|].
    intros a t Hin. destruct (Hev a t Hin) as [Ha ->]. split; [|done].
    by apply list_elem_of_further. }
  destruct (segment_audio_file_summary E self a0 (Some (c :: content)) tp level_code
              topic_name st)
    as (b & st1 & evs1 & Hseg & Ht1 & _ & _ & _ & _ & _ & _ & Hev1 & _).
  assert (Hev1' : forall a t, EvReplicate a t ∈ evs1 ->
            a ∈ a0 :: rest
            /\ t = clean_transcript (c :: content) ++ py " Generalitat de Catalunya").
  { intros a t Hin. destruct (Hev1 a t Hin) as (-> & text & Hget & ->).
    split; [apply list_elem_of_here|]. cbn in Hget. unfold ret in Hget. by simplify_eq. }
  unfold bind. rewrite Hseg. destruct b.
  - exists evs1. split; [|done].
    by destruct (lt && bool_decide (1 ≤ n + 1)%nat).
  - destruct (IH n st1) as (evs & Ht & Hev). exists (evs1 ++ evs).
    split; [by rewrite Ht, Ht1, app_assoc|].
    intros a t Hin. apply elem_of_app in Hin as [Hin|Hin]; [by apply Hev1'|].
    destruct (Hev a t Hin) as [Ha ->]. split; [|done]. by apply list_elem_of_further.
Qed.

(** X24: a topic of the index that carries its transcript under "content"
    is aligned with that text: whenever the visit of such a topic calls the
    aligner, the text it sends is the cleaned content followed by
    " Generalitat de Catalunya"; no transcript file is read for it, whether
    the index names one or the topic directory holds one. *)
Theorem index_content_is_aligned :
  forall E self limit_to_one level_code topic_dir topic_name content audio_files_field n st,
    content <> [] ->
    exists evs,
      trace (snd (master_topic E self limit_to_one level_code
                    (TopicDict topic_dir topic_name (TranscriptContent (Some content))
                       audio_files_field) n st)) = trace st ++ evs
      /\ forall a t, EvReplicate a t ∈ evs ->
           t = clean_transcript content ++ py " Generalitat de Catalunya".
Proof.
  intros E self lt lc topic_dir topic_name content field n st Hne.
  destruct content as [|c content]; [done|].
  assert (Hnone : exists evs : list event,
            trace st = trace st ++ evs
            /\ forall a t, EvReplicate a t ∈ evs ->
                 t = clean_transcript (c :: content) ++ py " Generalitat de Catalunya").
  { exists []. rewrite app_nil_r. split; [done|]. intros a t Hin. by apply elem_of_nil in Hin. }
  unfold master_topic.
  destruct (negb (str_truthy topic_dir) || negb (str_truthy topic_name)); [exact Hnone|].
  destruct (negb (path_exists E (default [] topic_dir) st)); [exact Hnone|].
  unfold lacks_transcript. cbn [str_truthy negb andb].
  unfold bind at 1. unfold ret at 1.
  unfold bind at 1.
  pose proof (master_audio_files_quiet E field (default [] topic_dir) st) as Hq.
  destruct (master_audio_files E field (default [] topic_dir) st) as [[audio_files|] st0];
    cbn in Hq; subst st0; [|exact Hnone].
  destruct audio_files as [|a0 rest]; [exact Hnone|].
  destruct (master_audio_loop_texts E self lt c content None lc (default [] topic_name)
              (a0 :: rest) n st) as (evs & Ht & Hev).
  exists evs. split; [done|]. intros a t Hin. by destruct (Hev a t Hin).
Qed.

(** [index_content_is_aligned] on a topic whose directory also holds a
    transcript file with the text "Hola.": the text sent is that of the
    index. *)
Lemma index_content_is_aligned_witness :
  exists evs,
    trace (snd (master_topic walk_env walk_segmenter false (py "b1") content_topic 0
                  index_state)) = trace index_state ++ evs
    /\ forall a t, EvReplicate a t ∈ evs ->
         t = clean_transcript (py "Bon dia.") ++ py " Generalitat de Catalunya".
Proof.
  apply (index_content_is_aligned walk_env walk_segmenter false (py "b1")
           (Some (py "data/b1/t2")) (Some (py "t2")) (py "Bon dia.") None 0 index_state).
  discriminate.
Defined.

(** The run of that topic: the aligner is called once, with the text of the
    index. *)
Example index_content_example :
  exists st' rest,
    master_topic walk_env walk_segmenter false (py "b1") content_topic 0 index_state
      = (Some (1%nat, false), st')
    /\ trace st'
       = EvReplicate (py "data/b1/t2/t2_rapid.mp3") (py "Bon dia. Generalitat de Catalunya")
         :: rest.
Proof. do 2 eexists. split; vm_compute; reflexivity. Qed.

(** X25: the audio files the walk over the directory tree chooses from are
    files of the listing that end with ".mp3"; when one of these holds
    "rapid" in its lowercased name all the chosen ones do, and the others
    are chosen only when none does. *)
Theorem directory_scan_prefers_rapid :
  forall listing,
    (forall f, f ∈ scan_audio_files listing ->
               f ∈ listing /\ endswith f (py ".mp3") = true)
    /\ ((exists f, f ∈ listing /\ endswith f (py ".mp3") = true /\ is_rapid f = true) ->
        scan_audio_files listing <> []
        /\ forall f, f ∈ scan_audio_files listing -> is_rapid f = true)
    /\ ((forall f, f ∈ listing -> endswith f (py ".mp3") = true -> is_rapid f = false) ->
        scan_audio_files listing
        = filter (fun f => endswith f (py ".mp3") = true) listing).
Proof. exact scan_prefers_rapid. Qed.
